(** * Project_events_service: validate-then-aggregate pipeline

    Shallow embedding of [src/CarsProjects.py] and [src/EventsProject.py].

    Conventions.
    - Python [str] is modelled by [string]; a character is a code point
      below 256 (the Latin-1 range), so [\s], [\d] and [str.strip] are the
      restrictions of Python's Unicode classes to that range.
    - A Python call either returns a value or raises: [result A] with the
      exception classes the two files can raise.
    - A [float] is a double; the division of integers returns the double
      nearest to the exact quotient.
    - Insertion-ordered [dict]s ([errors], [Counter], [defaultdict]) are
      association lists with unique keys, in insertion order.
    - Files are read and written by collaborators: the loaders are given
      the records or lines that were read, the writer's lines are the
      result of [save_sorted_events].
    - A [datetime] is naive; [datetime.now()] is one reading of the clock,
      the same for the lines of a run. *)

From Stdlib Require Import ZArith List Bool Ascii String Lia Permutation.
From Stdlib Require Import Sorted QArith Qabs.
Import ListNotations.

Set Warnings "-register-all".
Local Open Scope string_scope.
Local Open Scope Z_scope.

(* ===================================================================== *)
(** ** Python runtime: exceptions, values, strings                       *)
(* ===================================================================== *)

Module Py.

(** Values decoded by [json.load]: [None], [bool], [int], [float], [str],
    [list], [dict].  A float of a record is kept as mantissa and binary
    exponent; no operation of the program computes with one. *)
Inductive pyval : Type :=
| PNone
| PBool (b : bool)
| PInt (n : Z)
| PFloat (mantissa exponent : Z)
| PStr (s : string)
| PList (items : list pyval)
| PDict (items : list (string * pyval)).

Inductive exn : Type :=
| KeyError (key : pyval)
| TypeError
| ValueError
| ZeroDivisionError
| OverflowError.

Inductive result (A : Type) : Type :=
| Ok (a : A)
| Raise (e : exn).
Arguments Ok {A} a.
Arguments Raise {A} e.

Definition bind {A B : Type} (m : result A) (k : A -> result B) : result B :=
  match m with
  | Ok a => k a
  | Raise e => Raise e
  end.

Definition returns {A : Type} (m : result A) : Prop := exists a, m = Ok a.
Definition raises {A : Type} (m : result A) : Prop := exists e, m = Raise e.

(** [dict[str, Any]]: first binding of a key is the bound one. *)
Definition dict : Type := list (string * pyval).

Fixpoint lookup {V : Type} (k : string) (d : list (string * V)) : option V :=
  match d with
  | [] => None
  | (k', v) :: d' => if String.eqb k k' then Some v else lookup k d'
  end.

(** [k in d] *)
Definition contains {V : Type} (k : string) (d : list (string * V)) : bool :=
  match lookup k d with Some _ => true | None => false end.

(** [d[k]], raising [KeyError] *)
Definition getitem (d : dict) (k : string) : result pyval :=
  match lookup k d with
  | Some v => Ok v
  | None => Raise (KeyError (PStr k))
  end.

(** [d[k] = v] and [d |= {k: v}] on an insertion-ordered dict. *)
Fixpoint dict_set {V : Type} (k : string) (v : V) (d : list (string * V))
  : list (string * V) :=
  match d with
  | [] => [(k, v)]
  | (k', v') :: d' =>
      if String.eqb k k' then (k, v) :: d' else (k', v') :: dict_set k v d'
  end.

Definition keys {V : Type} (d : list (string * V)) : list string := map fst d.

(** [isinstance(v, int)]: [bool] is a subclass of [int]. *)
Definition isinstance_int (v : pyval) : bool :=
  match v with
  | PInt _ | PBool _ => true
  | _ => false
  end.

(** [int(v)] for an instance of [int] ([True] is 1, [False] is 0). *)
Definition int_value (v : pyval) : Z :=
  match v with
  | PInt n => n
  | PBool true => 1
  | _ => 0
  end.

Definition chars (s : string) : list ascii := list_ascii_of_string s.

(** [iter(v)]: the elements a [for] loop over [v] visits; [None] stands
    for [TypeError: object is not iterable]. *)
Definition iter (v : pyval) : option (list pyval) :=
  match v with
  | PStr s => Some (map (fun c => PStr (String c EmptyString)) (chars s))
  | PList l => Some l
  | PDict d => Some (map (fun kv => PStr (fst kv)) d)
  | _ => None
  end.

(** *** Characters *)

Definition code (c : ascii) : N := N_of_ascii c.

Definition in_range (lo hi : N) (c : ascii) : bool :=
  ((lo <=? code c) && (code c <=? hi))%N.

(** [str.isspace] / regex [\s] below code point 256. *)
Definition is_space (c : ascii) : bool :=
  in_range 9 13 c || in_range 28 32 c
  || (code c =? 133)%N || (code c =? 160)%N.

Definition is_upper (c : ascii) : bool := in_range 65 90 c.   (* [A-Z] *)
Definition is_lower (c : ascii) : bool := in_range 97 122 c.  (* [a-z] *)
Definition is_digit (c : ascii) : bool := in_range 48 57 c.   (* \d *)

(** A regular expression, as the predicate
    [re.match(pattern, s) is not None] on strings. *)
Definition regex : Type := string -> bool.

(** *** [str.strip()] *)

Fixpoint lstrip (s : string) : string :=
  match s with
  | String c s' => if is_space c then lstrip s' else s
  | EmptyString => EmptyString
  end.

Fixpoint rstrip (s : string) : string :=
  match s with
  | String c s' =>
      match rstrip s' with
      | EmptyString => if is_space c then EmptyString else String c EmptyString
      | r => String c r
      end
  | EmptyString => EmptyString
  end.

Definition strip (s : string) : string := rstrip (lstrip s).

(** [c in s] *)
Definition has_char (c : ascii) (s : string) : bool :=
  existsb (Ascii.eqb c) (chars s).

(** The string does not start with a blank. *)
Definition unblank_head (s : string) : Prop :=
  match s with
  | String a _ => is_space a = false
  | EmptyString => True
  end.

(** *** [str.split(sep)] *)

(** [split_from sep s skip cur]: scan [s] left to right; [cur] is the part
    being collected (reversed); the first [skip] characters belong to a
    separator already found. *)
Fixpoint split_from (sep s : string) (skip : nat) (cur : list ascii)
  : list string :=
  match s with
  | EmptyString => [string_of_list_ascii (rev cur)]
  | String c s' =>
      match skip with
      | S k => split_from sep s' k cur
      | O =>
          if String.prefix sep s
          then string_of_list_ascii (rev cur)
               :: split_from sep s' (String.length sep - 1) []
          else split_from sep s' O (c :: cur)
      end
  end.

(** [s.split(sep)]; an empty separator raises [ValueError]. *)
Definition split (s sep : string) : result (list string) :=
  match sep with
  | EmptyString => Raise ValueError
  | _ => Ok (split_from sep s O [])
  end.

(** *** Builtins on integers *)

(** [max(xs)] and [min(xs)] raise [ValueError] on an empty iterable. *)
Definition max (xs : list Z) : result Z :=
  match xs with
  | [] => Raise ValueError
  | x :: xs' => Ok (fold_left Z.max xs' x)
  end.

Definition min (xs : list Z) : result Z :=
  match xs with
  | [] => Raise ValueError
  | x :: xs' => Ok (fold_left Z.min xs' x)
  end.

Definition sum (xs : list Z) : Z := fold_left Z.add xs 0.

(** The least and the greatest element of a list, and the sum of its
    elements, as the builtins are to compute them. *)
Definition is_min (m : Z) (xs : list Z) : Prop :=
  In m xs /\ Forall (fun x => m <= x) xs.

Definition is_max (m : Z) (xs : list Z) : Prop :=
  In m xs /\ Forall (fun x => x <= m) xs.

Definition total (xs : list Z) : Z := fold_right Z.add 0 xs.

(** The least magnitude that no longer rounds to a finite double. *)
Definition float_limit : Z := 2 ^ 1024 - 2 ^ 970.

(** *** Floats, and [a / b] on integers *)

(** A finite [float], that is a double: its sign, and its magnitude
    counted in units of 2^-1074, the least positive double.  The
    magnitudes of the doubles are the [m * 2^k] with [m] below 2^53 and
    [k] at most 2045; 2^2098 units are 2^1024, beyond the greatest. *)
Record float : Type := { negative : bool; magnitude : Z }.

Definition is_double (x : float) : Prop :=
  exists m k, 0 <= m < 2 ^ 53 /\ 0 <= k <= 2045 /\ magnitude x = m * 2 ^ k.

Definition signed (x : float) : Z :=
  if negative x then - magnitude x else magnitude x.

(** The number a float stands for. *)
Definition value (x : float) : Q := signed x # (2 ^ 1074).

(** The integer nearest to [n / d], the even one of two equally near. *)
Definition round_half_even (n d : Z) : Z :=
  let q := n / d in
  match 2 * (n mod d) ?= d with
  | Lt => q
  | Gt => q + 1
  | Eq => if Z.even q then q else q + 1
  end.

(** [n / d], for [n >= 0] and [d > 0], rounded to 53 significant bits,
    or to a whole number of units where the quotient is below 2^53 units;
    the result is counted in units. *)
Definition nearest_units (n d : Z) : Z :=
  let scaled := n * 2 ^ 1074 in
  let shift := Z.max 0 (Z.log2 (scaled / d) - 52) in
  round_half_even scaled (d * 2 ^ shift) * 2 ^ shift.

(** [a / b] on integers: the float nearest to the exact quotient, ties
    going to the even mantissa.  Division by zero raises; so does a
    quotient that rounds beyond the greatest double. *)
Definition truediv (a b : Z) : result float :=
  if b =? 0 then Raise ZeroDivisionError
  else
    let m := nearest_units (Z.abs a) (Z.abs b) in
    if 2 ^ 2098 <=? m then Raise OverflowError
    else Ok {| negative := xorb (a <? 0) (b <? 0); magnitude := m |}.

(** The mean of [xs] is within the range of a float. *)
Definition mean_in_range (xs : list Z) : Prop :=
  Z.abs (total xs) < float_limit * Z.of_nat (List.length xs).

(** *** [sorted(xs, key=..., reverse=...)]

    Python's sort is stable and compares keys with [<] only.  The model is
    the stable insertion sort; [reverse=True] keeps the original order of
    equal elements, which CPython obtains by reversing before and after. *)
Section Sorted.
Context {A K : Type} (key : A -> K) (ltb : K -> K -> bool).

Fixpoint insert (x : A) (l : list A) : list A :=
  match l with
  | [] => [x]
  | y :: l' =>
      if ltb (key y) (key x) then y :: insert x l' else x :: l
  end.

Definition sort_asc (l : list A) : list A := fold_right insert [] l.

Definition sorted (l : list A) (reverse : bool) : list A :=
  if reverse then rev (sort_asc (rev l)) else sort_asc l.

(** No element is followed, anywhere later, by one with a smaller key;
    respectively by one with a greater key. *)
Definition ascending (l : list A) : Prop :=
  StronglySorted (fun a b => ltb (key b) (key a) = false) l.

Definition descending (l : list A) : Prop :=
  StronglySorted (fun a b => ltb (key a) (key b) = false) l.
End Sorted.

(** A strict total order given by its boolean test. *)
Record strict_total {K : Type} (ltb : K -> K -> bool) : Prop := {
  st_irrefl : forall a, ltb a a = false;
  st_trans : forall a b c, ltb a b = true -> ltb b c = true -> ltb a c = true;
  st_total : forall a b, ltb a b = false -> ltb b a = false -> a = b
}.

End Py.

Import Py.

Declare Scope py_scope.
Notation "x <- m ;; k" := (bind m (fun x => k))
  (at level 61, m at next level, right associativity) : py_scope.
Notation "' pat <- m ;; k" := (bind m (fun x => match x with pat => k end))
  (at level 61, pat pattern, m at next level, right associativity) : py_scope.
Local Open Scope py_scope.

(* ===================================================================== *)
(** ** CarsProjects.py: validation, conversion, loading                  *)
(* ===================================================================== *)

Module Cars.

Inductive CarColor : Type := GREEN | BLACK | WHITE | RED.

(** [color.name] *)
Definition name (c : CarColor) : string :=
  match c with
  | GREEN => "GREEN" | BLACK => "BLACK" | WHITE => "WHITE" | RED => "RED"
  end.

Definition members : list CarColor := [GREEN; BLACK; WHITE; RED].

(** [{color.name for color in CarColor}] *)
Definition color_names : list string := map name members.

(** [CarColor[v]]: lookup of a member by name. *)
Definition CarColor_getitem (v : pyval) : result CarColor :=
  match v with
  | PStr s =>
      match find (fun c => String.eqb (name c) s) members with
      | Some c => Ok c
      | None => Raise (KeyError v)
      end
  | PList _ | PDict _ => Raise TypeError
  | _ => Raise (KeyError v)
  end.

(** [v not in {color.name for color in CarColor}] negated: membership in a
    set hashes [v] first. *)
Definition in_color_names (v : pyval) : result bool :=
  match v with
  | PStr s => Ok (existsb (String.eqb s) color_names)
  | PList _ | PDict _ => Raise TypeError
  | _ => Ok false
  end.

(** [re.match(pattern, v)]: [TypeError] unless [v] is a [str]. *)
Definition re_match (pattern : regex) (v : pyval) : result bool :=
  match v with
  | PStr s => Ok (pattern s)
  | _ => Raise TypeError
  end.

(** [r'^[A-Z\s]+$']: one or more characters, each an upper-case letter or
    whitespace.  ([$] also matches before a final newline, which is itself
    whitespace.) *)
Definition upper_or_space (c : ascii) : bool := is_upper c || is_space c.

Definition upper_ws_regex : regex :=
  fun s => match s with
           | EmptyString => false
           | _ => forallb upper_or_space (chars s)
           end.

Record CarValidator : Type := {
  model_regex : regex;
  collection_regex : regex
}.

(** The dataclass defaults, also the patterns [main] passes. *)
Definition default_validator : CarValidator :=
  {| model_regex := upper_ws_regex; collection_regex := upper_ws_regex |}.

(** The f-string messages, with the values they interpolate. *)
Inductive message : Type :=
| NotFound
| NoRegexMatch (model : pyval)
| NotFoundForModel (model : pyval)
| NotANumber (model shown : pyval)
| NotPositive (model : pyval)
| UnknownColor (color model : pyval)
| InvalidComponents (model components : pyval).

Definition errors_t : Type := list (string * list message).

(** [isinstance(comp, str) and re.match(collection_regex, comp)] *)
Definition component_ok (v : CarValidator) (comp : pyval) : bool :=
  match comp with
  | PStr s => collection_regex v s
  | _ => false
  end.

(** [all(... for comp in x)] *)
Definition all_components_ok (v : CarValidator) (x : pyval) : result bool :=
  match iter x with
  | Some comps => Ok (forallb (component_ok v) comps)
  | None => Raise TypeError
  end.

Section Validate.
Variable v : CarValidator.
Variable data : dict.

Definition check_model (errors : errors_t) : result errors_t :=
  if negb (contains "model" data) then
    Ok (dict_set "model" [NotFound] errors)
  else
    m <- getitem data "model" ;;
    ok <- re_match (model_regex v) m ;;
    if negb ok then Ok (dict_set "model" [NoRegexMatch m] errors)
    else Ok errors.

Definition check_price (errors : errors_t) : result errors_t :=
  if negb (contains "price" data) then
    m <- getitem data "model" ;;
    Ok (dict_set "price" [NotFoundForModel m] errors)
  else
    p <- getitem data "price" ;;
    if negb (isinstance_int p) then
      m <- getitem data "model" ;;
      shown <- getitem data "price" ;;
      Ok (dict_set "price" [NotANumber m shown] errors)
    else if int_value p <=? 0 then
      m <- getitem data "model" ;;
      Ok (dict_set "price" [NotPositive m] errors)
    else Ok errors.

Definition check_color (errors : errors_t) : result errors_t :=
  if negb (contains "color" data) then
    m <- getitem data "model" ;;
    Ok (dict_set "color" [NotFoundForModel m] errors)
  else
    c <- getitem data "color" ;;
    known <- in_color_names c ;;
    if negb known then
      shown <- getitem data "color" ;;
      m <- getitem data "model" ;;
      Ok (dict_set "color" [UnknownColor shown m] errors)
    else Ok errors.

(** The not-a-number message of this branch interpolates
    [data["price"]], as the source does. *)
Definition check_mileage (errors : errors_t) : result errors_t :=
  if negb (contains "mileage" data) then
    m <- getitem data "model" ;;
    Ok (dict_set "mileage" [NotFoundForModel m] errors)
  else
    x <- getitem data "mileage" ;;
    if negb (isinstance_int x) then
      m <- getitem data "model" ;;
      shown <- getitem data "price" ;;
      Ok (dict_set "mileage" [NotANumber m shown] errors)
    else if int_value x <=? 0 then
      m <- getitem data "model" ;;
      Ok (dict_set "mileage" [NotPositive m] errors)
    else Ok errors.

Definition check_components (errors : errors_t) : result errors_t :=
  if negb (contains "components" data) then
    m <- getitem data "model" ;;
    Ok (dict_set "components" [NotFoundForModel m] errors)
  else
    comps <- getitem data "components" ;;
    ok <- all_components_ok v comps ;;
    if negb ok then
      m <- getitem data "model" ;;
      shown <- getitem data "components" ;;
      Ok (dict_set "components" [InvalidComponents m shown] errors)
    else Ok errors.

(** [CarValidator.validate] *)
Definition validate : result (bool * errors_t) :=
  e1 <- check_model [] ;;
  e2 <- check_price e1 ;;
  e3 <- check_color e2 ;;
  e4 <- check_mileage e3 ;;
  e5 <- check_components e4 ;;
  Ok (Nat.eqb (List.length e5) 0, e5).
End Validate.

(** The dataclass [Car] as [from_dict] builds it: the raw values are
    stored unchecked, so a field holds whatever Python value the record
    had; only [color] is converted, by the enum lookup. *)
Record Car : Type := {
  model : pyval;
  price : pyval;
  color : CarColor;
  mileage : pyval;
  components : pyval
}.

(** [Car.from_dict] *)
Definition from_dict (data : dict) : result Car :=
  m <- getitem data "model" ;;
  p <- getitem data "price" ;;
  cn <- getitem data "color" ;;
  c <- CarColor_getitem cn ;;
  x <- getitem data "mileage" ;;
  comps <- getitem data "components" ;;
  Ok {| model := m; price := p; color := c; mileage := x;
        components := comps |}.

(** [reports f e e']: the check of field [f] took the errors [e] to [e'],
    kept the keys, and added [f] if the record lacks it. *)
Definition reports (data : dict) (f : string) (e e' : errors_t) : Prop :=
  (forall k, In k (keys e) -> In k (keys e'))
  /\ (contains f data = false -> In f (keys e')).

(** The fields a record must have. *)
Definition required : list string :=
  ["model"; "price"; "color"; "mileage"; "components"].

Record CarsFileReader : Type := {
  car_validator : CarValidator;
  stop_loading_if_error : bool
}.

(** [CarsFileReader.get_cars], from the records [JsonFileReader.read]
    returned ([cars_data]); the warnings logged for an invalid record are
    not part of the result. *)
Fixpoint load (r : CarsFileReader) (cars_data : list dict) (cars : list Car)
  : result (list Car) :=
  match cars_data with
  | [] => Ok cars
  | car :: rest =>
      '(is_valid, errors) <- validate (car_validator r) car ;;
      if negb is_valid && stop_loading_if_error r then Raise ValueError
      else if is_valid then
        c <- from_dict car ;;
        load r rest (cars ++ [c])
      else load r rest cars
  end.

Definition get_cars (r : CarsFileReader) (cars_data : list dict)
  : result (list Car) :=
  load r cars_data [].

(** The data-model invariant of a vehicle. *)
Definition upper_ws_string (v : pyval) : Prop :=
  exists s, v = PStr s /\ s <> EmptyString /\
            Forall (fun c => is_upper c = true \/ is_space c = true) (chars s).

Definition positive_int (v : pyval) : Prop :=
  isinstance_int v = true /\ 0 < int_value v.

Record car_invariant (c : Car) : Prop := {
  inv_model : upper_ws_string (model c);
  inv_price : positive_int (price c);
  inv_color : In (color c) members;
  inv_mileage : positive_int (mileage c);
  inv_components :
    exists comps, iter (components c) = Some comps /\
                  Forall upper_ws_string comps
}.

(** What [validate] checks, read off its branches: the record has the five
    fields; the model is a string the model pattern matches; price and
    mileage are integers greater than 0; the colour is the name of a
    member; the components can be iterated and each is a string the
    collection pattern matches. *)
Definition valid_record (v : CarValidator) (data : dict) : Prop :=
  (exists s, lookup "model" data = Some (PStr s) /\ model_regex v s = true)
  /\ (exists p, lookup "price" data = Some p /\ positive_int p)
  /\ (exists c, lookup "color" data = Some (PStr c) /\ In c color_names)
  /\ (exists x, lookup "mileage" data = Some x /\ positive_int x)
  /\ (exists cs comps, lookup "components" data = Some cs
                       /\ iter cs = Some comps
                       /\ forallb (component_ok v) comps = true).


End Cars.

(* ===================================================================== *)
(** ** CarsProjects.py: the cars service                                 *)
(* ===================================================================== *)

Module CarsService.

Import Cars(CarColor, GREEN, BLACK, WHITE, RED).

(** The dataclass [Car] as its annotations type it: the service is given
    [cars: list[Car]] with [model: str], [price: int], [mileage: int],
    [components: list[str]]. *)
Record Car : Type := {
  model : string;
  price : Z;
  color : CarColor;
  mileage : Z;
  components : list string
}.

(** The typed reading of a loaded car. *)
Definition str_value (v : pyval) : option string :=
  match v with PStr s => Some s | _ => None end.

Fixpoint str_values (vs : list pyval) : option (list string) :=
  match vs with
  | [] => Some []
  | v :: vs' =>
      match str_value v, str_values vs' with
      | Some s, Some ss => Some (s :: ss)
      | _, _ => None
      end
  end.

Definition of_loaded (c : Cars.Car) : option Car :=
  match Cars.model c, iter (Cars.components c) with
  | PStr m, Some comps =>
      if isinstance_int (Cars.price c) && isinstance_int (Cars.mileage c)
      then option_map
             (fun cs => {| model := m;
                           price := int_value (Cars.price c);
                           color := Cars.color c;
                           mileage := int_value (Cars.mileage c);
                           components := cs |})
             (str_values comps)
      else None
  | _, _ => None
  end.

(** [get_cars_mileage_than]; the argument is an arbitrary Python value. *)
Definition get_cars_mileage_than (cars : list Car) (threshold : pyval)
  : result (list Car) :=
  if negb (isinstance_int threshold) || (int_value threshold <? 0)
  then Raise ValueError
  else Ok (filter (fun car => int_value threshold <? mileage car) cars).

(** [d[k]] on a [defaultdict(list)]: a missing key is inserted with []. *)
Definition defaultdict_get {V : Type} (k : string)
  (d : list (string * list V)) : list V * list (string * list V) :=
  match lookup k d with
  | Some v => (v, d)
  | None => ([], dict_set k [] d)
  end.

(** One iteration of the loop of [get_model_cars_most_expensive]. *)
Definition most_expensive_step (d : list (string * list Car)) (car : Car)
  : list (string * list Car) :=
  let '(cur, d1) := defaultdict_get (model car) d in
  match cur with
  | [] => dict_set (model car) (cur ++ [car])%list d1
  | first :: _ =>
      let max_price := price first in
      if max_price <? price car then dict_set (model car) [car] d1
      else if price car =? max_price
           then dict_set (model car) (cur ++ [car])%list d1
           else d1
  end.

(** [get_model_cars_most_expensive]: the result dict, in insertion order. *)
Definition get_model_cars_most_expensive (cars : list Car) (descending : bool)
  : list (string * list Car) :=
  let model_cars_most_expensive := fold_left most_expensive_step cars [] in
  sorted fst String.ltb model_cars_most_expensive descending.

(** The average is the [int] 0 of an empty collection, or the [float] a
    division returned. *)
Inductive number : Type :=
| Int (n : Z)
| Float (x : float).

(** [{'avg': _, 'min': _, 'max': _}] *)
Record stats : Type := { avg : number; min : Z; max : Z }.

(** [{'price': _, 'mileage': _}] *)
Record statistic : Type := { of_price : stats; of_mileage : stats }.

Definition stats_of (xs : list Z) : result stats :=
  a <- truediv (Py.sum xs) (Z.of_nat (List.length xs)) ;;
  lo <- Py.min xs ;;
  hi <- Py.max xs ;;
  Ok {| avg := Float a; min := lo; max := hi |}.

Definition zero_stats : stats := {| avg := Int 0; min := 0; max := 0 |}.

(** [get_statistic_price_mileage] *)
Definition get_statistic_price_mileage (cars : list Car) : result statistic :=
  match cars with
  | [] => Ok {| of_price := zero_stats; of_mileage := zero_stats |}
  | _ =>
      let prices := map price cars in
      let milleages := map mileage cars in
      p <- stats_of prices ;;
      m <- stats_of milleages ;;
      Ok {| of_price := p; of_mileage := m |}
  end.

(** [get_cars_most_expensive] *)
Definition get_cars_most_expensive (cars : list Car) : result (list Car) :=
  max_price <- Py.max (map price cars) ;;
  Ok (filter (fun car => price car =? max_price) cars).

(** What the loop of [get_model_cars_most_expensive] maintains: after the
    cars [seen], a model bound in the dict is bound to the cars of that
    model at its greatest price so far, in the order met; a model not
    bound has not been met. *)
Definition has_model (m : string) (car : Car) : bool :=
  String.eqb (model car) m.

Definition most_expensive_of (m : string) (p : Z) (car : Car) : bool :=
  has_model m car && (price car =? p).

Definition group_ok (seen : list Car) (m : string) (o : option (list Car))
  : Prop :=
  match o with
  | None => forall car, In car seen -> has_model m car = false
  | Some cs =>
      exists p, In p (map price (filter (has_model m) seen))
                /\ Forall (fun x => x <= p)
                          (map price (filter (has_model m) seen))
                /\ cs = filter (most_expensive_of m p) seen
  end.

Definition loop_inv (seen : list Car) (d : list (string * list Car)) : Prop :=
  NoDup (keys d) /\ forall m, group_ok seen m (lookup m d).

(** What the statistics are to be: the mean, the least and the greatest
    element of a list.  The mean is a float: a double, with the sign of
    the sum, and no double is nearer to the exact mean. *)
Definition exact_mean (xs : list Z) : Q :=
  inject_Z (total xs) / inject_Z (Z.of_nat (List.length xs)).

Definition is_mean (n : number) (xs : list Z) : Prop :=
  exists x,
    n = Float x
    /\ is_double x
    /\ negative x = (total xs <? 0)
    /\ forall y, is_double y ->
         (Qabs (value x - exact_mean xs)
          <= Qabs (value y - exact_mean xs))%Q.

Definition describes (st : stats) (xs : list Z) : Prop :=
  is_mean (avg st) xs /\ is_min (min st) xs /\ is_max (max st) xs.

End CarsService.

(* ===================================================================== *)
(** ** datetime: values, and a model of strptime and strftime            *)
(* ===================================================================== *)

Module Datetime.

(** A naive [datetime]. *)
Record datetime : Type := {
  year : Z; month : Z; day : Z;
  hour : Z; minute : Z; second : Z; microsecond : Z
}.

Definition fields (d : datetime) : list Z :=
  [year d; month d; day d; hour d; minute d; second d; microsecond d].

Fixpoint lex_ltb (a b : list Z) : bool :=
  match a, b with
  | x :: a', y :: b' => (x <? y) || ((x =? y) && lex_ltb a' b')
  | [], _ :: _ => true
  | _, [] => false
  end.

(** [a < b] *)
Definition ltb (a b : datetime) : bool := lex_ltb (fields a) (fields b).

(** [a == b] *)
Definition eqb (a b : datetime) : bool :=
  forallb (fun p => fst p =? snd p) (combine (fields a) (fields b)).

(** *** CPython's [_strptime], on the directives [%d %m %Y %H %M %S %%]

    The format is turned into a regular expression: a directive becomes
    an alternation of fixed shapes, tried in order; a run of whitespace
    becomes [\s+]; any other character stands for itself, matched without
    regard to case.  The string must match from its start and nothing may
    remain.  Directives outside this list, and formats that use one
    directive twice, are not modelled. *)

Inductive directive : Type := Dd | Dm | DY | DH | DM | DS.

Inductive item : Type :=
| Directive (d : directive)
| Literal (c : ascii)
| Spaces.

Definition directive_of (c : ascii) : option item :=
  if Ascii.eqb c "d" then Some (Directive Dd)
  else if Ascii.eqb c "m" then Some (Directive Dm)
  else if Ascii.eqb c "Y" then Some (Directive DY)
  else if Ascii.eqb c "H" then Some (Directive DH)
  else if Ascii.eqb c "M" then Some (Directive DM)
  else if Ascii.eqb c "S" then Some (Directive DS)
  else if Ascii.eqb c "%" then Some (Literal "%")
  else None.

Fixpoint compile (format : string) : option (list item) :=
  match format with
  | EmptyString => Some []
  | String c rest =>
      if Ascii.eqb c "%" then
        match rest with
        | EmptyString => None
        | String d rest' =>
            match directive_of d, compile rest' with
            | Some it, Some items => Some (it :: items)
            | _, _ => None
            end
        end
      else if is_space c then
        match compile rest with
        | Some (Spaces :: items) => Some (Spaces :: items)
        | Some items => Some (Spaces :: items)
        | None => None
        end
      else option_map (cons (Literal c)) (compile rest)
  end.

Definition shape : Type := list (ascii -> bool).

(** The alternatives of each directive, in the order of the pattern:
    [%d] is [3[0-1]|[1-2]\d|0[1-9]|[1-9]| [1-9]], and so on. *)
Definition shapes (d : directive) : list shape :=
  match d with
  | Dd => [[in_range 51 51; in_range 48 49]; [in_range 49 50; is_digit];
           [in_range 48 48; in_range 49 57]; [in_range 49 57];
           [in_range 32 32; in_range 49 57]]
  | Dm => [[in_range 49 49; in_range 48 50];
           [in_range 48 48; in_range 49 57]; [in_range 49 57]]
  | DY => [[is_digit; is_digit; is_digit; is_digit]]
  | DH => [[in_range 50 50; in_range 48 51]; [in_range 48 49; is_digit];
           [is_digit]]
  | DM => [[in_range 48 53; is_digit]; [is_digit]]
  | DS => [[in_range 54 54; in_range 48 49]; [in_range 48 53; is_digit];
           [is_digit]]
  end.

Fixpoint take_shape (sh : shape) (s : string) : option (string * string) :=
  match sh with
  | [] => Some (EmptyString, s)
  | p :: sh' =>
      match s with
      | String c s' =>
          if p c then
            match take_shape sh' s' with
            | Some (tok, rest) => Some (String c tok, rest)
            | None => None
            end
          else None
      | EmptyString => None
      end
  end.

(** [int(tok)] on a matched token: digits, after an optional blank. *)
Definition int_of_token (tok : string) : Z :=
  fold_left (fun acc c => if is_digit c then 10 * acc + (Z.of_N (code c) - 48)
                          else acc)
            (chars tok) 0.

Definition set_field (d : directive) (n : Z) (t : datetime) : datetime :=
  match d with
  | Dd => {| year := year t; month := month t; day := n; hour := hour t;
             minute := minute t; second := second t;
             microsecond := microsecond t |}
  | Dm => {| year := year t; month := n; day := day t; hour := hour t;
             minute := minute t; second := second t;
             microsecond := microsecond t |}
  | DY => {| year := n; month := month t; day := day t; hour := hour t;
             minute := minute t; second := second t;
             microsecond := microsecond t |}
  | DH => {| year := year t; month := month t; day := day t; hour := n;
             minute := minute t; second := second t;
             microsecond := microsecond t |}
  | DM => {| year := year t; month := month t; day := day t; hour := hour t;
             minute := n; second := second t;
             microsecond := microsecond t |}
  | DS => {| year := year t; month := month t; day := day t; hour := hour t;
             minute := minute t; second := n;
             microsecond := microsecond t |}
  end.

(** Simple case folding below code point 256. *)
Definition lower (c : ascii) : ascii :=
  if in_range 65 90 c || (in_range 192 222 c && negb (code c =? 215)%N)
  then ascii_of_N (code c + 32)
  else c.

Fixpoint first_match {A B : Type} (f : A -> option B) (l : list A)
  : option B :=
  match l with
  | [] => None
  | a :: l' => match f a with Some b => Some b | None => first_match f l' end
  end.

(** Greedy [\s+] followed by [k]: the longest run first. *)
Fixpoint spaces_then {B : Type} (k : string -> option B) (s : string)
  : option B :=
  match s with
  | String c s' =>
      if is_space c then
        match spaces_then k s' with
        | Some b => Some b
        | None => k s'
        end
      else None
  | EmptyString => None
  end.

Fixpoint match_items (items : list item) (s : string) (acc : datetime)
  : option (datetime * string) :=
  match items with
  | [] => Some (acc, s)
  | Literal c :: r =>
      match s with
      | String c' s' =>
          if Ascii.eqb (lower c) (lower c') then match_items r s' acc
          else None
      | EmptyString => None
      end
  | Spaces :: r => spaces_then (fun s' => match_items r s' acc) s
  | Directive d :: r =>
      first_match
        (fun sh => match take_shape sh s with
                   | Some (tok, s') =>
                       match_items r s' (set_field d (int_of_token tok) acc)
                   | None => None
                   end)
        (shapes d)
  end.

Definition is_leap (y : Z) : bool :=
  ((y mod 4 =? 0) && negb (y mod 100 =? 0)) || (y mod 400 =? 0).

Definition days_in_month (y m : Z) : Z :=
  if m =? 2 then (if is_leap y then 29 else 28)
  else if (m =? 4) || (m =? 6) || (m =? 9) || (m =? 11) then 30
  else 31.

(** The range checks of the [datetime] constructor. *)
Definition valid (t : datetime) : bool :=
  (1 <=? year t) && (year t <=? 9999)
  && (1 <=? month t) && (month t <=? 12)
  && (1 <=? day t) && (day t <=? days_in_month (year t) (month t))
  && (0 <=? hour t) && (hour t <=? 23)
  && (0 <=? minute t) && (minute t <=? 59)
  && (0 <=? second t) && (second t <=? 59).

(** What [strptime] starts from: 1900-01-01 00:00:00. *)
Definition epoch : datetime :=
  {| year := 1900; month := 1; day := 1;
     hour := 0; minute := 0; second := 0; microsecond := 0 |}.

(** [datetime.strptime(data_string, format)]; [None] is [ValueError]. *)
Definition strptime (data_string format : string) : option datetime :=
  match compile format with
  | None => None
  | Some items =>
      match match_items items data_string epoch with
      | Some (t, EmptyString) => if valid t then Some t else None
      | _ => None
      end
  end.

Definition digit (n : Z) : ascii := ascii_of_N (48 + Z.to_N (n mod 10)).

Definition pad2 (n : Z) : string :=
  String (digit (n / 10)) (String (digit n) EmptyString).

Definition pad4 (n : Z) : string :=
  String (digit (n / 1000)) (String (digit (n / 100)) (pad2 n)).

(** [t.strftime(format)] on the same directives.  [%Y] is written with
    four digits, which is what every platform does from the year 1000 on;
    below it the C library decides on the padding. *)
Fixpoint strftime (t : datetime) (format : string) : string :=
  match format with
  | EmptyString => EmptyString
  | String c rest =>
      if Ascii.eqb c "%" then
        match rest with
        | EmptyString => String c EmptyString
        | String d rest' =>
            (if Ascii.eqb d "d" then pad2 (day t)
             else if Ascii.eqb d "m" then pad2 (month t)
             else if Ascii.eqb d "Y" then pad4 (year t)
             else if Ascii.eqb d "H" then pad2 (hour t)
             else if Ascii.eqb d "M" then pad2 (minute t)
             else if Ascii.eqb d "S" then pad2 (second t)
             else if Ascii.eqb d "%" then "%"
             else String c (String d EmptyString))
            ++ strftime t rest'
        end
      else String c (strftime t rest)
  end.

End Datetime.

(* ===================================================================== *)
(** ** EventsProject.py                                                  *)
(* ===================================================================== *)

Module Events.

Import Datetime(datetime).

Record EventValidator : Type := {
  event_name_regex : regex;
  date_format : string;
  separator : string;
  allow_past_dates : bool
}.

Inductive message : Type :=
| InvalidFormat
| EmptyEventName
| NoRegexMatch (event_name : string)
| EmptyDate
| InThePast (date_str : string)
| NotInFormat (date_str : string).

Definition errors_t : Type := list (string * list message).

Record Event : Type := {
  event_name : string;
  date : datetime
}.

Record EventsFileReader : Type := {
  event_validator : EventValidator;
  stop_loading_if_error : bool
}.

Definition is_empty (s : string) : bool :=
  match s with EmptyString => true | _ => false end.

Section Program.
(** The library functions of [datetime] the program calls, and the
    reading of the clock ([datetime.now()]), fixed for a run.
    [strptime s f = None] stands for [ValueError]. *)
Variable strptime : string -> string -> option datetime.
Variable strftime : datetime -> string -> string.
Variable now : datetime.

(** [EventValidator.validate] *)
Definition validate (v : EventValidator) (line_str : string)
  : result (bool * errors_t) :=
  parts <- split line_str (separator v) ;;
  let errors :=
    match parts with
    | [part0; part1] =>
        let event_name := strip part0 in
        let date_str := strip part1 in
        let errors1 :=
          if is_empty event_name then
            dict_set "event_name" [EmptyEventName] []
          else if negb (event_name_regex v event_name) then
            dict_set "event_name" [NoRegexMatch event_name] []
          else [] in
        if is_empty date_str then dict_set "date" [EmptyDate] errors1
        else
          match strptime date_str (date_format v) with
          | Some event_date =>
              if negb (allow_past_dates v) && Datetime.ltb event_date now
              then dict_set "date" [InThePast date_str] errors1
              else errors1
          | None => dict_set "date" [NotInFormat date_str] errors1
          end
    | _ => dict_set "format" [InvalidFormat] []
    end in
  Ok (Nat.eqb (List.length errors) 0, errors).

(** The line passes validation. *)
Definition accepted (v : EventValidator) (line : string) : Prop :=
  exists errors, validate v line = Ok (true, errors).

(** [Event.from_str]: unpacking anything but two parts, and a date that
    does not parse, raise [ValueError]. *)
Definition from_str (data date_format separator : string) : result Event :=
  parts <- split data separator ;;
  match parts with
  | [event_name; date_str] =>
      match strptime date_str date_format with
      | Some date => Ok {| event_name := event_name; date := date |}
      | None => Raise ValueError
      end
  | _ => Raise ValueError
  end.

(** The loop of [EventsFileReader.get_events] over the lines
    [read_file.read] returned; [from_str] is called with its default
    separator. *)
Fixpoint load (r : EventsFileReader) (event_data : list string)
  (events : list Event) : result (list Event) :=
  match event_data with
  | [] => Ok events
  | event :: rest =>
      '(is_valid, errors) <- validate (event_validator r) event ;;
      if is_valid then
        e <- from_str event (date_format (event_validator r)) ";" ;;
        load r rest (events ++ [e])
      else if stop_loading_if_error r then Raise ValueError
      else load r rest events
  end.

Definition get_events (r : EventsFileReader) (event_data : list string)
  : result (list Event) :=
  events <- load r event_data [] ;;
  Ok (sorted date Datetime.ltb events false).

(** [EventService.save_sorted_events]: the lines handed to
    [file_writer.write]. *)
Definition save_sorted_events (events : list Event) (date_format : string)
  : list string :=
  map (fun event =>
         event_name event ++ ";" ++ strftime (date event) date_format)
      events.

(** How often [x] occurs in [xs]. *)
Definition occurrences (x : string) (xs : list string) : Z :=
  Z.of_nat (count_occ string_dec xs x).

(** What the loop of [Counter] maintains: the strings seen are the keys,
    each bound to the number of its occurrences. *)
Definition counted (seen : list string) (counts : list (string * Z)) : Prop :=
  NoDup (keys counts)
  /\ forall x, lookup x counts
               = match count_occ string_dec seen x with
                 | O => None
                 | S _ => Some (occurrences x seen)
                 end.

(** The written date of an event reads back as the date of the event:
    it holds no semicolon and no blank at either end, [strptime] takes it
    back to the date, and the date is not rejected as past. *)
Definition reads_back (v : EventValidator) (e : Event) : Prop :=
  let written := strftime (date e) (date_format v) in
  has_char ";" written = false
  /\ strip written = written
  /\ is_empty written = false
  /\ strptime written (date_format v) = Some (date e)
  /\ (allow_past_dates v = false -> Datetime.ltb (date e) now = false).

(** [Counter(iterable)] *)
Definition Counter (xs : list string) : list (string * Z) :=
  fold_left
    (fun counts x =>
       dict_set x (match lookup x counts with Some n => n | None => 0 end + 1)
                counts)
    xs [].

(** [max(xs, default=0)] *)
Definition max_default (xs : list Z) : Z :=
  match Py.max xs with Ok m => m | Raise _ => 0 end.

(** [EventService.get_most_common_date] *)
Definition get_most_common_date (events : list Event) (date_format : string)
  : result (list string * Z) :=
  match events with
  | [] => Raise ValueError
  | _ =>
      let date_counts :=
        Counter (map (fun event => strftime (date event) date_format) events) in
      let max_count := max_default (map snd date_counts) in
      let most_common_dates :=
        map fst (filter (fun item => snd item =? max_count) date_counts) in
      Ok (most_common_dates, max_count)
  end.

End Program.

(** The pattern [main] configures,
    ASCII letters and digits, blank, [,.?!-] and the Polish letters: of
    those only
    O-acute lies below code point 256. *)
Definition main_name_char (c : ascii) : bool :=
  is_upper c || is_lower c || is_digit c
  || existsb (fun n => (code c =? n)%N) [32; 44; 46; 63; 33; 45; 211; 243]%N.

Fixpoint main_name_body (s : string) : bool :=
  match s with
  | EmptyString => true
  | String c EmptyString => main_name_char c || (code c =? 10)%N
  | String c s' => main_name_char c && main_name_body s'
  end.

Definition main_event_name_regex : regex :=
  fun s => match s with
           | String c _ => main_name_char c && main_name_body s
           | EmptyString => false
           end.

End Events.

(* ===================================================================== *)
(** ** CarsProjects.py: the other methods of the cars service            *)
(* ===================================================================== *)

Module CarsQueries.

Import CarsService(Car, model, price, color, mileage, components).

(** [get_sorted_cars]: [fn_sorted] is the key, [ltb] the [<] of its
    values. *)
Definition get_sorted_cars {K : Type} (cars : list Car)
  (fn_sorted : Car -> K) (ltb : K -> K -> bool) (descending : bool)
  : list Car :=
  sorted fn_sorted ltb cars descending.

(** [get_count_cars_by_color] *)
Definition get_count_cars_by_color (cars : list Car) (descending : bool)
  : list (string * Z) :=
  let count_cars_with_colors :=
    Events.Counter (map (fun car => Cars.name (color car)) cars) in
  sorted snd Z.ltb count_cars_with_colors descending.

(** [car.components.sort(reverse=descending)] *)
Definition sort_components (descending : bool) (car : Car) : Car :=
  {| model := model car; price := price car; color := color car;
     mileage := mileage car;
     components := sorted (fun c => c) String.ltb (components car) descending
  |}.

(** [get_sorted_collection]: the collection it leaves behind, which is
    also what it returns. *)
Definition get_sorted_collection (cars : list Car) (descending : bool)
  : list Car :=
  map (sort_components descending) cars.

(** [components_with_cars[component].append(car)] *)
Definition append_car (car : Car) (d : list (string * list Car))
  (component : string) : list (string * list Car) :=
  let '(cur, d1) := CarsService.defaultdict_get component d in
  dict_set component (cur ++ [car])%list d1.

(** [get_componets_with_car]; the key of the sort is [len(item[1])]. *)
Definition get_componets_with_car (cars : list Car) (descending : bool)
  : list (string * list Car) :=
  let components_with_cars :=
    fold_left (fun d car => fold_left (append_car car) (components car) d)
              cars [] in
  sorted (fun item => Z.of_nat (List.length (snd item))) Z.ltb
         components_with_cars descending.

(** [get_cars_price_between] *)
Definition get_cars_price_between (cars : list Car) (price_from price_to : Z)
  : result (list Car) :=
  if price_to <? price_from then Raise ValueError
  else Ok (sorted model String.ltb
             (filter (fun car => (price_from <=? price car)
                                 && (price car <=? price_to)) cars)
             false).

(** The pairs (component, car) in the order the loops of
    [get_componets_with_car] meet them, and the cars met with one
    component. *)
Definition listings (cars : list Car) : list (string * Car) :=
  flat_map (fun car => map (fun c => (c, car)) (components car)) cars.

Definition met_with (component : string) (seen : list (string * Car))
  : list Car :=
  map snd (filter (fun p => String.eqb (fst p) component) seen).

Definition listed_with (component : string) (cars : list Car) : list Car :=
  met_with component (listings cars).

(** One step of the loops, and what they maintain: a component is bound
    to the cars met with it so far, and is not bound if none was. *)
Definition listing_step (d : list (string * list Car)) (p : string * Car)
  : list (string * list Car) :=
  append_car (snd p) d (fst p).

Definition listed (seen : list (string * Car))
  (d : list (string * list Car)) : Prop :=
  NoDup (keys d)
  /\ forall component,
       lookup component d
       = match met_with component seen with
         | [] => None
         | l => Some l
         end.

(** The elements whose key is neither below nor above [k]. *)
Definition has_key {A K : Type} (key : A -> K) (ltb : K -> K -> bool)
  (k : K) (a : A) : bool :=
  negb (ltb (key a) k) && negb (ltb k (key a)).

End CarsQueries.

(* ===================================================================== *)
(** ** EventsProject.py: the text file reader and writer                 *)
(* ===================================================================== *)

Module Files.

(** A text file is the string of its characters.  It is opened with the
    default [newline=None]: on reading, "\r\n" and "\r" become "\n";
    on writing, "\n" becomes the line separator of the platform. *)
Definition LF : ascii := "010".
Definition CR : ascii := "013".

Fixpoint universal_newlines (text : string) : string :=
  match text with
  | EmptyString => EmptyString
  | String c rest =>
      if Ascii.eqb c CR then
        match rest with
        | String d rest' =>
            if Ascii.eqb d LF then String LF (universal_newlines rest')
            else String LF (universal_newlines rest)
        | EmptyString => String LF EmptyString
        end
      else String c (universal_newlines rest)
  end.

(** [f.readlines()] on the translated text: every line keeps its final
    newline; [cur] is the line being collected, reversed. *)
Fixpoint readlines_from (text : string) (cur : list ascii) : list string :=
  match text with
  | EmptyString =>
      match cur with
      | [] => []
      | _ => [string_of_list_ascii (rev cur)]
      end
  | String c rest =>
      if Ascii.eqb c LF
      then string_of_list_ascii (rev (c :: cur)) :: readlines_from rest []
      else readlines_from rest (c :: cur)
  end.

(** [TextFileReader.read], from the content of the file. *)
Definition read (content : string) : list string :=
  map strip (readlines_from (universal_newlines content) []).

(** The translation of "\n" on writing. *)
Fixpoint to_linesep (linesep text : string) : string :=
  match text with
  | EmptyString => EmptyString
  | String c rest =>
      if Ascii.eqb c LF then linesep ++ to_linesep linesep rest
      else String c (to_linesep linesep rest)
  end.

(** [TextFileWriter.write]: the content the file is left with;
    [linesep] is [os.linesep]. *)
Definition write (linesep : string) (data : list string) : string :=
  to_linesep linesep
    (String.concat EmptyString
       (map (fun line => line ++ String LF EmptyString) data)).

(** [os.linesep] is "\n" or "\r\n". *)
Definition is_linesep (linesep : string) : Prop :=
  linesep = String LF EmptyString
  \/ linesep = String CR (String LF EmptyString).

(** The line has no newline character in it. *)
Definition one_line (line : string) : Prop :=
  has_char LF line = false /\ has_char CR line = false.

End Files.

(* ===================================================================== *)
(** ** Sample inputs                                                     *)
(* ===================================================================== *)

Module Samples.

Definition audi_record : dict :=
  [("model", PStr "AUDI"); ("price", PInt 120); ("color", PStr "RED");
   ("mileage", PInt 1500); ("components", PList [PStr "ABS"; PStr "AIR BAG"])].

(** A record without its model and with a negative price. *)
Definition nameless_record : dict :=
  [("price", PInt (-5)); ("color", PStr "RED"); ("mileage", PInt 10);
   ("components", PList [])].

(** A record whose mileage is a string. *)
Definition bad_mileage_record : dict :=
  [("model", PStr "BMW"); ("price", PInt 90); ("color", PStr "BLACK");
   ("mileage", PStr "far"); ("components", PList [PStr "ABS"])].

Definition audi : Cars.Car :=
  {| Cars.model := PStr "AUDI"; Cars.price := PInt 120; Cars.color := Cars.RED;
     Cars.mileage := PInt 1500;
     Cars.components := PList [PStr "ABS"; PStr "AIR BAG"] |}.

(** A record without its mileage. *)
Definition no_mileage_record : dict :=
  [("model", PStr "BMW"); ("price", PInt 90); ("color", PStr "BLACK");
   ("components", PList [PStr "ABS"])].

Definition bmw : Cars.Car :=
  {| Cars.model := PStr "BMW"; Cars.price := PInt 90; Cars.color := Cars.BLACK;
     Cars.mileage := PInt 7; Cars.components := PList [PStr "ABS"] |}.

Definition bmw_record : dict :=
  [("model", PStr "BMW"); ("price", PInt 90); ("color", PStr "BLACK");
   ("mileage", PInt 7); ("components", PList [PStr "ABS"])].

Definition reader (stop : bool) : Cars.CarsFileReader :=
  {| Cars.car_validator := Cars.default_validator;
     Cars.stop_loading_if_error := stop |}.

Definition skip_reader : Cars.CarsFileReader :=
  {| Cars.car_validator := Cars.default_validator;
     Cars.stop_loading_if_error := false |}.

Definition car (m : string) (p x : Z) : CarsService.Car :=
  {| CarsService.model := m; CarsService.price := p;
     CarsService.color := Cars.WHITE; CarsService.mileage := x;
     CarsService.components := [] |}.

(** Model "X" at prices 100, 100 and 50. *)
Definition three_x : list CarsService.Car :=
  [car "X" 100 1; car "X" 100 2; car "X" 50 3].

(** A car whose price is beyond the range of a float. *)
Definition priceless : list CarsService.Car := [car "X" (2 ^ 1024) 1].

Definition fleet : list CarsService.Car :=
  [car "X" 100 7000; car "Y" 80 5000; car "X" 100 300; car "X" 50 9000].

(** The clock reading of the examples: 3 November 2026, noon. *)
Definition noon : Datetime.datetime :=
  {| Datetime.year := 2026; Datetime.month := 11; Datetime.day := 3;
     Datetime.hour := 12; Datetime.minute := 0; Datetime.second := 0;
     Datetime.microsecond := 0 |}.

Definition on_day (d m y : Z) : Datetime.datetime :=
  {| Datetime.year := y; Datetime.month := m; Datetime.day := d;
     Datetime.hour := 0; Datetime.minute := 0; Datetime.second := 0;
     Datetime.microsecond := 0 |}.

Definition event (n : string) (d m y : Z) : Events.Event :=
  {| Events.event_name := n; Events.date := on_day d m y |}.

(** The validator and the loader [main] builds. *)
Definition main_validator : Events.EventValidator :=
  {| Events.event_name_regex := Events.main_event_name_regex;
     Events.date_format := "%d-%m-%Y";
     Events.separator := ";";
     Events.allow_past_dates := false |}.

Definition main_loader : Events.EventsFileReader :=
  {| Events.event_validator := main_validator;
     Events.stop_loading_if_error := true |}.

(** The same, for files that separate the fields by a semicolon and a
    blank. *)
Definition spaced_validator : Events.EventValidator :=
  {| Events.event_name_regex := Events.main_event_name_regex;
     Events.date_format := "%d-%m-%Y";
     Events.separator := "; ";
     Events.allow_past_dates := false |}.

Definition spaced_loader (stop : bool) : Events.EventsFileReader :=
  {| Events.event_validator := spaced_validator;
     Events.stop_loading_if_error := stop |}.

Definition two_events : list Events.Event :=
  [event "A" 1 1 2030; event "B" 2 1 2030].

(** A file of two lines, the first ended by "\r\n", the second by
    nothing. *)
Definition events_file : string :=
  "B;02-01-2030" ++ String Files.CR (String Files.LF " A; 1-01-2030 ").

End Samples.

(* ===================================================================== *)
(** ** Facts about the runtime                                           *)
(* ===================================================================== *)

Example split_two : split "A;01-01-2030" ";" = Ok ["A"; "01-01-2030"].
Proof. reflexivity. Qed.

Example split_wide_sep : split "a--b-c---d" "--" = Ok ["a"; "b-c"; "-d"].
Proof. reflexivity. Qed.

Example strip_both : strip "  A b " = "A b".
Proof. reflexivity. Qed.

Lemma dict_set_not_nil {V : Type} (k : string) (v : V) d :
  dict_set k v d <> [].
Proof.
  destruct d as [|[k' v'] d]; simpl; [discriminate|].
  destruct (String.eqb k k'); discriminate.
Qed.

Lemma length_zero_nil {A : Type} (l : list A) :
  Nat.eqb (List.length l) 0 = true -> l = [].
Proof. destruct l; simpl; [reflexivity | discriminate]. Qed.

Lemma bind_Ok {A B : Type} (m : result A) (k : A -> result B) b :
  bind m k = Ok b -> exists a, m = Ok a /\ k a = Ok b.
Proof. destruct m; simpl; [eauto | discriminate]. Qed.

Lemma getitem_Ok d k v : getitem d k = Ok v -> lookup k d = Some v.
Proof. unfold getitem; destruct (lookup k d); congruence. Qed.

(** *** Insertion-ordered dicts *)

Lemma lookup_dict_set {V : Type} m k (v : V) d :
  lookup m (dict_set k v d) = if String.eqb m k then Some v else lookup m d.
Proof.
  induction d as [|[k' v'] d IH]; simpl.
  - destruct (String.eqb m k); reflexivity.
  - destruct (String.eqb k k') eqn:E; simpl.
    + apply String.eqb_eq in E. subst k'.
      destruct (String.eqb m k); reflexivity.
    + rewrite IH. destruct (String.eqb m k') eqn:E'; [|reflexivity].
      apply String.eqb_eq in E'. subst k'.
      rewrite String.eqb_sym, E. reflexivity.
Qed.

Lemma keys_dict_set {V : Type} k (v : V) d :
  keys (dict_set k v d)
  = match lookup k d with Some _ => keys d | None => keys d ++ [k] end%list.
Proof.
  unfold keys. induction d as [|[k' v'] d IH]; simpl; [reflexivity|].
  destruct (String.eqb k k') eqn:E; simpl.
  - apply String.eqb_eq in E. subst k'. reflexivity.
  - rewrite IH. destruct (lookup k d); reflexivity.
Qed.

Lemma lookup_None_keys {V : Type} k (d : list (string * V)) :
  lookup k d = None <-> ~ In k (keys d).
Proof.
  unfold keys. induction d as [|[k' v'] d IH]; simpl; [tauto|].
  destruct (String.eqb k k') eqn:E.
  - apply String.eqb_eq in E. subst k'. split; [discriminate | tauto].
  - apply String.eqb_neq in E. rewrite IH. split; [|tauto].
    intros H [H'|H']; [congruence | tauto].
Qed.

Lemma lookup_In {V : Type} k (v : V) d :
  NoDup (keys d) -> In (k, v) d -> lookup k d = Some v.
Proof.
  unfold keys. induction d as [|[k' v'] d IH]; simpl; [tauto|].
  intros N [H|H]; inversion N as [|? ? Hk Hd]; subst.
  - injection H as -> ->. rewrite String.eqb_refl. reflexivity.
  - destruct (String.eqb k k') eqn:E; [|auto].
    apply String.eqb_eq in E. subst k'. exfalso. apply Hk.
    apply (in_map fst) in H. exact H.
Qed.

Lemma filter_none {A : Type} (f : A -> bool) l :
  (forall x, In x l -> f x = false) -> filter f l = [].
Proof.
  induction l as [|x l IH]; simpl; intros H; [reflexivity|].
  rewrite (H x) by auto. apply IH. auto.
Qed.

(** *** Splitting on a semicolon *)

Lemma string_of_chars s : string_of_list_ascii (chars s) = s.
Proof. apply string_of_list_ascii_of_string. Qed.

Lemma chars_append a b : chars (a ++ b) = (chars a ++ chars b)%list.
Proof.
  unfold chars. induction a as [|c a IH]; simpl; [reflexivity|].
  rewrite IH. reflexivity.
Qed.

Lemma split_from_semicolon c s cur :
  split_from ";" (String c s) 0 cur
  = if Ascii.eqb c ";"
    then string_of_list_ascii (rev cur) :: split_from ";" s 0 []
    else split_from ";" s 0 (c :: cur).
Proof.
  cbn [split_from String.prefix String.length Nat.sub].
  destruct (ascii_dec ";" c) as [<-|N].
  - destruct s; reflexivity.
  - apply not_eq_sym in N. apply Ascii.eqb_neq in N. rewrite N. reflexivity.
Qed.

Lemma has_char_cons c d s :
  has_char c (String d s) = Ascii.eqb c d || has_char c s.
Proof. reflexivity. Qed.

Lemma split_from_join a : forall cur b,
  has_char ";" a = false ->
  split_from ";" (a ++ String ";" b) 0 cur
  = string_of_list_ascii (rev cur ++ chars a) :: split_from ";" b 0 [].
Proof.
  induction a as [|c a IH]; intros cur b H.
  - change (EmptyString ++ String ";" b) with (String ";" b).
    rewrite split_from_semicolon. simpl. rewrite app_nil_r. reflexivity.
  - rewrite has_char_cons in H. apply orb_false_iff in H.
    destruct H as [Hc Ha].
    change (String c a ++ String ";" b) with (String c (a ++ String ";" b)).
    rewrite split_from_semicolon, Ascii.eqb_sym, Hc, IH by exact Ha.
    simpl. rewrite <- app_assoc. reflexivity.
Qed.

Lemma split_from_plain s : forall cur,
  has_char ";" s = false ->
  split_from ";" s 0 cur = [string_of_list_ascii (rev cur ++ chars s)].
Proof.
  induction s as [|c s IH]; intros cur H.
  - simpl. rewrite app_nil_r. reflexivity.
  - rewrite has_char_cons in H. apply orb_false_iff in H.
    destruct H as [Hc Hs].
    rewrite split_from_semicolon, Ascii.eqb_sym, Hc, IH by exact Hs.
    simpl. rewrite <- app_assoc. reflexivity.
Qed.

(** The line "a;b", where neither part holds a semicolon, splits into
    [a] and [b]. *)
Lemma split_join a b :
  has_char ";" a = false -> has_char ";" b = false ->
  split (a ++ String ";" b) ";" = Ok [a; b].
Proof.
  intros Ha Hb. unfold split.
  rewrite split_from_join, split_from_plain by assumption.
  simpl. rewrite !string_of_chars. reflexivity.
Qed.

Lemma split_from_head s : forall cur x rest,
  split_from ";" s 0 cur = x :: rest ->
  exists a, x = string_of_list_ascii (rev cur ++ chars a)
            /\ has_char ";" a = false.
Proof.
  induction s as [|c s IH]; intros cur x rest H.
  - simpl in H. injection H as <- _. exists EmptyString.
    rewrite app_nil_r. auto.
  - rewrite split_from_semicolon in H. destruct (Ascii.eqb c ";") eqn:E.
    + injection H as <- _. exists EmptyString. rewrite app_nil_r. auto.
    + apply IH in H. destruct H as (a & -> & Ha). exists (String c a).
      rewrite has_char_cons, Ascii.eqb_sym, E, Ha. simpl.
      rewrite <- app_assoc. auto.
Qed.

(** The first part of a split on ";" holds no semicolon. *)
Lemma split_head_plain line x rest :
  split line ";" = Ok (x :: rest) -> has_char ";" x = false.
Proof.
  unfold split. intros H. injection H as H.
  apply split_from_head in H. destruct H as (a & -> & Ha).
  simpl. rewrite string_of_chars. exact Ha.
Qed.

(** *** Builtins *)

Lemma fold_max_spec xs : forall x,
  is_max (fold_left Z.max xs x) (x :: xs).
Proof.
  induction xs as [|y xs IH]; intros x; simpl.
  - split; [left; reflexivity | constructor; [lia | constructor]].
  - destruct (IH (Z.max x y)) as [Hin Hall].
    inversion Hall as [|? ? Hxy Hrest]; subst. split.
    + destruct Hin as [Hin|Hin]; [|right; right; exact Hin].
      destruct (Z.max_spec x y) as [[_ E]|[_ E]]; rewrite E in Hin |- *;
        [right; left; exact Hin | left; exact Hin].
    + constructor; [lia|]. constructor; [lia | exact Hrest].
Qed.

Lemma fold_min_spec xs : forall x,
  is_min (fold_left Z.min xs x) (x :: xs).
Proof.
  induction xs as [|y xs IH]; intros x; simpl.
  - split; [left; reflexivity | constructor; [lia | constructor]].
  - destruct (IH (Z.min x y)) as [Hin Hall].
    inversion Hall as [|? ? Hxy Hrest]; subst. split.
    + destruct Hin as [Hin|Hin]; [|right; right; exact Hin].
      destruct (Z.min_spec x y) as [[_ E]|[_ E]]; rewrite E in Hin |- *;
        [left; exact Hin | right; left; exact Hin].
    + constructor; [lia|]. constructor; [lia | exact Hrest].
Qed.

Lemma max_Ok xs : xs <> [] -> exists m, Py.max xs = Ok m /\ is_max m xs.
Proof.
  destruct xs as [|x xs]; [congruence|]. intros _.
  eexists. split; [reflexivity | apply fold_max_spec].
Qed.

Lemma min_Ok xs : xs <> [] -> exists m, Py.min xs = Ok m /\ is_min m xs.
Proof.
  destruct xs as [|x xs]; [congruence|]. intros _.
  eexists. split; [reflexivity | apply fold_min_spec].
Qed.

Lemma sum_total xs : Py.sum xs = total xs.
Proof.
  unfold Py.sum. assert (G : forall a, fold_left Z.add xs a = a + total xs).
  { induction xs as [|x xs IH]; intros a; simpl; [lia|]. rewrite IH. lia. }
  rewrite G. lia.
Qed.

(** *** Division of integers *)

(** [round_half_even n d] is within half of [n / d], and even when it is
    half away. *)
Section Rounding.
Variables n d : Z.
Hypothesis Hd : 0 < d.

Lemma round_half_even_near :
  2 * Z.abs (round_half_even n d * d - n) <= d
  /\ (2 * Z.abs (round_half_even n d * d - n) = d ->
      Z.even (round_half_even n d) = true).
Proof.
  unfold round_half_even.
  pose proof (Z.div_mod n d ltac:(lia)) as E.
  pose proof (Z.mod_pos_bound n d Hd) as B.
  set (q := n / d) in *. set (r := n mod d) in *.
  destruct (Z.compare_spec (2 * r) d) as [C|C|C].
  - destruct (Z.even q) eqn:Ev.
    + split; [nia | intros _; exact Ev].
    + split; [nia|]. intros _. rewrite Z.add_1_r, Z.even_succ.
      rewrite <- Z.negb_even, Ev. reflexivity.
  - split; nia.
  - split; nia.
Qed.

Lemma round_half_even_nearest k :
  Z.abs (round_half_even n d * d - n) <= Z.abs (k * d - n).
Proof.
  destruct round_half_even_near as [H _].
  destruct (Z.eq_dec k (round_half_even n d)) as [->|N]; [lia|]. nia.
Qed.

Lemma round_half_even_le K : n <= K * d -> round_half_even n d <= K.
Proof. destruct round_half_even_near as [H _]. nia. Qed.

Lemma round_half_even_ge K : K * d <= n -> K <= round_half_even n d.
Proof. destruct round_half_even_near as [H _]. nia. Qed.

Lemma round_half_even_lt K :
  2 * n < (2 * K - 1) * d -> round_half_even n d < K.
Proof. destruct round_half_even_near as [H _]. nia. Qed.

Lemma round_half_even_ge_tie K :
  (2 * K - 1) * d <= 2 * n -> Z.even K = true -> K <= round_half_even n d.
Proof.
  destruct round_half_even_near as [H T]. intros HK Ev.
  destruct (Z_lt_le_dec (round_half_even n d) K) as [L|L]; [|exact L].
  exfalso.
  assert (E : round_half_even n d = K - 1) by nia.
  assert (Ev' : Z.even (K - 1) = true) by (rewrite <- E; apply T; nia).
  rewrite <- Z.negb_odd in Ev.
  replace K with (Z.succ (K - 1)) in Ev by lia.
  rewrite Z.odd_succ, Ev' in Ev. discriminate.
Qed.

End Rounding.

(** The rounding of [n / d] to a double. *)
Section Nearest.
Variables n d : Z.
Hypothesis Hn : 0 <= n.
Hypothesis Hd : 0 < d.

Let N := n * 2 ^ 1074.
Let s := Z.max 0 (Z.log2 (N / d) - 52).
Let r := round_half_even N (d * 2 ^ s).

Lemma nearest_units_eq : nearest_units n d = r * 2 ^ s.
Proof. reflexivity. Qed.

Lemma scaled_nonneg : 0 <= N.
Proof.
  unfold N. apply Z.mul_nonneg_nonneg; [exact Hn|]. apply Z.pow_nonneg. lia.
Qed.

Lemma shift_nonneg : 0 <= s.
Proof. unfold s. lia. Qed.

Lemma step_pos : 0 < d * 2 ^ s.
Proof.
  apply Z.mul_pos_pos; [exact Hd|].
  apply Z.pow_pos_nonneg; [lia | apply shift_nonneg].
Qed.

Lemma div_bounds : (N / d) * d <= N < (N / d + 1) * d.
Proof.
  pose proof (Z.div_mod N d ltac:(lia)).
  pose proof (Z.mod_pos_bound N d Hd). nia.
Qed.

Lemma scaled_upper : N < 2 ^ 53 * (d * 2 ^ s).
Proof.
  pose proof scaled_nonneg as HN. pose proof div_bounds as B.
  pose proof (Z.div_pos N d HN Hd) as Q0.
  assert (Q : N / d < 2 ^ (53 + s)).
  { destruct (Z.eq_dec (N / d) 0) as [->|Z0].
    - apply Z.pow_pos_nonneg; unfold s; lia.
    - destruct (Z.log2_spec (N / d) ltac:(lia)) as [_ U].
      eapply Z.lt_le_trans; [exact U|].
      apply Z.pow_le_mono_r; unfold s; lia. }
  rewrite Z.pow_add_r in Q by (unfold s; lia).
  pose proof step_pos. nia.
Qed.

Lemma scaled_lower : 0 < s -> 2 ^ 52 * (d * 2 ^ s) <= N.
Proof.
  intros Hs. pose proof div_bounds as B.
  assert (L : Z.log2 (N / d) = 52 + s) by (unfold s in *; lia).
  assert (Q0 : 0 < N / d).
  { destruct (Z_lt_le_dec 0 (N / d)) as [H|H]; [exact H|].
    rewrite (Z.log2_nonpos _ H) in L. lia. }
  destruct (Z.log2_spec (N / d) Q0) as [Lo _].
  rewrite L, Z.pow_add_r in Lo by lia. nia.
Qed.

Lemma mantissa_bounds : 0 <= r <= 2 ^ 53 /\ (0 < s -> 2 ^ 52 <= r).
Proof.
  pose proof scaled_nonneg as HN. pose proof step_pos as HG.
  split; [split|].
  - apply (round_half_even_ge N _ HG 0). lia.
  - apply (round_half_even_le N _ HG). pose proof scaled_upper. lia.
  - intros Hs. apply (round_half_even_ge N _ HG).
    apply scaled_lower. exact Hs.
Qed.

(** No double is nearer to the quotient. *)
Lemma nearest_units_nearest Y m k :
  0 <= m < 2 ^ 53 -> 0 <= k -> Z.abs Y = m * 2 ^ k ->
  Z.abs (nearest_units n d * d - N) <= Z.abs (Y * d - N).
Proof.
  intros Hm Hk HY. rewrite nearest_units_eq.
  pose proof scaled_nonneg as HN. pose proof step_pos as HG.
  pose proof shift_nonneg as Hs.
  destruct (Z_le_gt_dec s k) as [C|C].
  - assert (E : exists c, Y = c * 2 ^ s).
    { assert (E2 : 2 ^ k = 2 ^ (k - s) * 2 ^ s)
        by (rewrite <- Z.pow_add_r by lia; f_equal; lia).
      destruct (Z.abs_eq_or_opp Y) as [A|A]; rewrite A in HY.
      - exists (m * 2 ^ (k - s)). rewrite HY, E2. ring.
      - exists (- (m * 2 ^ (k - s))).
        apply Z.opp_inj. rewrite HY, E2. ring. }
    destruct E as [c ->].
    replace (r * 2 ^ s * d - N) with (r * (d * 2 ^ s) - N) by ring.
    replace (c * 2 ^ s * d - N) with (c * (d * 2 ^ s) - N) by ring.
    apply round_half_even_nearest. exact HG.
  - assert (Hs0 : 0 < s) by lia.
    pose proof (scaled_lower Hs0) as Lo.
    assert (E2 : 2 ^ s = 2 * 2 ^ (s - 1)).
    { replace s with (1 + (s - 1)) at 1 by lia.
      rewrite Z.pow_add_r by lia. reflexivity. }
    assert (K : 2 ^ k <= 2 ^ (s - 1)) by (apply Z.pow_le_mono_r; lia).
    assert (K0 : 0 < 2 ^ k) by (apply Z.pow_pos_nonneg; lia).
    assert (P52 : 2 ^ 53 = 2 * 2 ^ 52) by reflexivity.
    assert (P52' : 0 < 2 ^ 52) by reflexivity.
    assert (Yb : Y < 2 ^ 52 * 2 ^ s) by nia.
    pose proof (round_half_even_nearest N _ HG (2 ^ 52)) as Near.
    replace (r * 2 ^ s * d - N) with (r * (d * 2 ^ s) - N) by ring.
    fold r in Near. nia.
Qed.

Lemma pow2_double k : 0 <= k -> 2 ^ (k + 1) = 2 * 2 ^ k.
Proof. intros H. rewrite Z.add_1_r. apply Z.pow_succ_r. exact H. Qed.

Lemma pow2_lt a b : 0 <= a -> 0 <= b -> 2 ^ a < 2 ^ b -> a < b.
Proof. intros Ha Hb H. apply (Z.pow_lt_mono_r_iff 2); lia. Qed.

(** Short of the overflow, the result is a double. *)
Lemma nearest_units_double :
  nearest_units n d < 2 ^ 2098 ->
  exists m k, 0 <= m < 2 ^ 53 /\ 0 <= k <= 2045
              /\ nearest_units n d = m * 2 ^ k.
Proof.
  rewrite nearest_units_eq. intros H.
  destruct mantissa_bounds as [[R0 R1] R2]. pose proof shift_nonneg as Hs.
  assert (G0 : 0 < 2 ^ s) by (apply Z.pow_pos_nonneg; lia).
  destruct (Z.eq_dec r (2 ^ 53)) as [E|E].
  - exists (2 ^ 52), (s + 1). rewrite E in *.
    rewrite <- Z.pow_add_r in H by lia. apply pow2_lt in H; [|lia|lia].
    split; [split; [apply Z.pow_nonneg; lia | reflexivity]|].
    split; [lia|]. rewrite Z.pow_add_r by lia.
    change (2 ^ 53) with (2 ^ 52 * 2 ^ 1). ring.
  - exists r, s. split; [lia|]. split; [|reflexivity].
    split; [exact Hs|]. destruct (Z.eq_dec s 0) as [->|S0]; [lia|].
    specialize (R2 ltac:(lia)).
    assert (H' : 2 ^ (52 + s) < 2 ^ 2098).
    { rewrite Z.pow_add_r by lia. nia. }
    apply pow2_lt in H'; lia.
Qed.

(** The result leaves the range of the doubles exactly when the quotient
    is 2^1024 - 2^970 or more. *)
Lemma nearest_units_overflow :
  2 ^ 2098 <= nearest_units n d <-> (2 ^ 1024 - 2 ^ 970) * d <= n.
Proof.
  rewrite nearest_units_eq.
  destruct mantissa_bounds as [[R0 R1] R2]. pose proof shift_nonneg as Hs.
  pose proof step_pos as HG. pose proof div_bounds as B.
  pose proof scaled_nonneg as HN.
  assert (G0 : 0 < 2 ^ s) by (apply Z.pow_pos_nonneg; lia).
  assert (T : (2 ^ 1024 - 2 ^ 970) * d <= n
              <-> (2 ^ 2098 - 2 ^ 2044) * d <= N).
  { unfold N.
    replace (2 ^ 2098 - 2 ^ 2044) with ((2 ^ 1024 - 2 ^ 970) * 2 ^ 1074).
    - assert (0 < 2 ^ 1074) by (apply Z.pow_pos_nonneg; lia). nia.
    - rewrite Z.mul_sub_distr_r, <- !Z.pow_add_r by lia. reflexivity. }
  rewrite T. clear T.
  assert (E98 : 2 ^ 2098 = 2 ^ 53 * 2 ^ 2045)
    by (rewrite <- Z.pow_add_r by lia; reflexivity).
  assert (E44 : 2 ^ 2045 = 2 * 2 ^ 2044)
    by exact (pow2_double 2044 ltac:(lia)).
  assert (P44 : 0 < 2 ^ 2044) by (apply Z.pow_pos_nonneg; lia).
  assert (P53 : 2 ^ 53 = 2 * 2 ^ 52) by reflexivity.
  assert (P52 : 0 < 2 ^ 52) by reflexivity.
  split.
  - intros H.
    destruct (Z_lt_le_dec N ((2 ^ 2098 - 2 ^ 2044) * d)) as [C|C];
      [exfalso | exact C].
    assert (Q : N / d < 2 ^ 2098) by nia.
    assert (L : Z.log2 (N / d) < 2098).
    { destruct (Z_lt_le_dec 0 (N / d)) as [P|P].
      - apply Z.log2_lt_pow2; assumption.
      - rewrite Z.log2_nonpos by exact P. lia. }
    assert (S45 : s <= 2045) by (unfold s; lia).
    destruct (Z.eq_dec s 2045) as [S|S].
    + assert (ES : 2 ^ s = 2 ^ 2045) by (f_equal; exact S).
      assert (r < 2 ^ 53); [|nia].
      apply (round_half_even_lt N _ HG). nia.
    + assert (2 ^ s <= 2 ^ 2044) by (apply Z.pow_le_mono_r; lia). nia.
  - intros C.
    assert (Q : 2 ^ 2097 <= N / d).
    { apply Z.div_le_lower_bound; [exact Hd|].
      assert (2 ^ 2098 = 2 * 2 ^ 2097)
        by exact (pow2_double 2097 ltac:(lia)).
      assert (2 ^ 2097 = 2 ^ 53 * 2 ^ 2044)
        by (rewrite <- Z.pow_add_r by lia; reflexivity).
      nia. }
    assert (L : 2097 <= Z.log2 (N / d)).
    { rewrite <- (Z.log2_pow2 2097) by lia. apply Z.log2_le_mono. exact Q. }
    assert (S45 : 2045 <= s) by (unfold s; lia).
    specialize (R2 ltac:(lia)).
    destruct (Z.eq_dec s 2045) as [S|S].
    + assert (ES : 2 ^ s = 2 ^ 2045) by (f_equal; exact S).
      assert (2 ^ 53 <= r); [|nia].
      apply (round_half_even_ge_tie N _ HG); [nia | reflexivity].
    + assert (2 ^ 2046 <= 2 ^ s) by (apply Z.pow_le_mono_r; lia).
      assert (2 ^ 2046 = 2 * 2 ^ 2045)
        by exact (pow2_double 2045 ltac:(lia)).
      nia.
Qed.

End Nearest.

(** The distance of [X / P] from [a / b], on the common denominator. *)
Lemma distance_units (P : positive) (X a b : Z) :
  0 < b ->
  (Qabs ((X # P) - inject_Z a / inject_Z b)
   == Z.abs (X * b - a * Zpos P) # (P * Z.to_pos b))%Q.
Proof.
  intros Hb. destruct b as [|p|p]; try lia.
  rewrite <- (Qmake_Qdiv a p).
  unfold Qminus, Qplus, Qopp, Qabs, Qeq. cbn [Qnum Qden Z.to_pos].
  rewrite Pos2Z.inj_mul. f_equal. f_equal. ring.
Qed.

Lemma nearer_units (P : positive) (X Y a b : Z) :
  0 < b ->
  Z.abs (X * b - a * Zpos P) <= Z.abs (Y * b - a * Zpos P) ->
  (Qabs ((X # P) - inject_Z a / inject_Z b)
   <= Qabs ((Y # P) - inject_Z a / inject_Z b))%Q.
Proof.
  intros Hb H. rewrite !distance_units by exact Hb.
  unfold Qle. cbn [Qnum Qden]. apply Z.mul_le_mono_nonneg_r; [lia | exact H].
Qed.

(** *** Sorting *)

Lemma StronglySorted_app {A : Type} (R : A -> A -> Prop) l1 l2 :
  StronglySorted R l1 -> StronglySorted R l2 ->
  (forall a b, In a l1 -> In b l2 -> R a b) ->
  StronglySorted R (l1 ++ l2).
Proof.
  induction l1 as [|x l1 IH]; simpl; intros H1 H2 H12; [exact H2|].
  inversion H1 as [|? ? Hl Hx]; subst. constructor.
  - apply IH; auto.
  - apply Forall_app. split; [exact Hx|].
    apply Forall_forall. intros b Hb. apply H12; auto.
Qed.

Lemma StronglySorted_rev {A : Type} (R : A -> A -> Prop) l :
  StronglySorted R l -> StronglySorted (fun a b => R b a) (rev l).
Proof.
  induction 1 as [|x l Hl IH Hx]; simpl; [constructor|].
  apply StronglySorted_app; [exact IH | repeat constructor |].
  intros a b Ha [<-|[]]. apply in_rev in Ha.
  rewrite Forall_forall in Hx. apply Hx. exact Ha.
Qed.

Section SortFacts.
Context {A K : Type} (key : A -> K) (ltb : K -> K -> bool).
Hypothesis order : strict_total ltb.

Lemma ltb_asym a b : ltb a b = true -> ltb b a = false.
Proof.
  intros H. destruct (ltb b a) eqn:E; [|reflexivity].
  rewrite <- (st_irrefl ltb order a). symmetry.
  eapply st_trans; eassumption.
Qed.

(** [b <= a] and [c <= b] give [c <= a]. *)
Lemma geb_trans a b c : ltb a b = false -> ltb b c = false -> ltb a c = false.
Proof.
  intros Hab Hbc. destruct (ltb a c) eqn:Hac; [|reflexivity].
  destruct (ltb c b) eqn:Hcb.
  - rewrite (st_trans ltb order a c b Hac Hcb) in Hab. discriminate.
  - assert (b = c) by (apply (st_total ltb order); assumption). subst c.
    congruence.
Qed.

Lemma insert_perm x l : Permutation (insert key ltb x l) (x :: l).
Proof.
  induction l as [|y l IH]; simpl; [reflexivity|].
  destruct (ltb (key y) (key x)); [|reflexivity].
  rewrite IH. apply perm_swap.
Qed.

Lemma sort_asc_perm l : Permutation (sort_asc key ltb l) l.
Proof.
  induction l as [|x l IH]; simpl; [reflexivity|].
  rewrite insert_perm. constructor. exact IH.
Qed.

Lemma sorted_perm l reverse : Permutation (sorted key ltb l reverse) l.
Proof.
  unfold sorted. destruct reverse; [|apply sort_asc_perm].
  rewrite <- Permutation_rev, sort_asc_perm. symmetry. apply Permutation_rev.
Qed.

Lemma insert_ascending x l :
  ascending key ltb l -> ascending key ltb (insert key ltb x l).
Proof.
  unfold ascending. induction l as [|y l IH]; simpl; intros H.
  - constructor; constructor.
  - inversion H as [|? ? Hl Hy]; subst.
    destruct (ltb (key y) (key x)) eqn:E.
    + constructor; [apply IH; exact Hl|].
      eapply Permutation_Forall; [symmetry; apply insert_perm|].
      constructor; [apply ltb_asym; exact E | exact Hy].
    + constructor; [exact H|]. constructor; [exact E|].
      eapply Forall_impl; [|exact Hy]. simpl. intros z Hz.
      eapply geb_trans; eassumption.
Qed.

Lemma sort_asc_ascending l : ascending key ltb (sort_asc key ltb l).
Proof.
  induction l as [|x l IH]; simpl; [constructor|].
  apply insert_ascending. exact IH.
Qed.

Lemma rev_ascending l : ascending key ltb l -> descending key ltb (rev l).
Proof.
  unfold ascending, descending. intros H.
  apply (StronglySorted_rev (fun a b => ltb (key b) (key a) = false)).
  exact H.
Qed.

Lemma sorted_ordered l (reverse : bool) :
  if reverse then descending key ltb (sorted key ltb l true)
  else ascending key ltb (sorted key ltb l false).
Proof.
  destruct reverse; unfold sorted.
  - apply rev_ascending, sort_asc_ascending.
  - apply sort_asc_ascending.
Qed.

(** With distinct keys the order is strict. *)
Lemma ascending_strict l :
  ascending key ltb l -> NoDup (map key l) ->
  StronglySorted (fun a b => ltb (key a) (key b) = true) l.
Proof.
  unfold ascending. induction 1 as [|x l Hl IH Hx]; simpl; intros N.
  - constructor.
  - inversion N as [|? ? Hnot Hnd]; subst. constructor; [auto|].
    rewrite Forall_forall in *. intros b Hb.
    destruct (ltb (key x) (key b)) eqn:E; [reflexivity|].
    exfalso. apply Hnot.
    rewrite (st_total ltb order (key x) (key b) E (Hx b Hb)).
    apply in_map. exact Hb.
Qed.

Lemma descending_strict l :
  descending key ltb l -> NoDup (map key l) ->
  StronglySorted (fun a b => ltb (key b) (key a) = true) l.
Proof.
  unfold descending. induction 1 as [|x l Hl IH Hx]; simpl; intros N.
  - constructor.
  - inversion N as [|? ? Hnot Hnd]; subst. constructor; [auto|].
    rewrite Forall_forall in *. intros b Hb.
    destruct (ltb (key b) (key x)) eqn:E; [reflexivity|].
    exfalso. apply Hnot.
    rewrite (st_total ltb order (key x) (key b) (Hx b Hb) E).
    apply in_map. exact Hb.
Qed.

(** Stability: elements that the order does not separate keep their
    relative order. *)
Lemma insert_filter (p : A -> bool) x l :
  (forall a b, p a = true -> p b = true -> ltb (key a) (key b) = false) ->
  filter p (insert key ltb x l) = filter p (x :: l).
Proof.
  intros Hp. induction l as [|y l IH]; [reflexivity|].
  cbn [insert]. destruct (ltb (key y) (key x)) eqn:E; [|reflexivity].
  cbn [filter] in *. rewrite IH.
  destruct (p y) eqn:Py; [|reflexivity].
  destruct (p x) eqn:Px; [|reflexivity].
  rewrite (Hp y x Py Px) in E. discriminate.
Qed.

Lemma sort_asc_stable (p : A -> bool) l :
  (forall a b, p a = true -> p b = true -> ltb (key a) (key b) = false) ->
  filter p (sort_asc key ltb l) = filter p l.
Proof.
  intros Hp. induction l as [|x l IH]; [reflexivity|].
  cbn [sort_asc fold_right]. rewrite insert_filter by exact Hp.
  cbn [filter]. fold (sort_asc key ltb l). rewrite IH. reflexivity.
Qed.

(** A list already in ascending order is left as it is. *)
Lemma insert_head x l :
  Forall (fun y => ltb (key y) (key x) = false) l ->
  insert key ltb x l = x :: l.
Proof.
  destruct l as [|y l]; [reflexivity|]. intros H.
  inversion H as [|? ? Hy _]; subst. simpl. rewrite Hy. reflexivity.
Qed.

Lemma sort_asc_fixed l : ascending key ltb l -> sort_asc key ltb l = l.
Proof.
  unfold ascending. induction 1 as [|x l Hl IH Hx]; [reflexivity|].
  cbn [sort_asc fold_right]. fold (sort_asc key ltb l). rewrite IH.
  apply insert_head. exact Hx.
Qed.

End SortFacts.

(** *** The order of strings *)

Lemma string_compare_refl s : String.compare s s = Eq.
Proof.
  induction s as [|c s IH]; simpl; [reflexivity|].
  unfold Ascii.compare. rewrite N.compare_refl. exact IH.
Qed.

Lemma string_compare_lt_trans a : forall b c,
  String.compare a b = Lt -> String.compare b c = Lt ->
  String.compare a c = Lt.
Proof.
  induction a as [|x a IH]; intros [|y b] [|z c]; simpl;
    try discriminate; try reflexivity.
  unfold Ascii.compare.
  destruct (N.compare_spec (N_of_ascii x) (N_of_ascii y)) as [Exy|Lxy|Gxy];
    try discriminate;
    destruct (N.compare_spec (N_of_ascii y) (N_of_ascii z)) as [Eyz|Lyz|Gyz];
    try discriminate; intros Hab Hbc.
  - rewrite Exy, Eyz, N.compare_refl. eapply IH; eassumption.
  - rewrite Exy. apply N.compare_lt_iff in Lyz. rewrite Lyz. reflexivity.
  - rewrite <- Eyz. apply N.compare_lt_iff in Lxy. rewrite Lxy. reflexivity.
  - assert (L : (N_of_ascii x < N_of_ascii z)%N) by lia.
    apply N.compare_lt_iff in L. rewrite L. reflexivity.
Qed.

Lemma string_ltb_order : strict_total String.ltb.
Proof.
  constructor; unfold String.ltb.
  - intros a. rewrite string_compare_refl. reflexivity.
  - intros a b c Hab Hbc.
    destruct (String.compare a b) eqn:Eab; try discriminate.
    destruct (String.compare b c) eqn:Ebc; try discriminate.
    rewrite (string_compare_lt_trans a b c Eab Ebc). reflexivity.
  - intros a b Hab Hba. apply String.compare_eq_iff.
    rewrite String.compare_antisym in Hab |- *.
    destruct (String.compare b a); simpl in *; congruence.
Qed.

(* ===================================================================== *)
(** ** Cars: validation and loading                                      *)
(* ===================================================================== *)

Section CarsLoading.
Import Cars.

(** Peel one [x <- m ;; k] whose result is known to be a return. *)
Ltac bind_inv H :=
  let a := fresh "a" in
  let Ha := fresh "Ha" in
  apply bind_Ok in H; destruct H as (a & Ha & H).

Ltac set_absurd H :=
  exfalso; injection H as H; exact (dict_set_not_nil _ _ _ H).

Lemma check_model_passed v data e :
  check_model v data e = Ok [] ->
  e = [] /\ exists s, lookup "model" data = Some (PStr s)
                      /\ model_regex v s = true.
Proof.
  unfold check_model, contains. intros H.
  destruct (lookup "model" data) as [m|] eqn:L; simpl in H.
  - unfold getitem in H. rewrite L in H. simpl in H.
    bind_inv H. destruct m; simpl in Ha; try discriminate.
    injection Ha as <-.
    destruct (model_regex v s) eqn:R; simpl in H.
    + injection H as ->. eauto.
    + set_absurd H.
  - set_absurd H.
Qed.

Lemma check_price_passed data e :
  check_price data e = Ok [] ->
  e = [] /\ exists p, lookup "price" data = Some p /\ positive_int p.
Proof.
  unfold check_price, contains. intros H.
  destruct (lookup "price" data) as [p|] eqn:L; simpl in H.
  - unfold getitem at 1 in H. rewrite L in H. simpl in H.
    destruct (isinstance_int p) eqn:I; simpl in H.
    + destruct (int_value p <=? 0) eqn:Z0.
      * bind_inv H. set_absurd H.
      * injection H as ->. split; [reflexivity|].
        exists p. repeat split; auto. apply Z.leb_gt in Z0. exact Z0.
    + bind_inv H. bind_inv H. set_absurd H.
  - bind_inv H. set_absurd H.
Qed.

Lemma in_color_names_true c :
  in_color_names c = Ok true ->
  exists k, CarColor_getitem c = Ok k /\ In k members.
Proof.
  unfold in_color_names, CarColor_getitem.
  destruct c; try discriminate. intros H0.
  assert (H : existsb (String.eqb s) color_names = true) by congruence.
  clear H0.
  destruct (find (fun c => String.eqb (name c) s) members) as [k|] eqn:F.
  - exists k. split; [reflexivity|]. apply find_some in F. tauto.
  - exfalso. apply existsb_exists in H. destruct H as (n & Hin & Heq).
    unfold color_names in Hin.
    apply in_map_iff in Hin. destruct Hin as (k & <- & Hk).
    apply (find_none _ _ F) in Hk. simpl in Hk.
    rewrite String.eqb_sym in Heq. congruence.
Qed.

Lemma check_color_passed data e :
  check_color data e = Ok [] ->
  e = [] /\ exists c k, lookup "color" data = Some c
                        /\ CarColor_getitem c = Ok k /\ In k members.
Proof.
  unfold check_color, contains. intros H.
  destruct (lookup "color" data) as [c|] eqn:L; simpl in H.
  - unfold getitem at 1 in H. rewrite L in H. simpl in H.
    bind_inv H. destruct a; simpl in H.
    + injection H as ->. split; [reflexivity|].
      destruct (in_color_names_true _ Ha) as (k & ? & ?). eauto.
    + bind_inv H. bind_inv H. set_absurd H.
  - bind_inv H. set_absurd H.
Qed.

Lemma check_mileage_passed data e :
  check_mileage data e = Ok [] ->
  e = [] /\ exists x, lookup "mileage" data = Some x /\ positive_int x.
Proof.
  unfold check_mileage, contains. intros H.
  destruct (lookup "mileage" data) as [x|] eqn:L; simpl in H.
  - unfold getitem at 1 in H. rewrite L in H. simpl in H.
    destruct (isinstance_int x) eqn:I; simpl in H.
    + destruct (int_value x <=? 0) eqn:Z0.
      * bind_inv H. set_absurd H.
      * injection H as ->. split; [reflexivity|].
        exists x. repeat split; auto. apply Z.leb_gt in Z0. exact Z0.
    + bind_inv H. bind_inv H. set_absurd H.
  - bind_inv H. set_absurd H.
Qed.

Lemma upper_ws_regex_spec s :
  upper_ws_regex s = true -> upper_ws_string (PStr s).
Proof.
  intros H. exists s. split; [reflexivity|]. split.
  - intros ->. discriminate.
  - assert (F : forallb upper_or_space (chars s) = true)
      by (destruct s; [discriminate | exact H]).
    rewrite forallb_forall in F. apply Forall_forall. intros c Hc.
    apply F in Hc. unfold upper_or_space in Hc.
    apply orb_true_iff in Hc. exact Hc.
Qed.

Lemma check_components_passed data e :
  check_components default_validator data e = Ok [] ->
  e = [] /\ exists x comps, lookup "components" data = Some x
                            /\ iter x = Some comps
                            /\ Forall upper_ws_string comps.
Proof.
  unfold check_components, contains. intros H.
  destruct (lookup "components" data) as [x|] eqn:L; simpl in H.
  - unfold getitem at 1 in H. rewrite L in H. simpl in H.
    bind_inv H. unfold all_components_ok in Ha.
    destruct (iter x) as [comps|] eqn:I; [|discriminate].
    injection Ha as <-.
    destruct (forallb (component_ok default_validator) comps) eqn:F;
      simpl in H.
    + injection H as ->. split; [reflexivity|]. exists x, comps.
      repeat split; auto. rewrite forallb_forall in F.
      apply Forall_forall. intros c Hc. apply F in Hc.
      destruct c; simpl in Hc; try discriminate.
      apply upper_ws_regex_spec. exact Hc.
    + bind_inv H. bind_inv H. set_absurd H.
  - bind_inv H. set_absurd H.
Qed.

(** **** Missing fields are reported, when [validate] returns *)

Lemma dict_set_key {V : Type} k (v : V) d : In k (keys (dict_set k v d)).
Proof.
  rewrite keys_dict_set. destruct (lookup k d) eqn:L.
  - destruct (in_dec string_dec k (keys d)) as [|N]; [assumption|].
    apply lookup_None_keys in N. congruence.
  - apply in_or_app. right. left. reflexivity.
Qed.

Lemma dict_set_keeps {V : Type} k (v : V) d k' :
  In k' (keys d) -> In k' (keys (dict_set k v d)).
Proof.
  intros H. rewrite keys_dict_set. destruct (lookup k d); [exact H|].
  apply in_or_app. left. exact H.
Qed.

Ltac check_cases H :=
  repeat first
    [ apply bind_Ok in H; destruct H as (? & ? & H)
    | match type of H with
      | context [if ?b then _ else _] => destruct b eqn:?
      end ];
  injection H as <-;
  (split; [intros ? ?; auto using dict_set_keeps
          | intros ?; auto using dict_set_key;
            match goal with
            | Hn : negb (contains _ _) = false, Hc : contains _ _ = false
              |- _ => rewrite Hc in Hn; discriminate Hn
            end]).

Lemma check_model_reports v data e e' :
  check_model v data e = Ok e' -> reports data "model" e e'.
Proof. unfold check_model. intros H. check_cases H. Qed.

Lemma check_price_reports data e e' :
  check_price data e = Ok e' -> reports data "price" e e'.
Proof. unfold check_price. intros H. check_cases H. Qed.

Lemma check_color_reports data e e' :
  check_color data e = Ok e' -> reports data "color" e e'.
Proof. unfold check_color. intros H. check_cases H. Qed.

Lemma check_mileage_reports data e e' :
  check_mileage data e = Ok e' -> reports data "mileage" e e'.
Proof. unfold check_mileage. intros H. check_cases H. Qed.

Lemma check_components_reports v data e e' :
  check_components v data e = Ok e' -> reports data "components" e e'.
Proof. unfold check_components. intros H. check_cases H. Qed.

(** X1.  Whenever [validate] returns, every required field the record
    lacks is a key of the errors, and the record is not valid. *)
Lemma validate_reports_missing v data is_valid errors f :
  validate v data = Ok (is_valid, errors) ->
  In f required -> contains f data = false ->
  In f (keys errors) /\ is_valid = false.
Proof.
  unfold validate. intros H Hf Hm.
  bind_inv H. rename a into e1. rename Ha into H1.
  bind_inv H. rename a into e2. rename Ha into H2.
  bind_inv H. rename a into e3. rename Ha into H3.
  bind_inv H. rename a into e4. rename Ha into H4.
  bind_inv H. rename a into e5. rename Ha into H5.
  injection H as <- <-.
  apply check_model_reports in H1. destruct H1 as [K1 M1].
  apply check_price_reports in H2. destruct H2 as [K2 M2].
  apply check_color_reports in H3. destruct H3 as [K3 M3].
  apply check_mileage_reports in H4. destruct H4 as [K4 M4].
  apply check_components_reports in H5. destruct H5 as [K5 M5].
  assert (Hin : In f (keys e5)).
  { unfold required in Hf. simpl in Hf.
    destruct Hf as [<-|[<-|[<-|[<-|[<-|[]]]]]]; auto 10. }
  split; [exact Hin|]. destruct e5; [destruct Hin | reflexivity].
Qed.

(** A record the default validator accepts converts to a car that
    satisfies the invariant. *)
Lemma valid_record_invariant data errors c :
  validate default_validator data = Ok (true, errors) ->
  from_dict data = Ok c ->
  car_invariant c.
Proof.
  unfold validate. intros H F.
  bind_inv H. rename a into e1. rename Ha into H1.
  bind_inv H. rename a into e2. rename Ha into H2.
  bind_inv H. rename a into e3. rename Ha into H3.
  bind_inv H. rename a into e4. rename Ha into H4.
  bind_inv H. rename a into e5. rename Ha into H5.
  injection H as Hlen _. apply length_zero_nil in Hlen. subst e5.
  apply check_components_passed in H5.
  destruct H5 as (-> & x & comps & Lc & Ic & Fc).
  apply check_mileage_passed in H4. destruct H4 as (-> & mi & Lm & Pm).
  apply check_color_passed in H3. destruct H3 as (-> & cn & k & Lk & Gk & Ik).
  apply check_price_passed in H2.
  destruct H2 as (-> & p & Lp & Pp).
  apply check_model_passed in H1. destruct H1 as (_ & s & Ls & Rs).
  unfold from_dict, getitem in F.
  rewrite Ls, Lp, Lk, Lm, Lc in F. simpl in F. rewrite Gk in F. simpl in F.
  injection F as <-.
  constructor; simpl; eauto using upper_ws_regex_spec.
Qed.

Lemma load_invariant r cars_data :
  car_validator r = default_validator ->
  forall acc cars,
    load r cars_data acc = Ok cars ->
    Forall car_invariant acc -> Forall car_invariant cars.
Proof.
  intros Hv. induction cars_data as [|car rest IH]; simpl; intros acc cars H A.
  - injection H as <-. exact A.
  - bind_inv H. destruct a as [is_valid errors].
    destruct is_valid; simpl in H.
    + bind_inv H. eapply IH; [exact H|].
      apply Forall_app. split; [exact A|]. constructor; [|constructor].
      rewrite Hv in Ha. eapply valid_record_invariant; eassumption.
    + destruct (stop_loading_if_error r); [discriminate|].
      eapply IH; eassumption.
Qed.

End CarsLoading.

(** C1 (the code departs from the specification).
    [CarValidator.validate] is specified to return a pair for every
    record and never to raise.  On the empty record the model check
    records its error and the price check then builds its message from
    [data["model"]]: the call raises [KeyError].  A model that is not a
    string raises [TypeError] from [re.match]. *)
Theorem validate_raises_on_missing_model (v : Cars.CarValidator) :
  Cars.validate v [] = Raise (KeyError (PStr "model"))
  /\ Cars.validate v [("model", PInt 5)] = Raise TypeError.
Proof. split; reflexivity. Qed.

(** C3.  Every car in the collection [get_cars] returns, with the default
    patterns and in either loading mode, satisfies the invariant of the
    data model: the model is a non-empty string of upper-case letters and
    whitespace, price and mileage are integers greater than 0, the colour
    is a member of the enumeration, and every element of the components
    is such a string too. *)
Theorem get_cars_invariant (stop : bool) (cars_data : list dict)
  (cars : list Cars.Car) :
  Cars.get_cars {| Cars.car_validator := Cars.default_validator;
                   Cars.stop_loading_if_error := stop |} cars_data = Ok cars ->
  Forall Cars.car_invariant cars.
Proof.
  intros H. unfold Cars.get_cars in H.
  exact (load_invariant
           {| Cars.car_validator := Cars.default_validator;
              Cars.stop_loading_if_error := stop |}
           cars_data eq_refl [] cars H (Forall_nil _)).
Qed.

Lemma get_cars_invariant_witness :
  Cars.get_cars Samples.skip_reader
    [Samples.bad_mileage_record; Samples.audi_record] = Ok [Samples.audi]
  /\ Forall Cars.car_invariant [Samples.audi].
Proof.
  split; [reflexivity|].
  apply (get_cars_invariant false
           [Samples.bad_mileage_record; Samples.audi_record]).
  reflexivity.
Defined.

(** A car that satisfies the invariant is a car as the annotations of
    the dataclass type it, which is how the service reads it. *)
Lemma str_values_total comps :
  Forall Cars.upper_ws_string comps ->
  exists ss, CarsService.str_values comps = Some ss.
Proof.
  induction 1 as [|v comps (s & -> & _) _ (ss & IH)]; simpl.
  - eexists. reflexivity.
  - rewrite IH. eexists. reflexivity.
Qed.

Lemma invariant_typed c :
  Cars.car_invariant c ->
  exists t, CarsService.of_loaded c = Some t
            /\ Cars.model c = PStr (CarsService.model t)
            /\ 0 < CarsService.price t /\ 0 < CarsService.mileage t.
Proof.
  intros [(s & Hm & _) [Ip Pp] _ [Im Pm] (comps & Hi & Hc)].
  destruct (str_values_total comps Hc) as (ss & Hss).
  unfold CarsService.of_loaded. rewrite Hm, Hi, Ip, Im, Hss. simpl.
  eexists. split; [reflexivity|]. simpl. auto.
Qed.

(* ===================================================================== *)
(** ** Cars: the service                                                 *)
(* ===================================================================== *)

Section CarsServiceFacts.
Import CarsService.

Lemma length_pos {A : Type} (xs : list A) :
  xs <> [] -> 0 < Z.of_nat (List.length xs).
Proof. destruct xs; [congruence | simpl; lia]. Qed.

Lemma double_magnitude y : is_double y -> Z.abs (signed y) = magnitude y.
Proof.
  intros (m & k & Hm & Hk & E).
  assert (0 <= magnitude y).
  { rewrite E. apply Z.mul_nonneg_nonneg; [lia | apply Z.pow_nonneg; lia]. }
  unfold signed. destruct (negative y); lia.
Qed.

Lemma truediv_mean xs :
  xs <> [] -> mean_in_range xs ->
  exists x, truediv (Py.sum xs) (Z.of_nat (List.length xs)) = Ok x
            /\ is_mean (Float x) xs.
Proof.
  intros Hne Hr. pose proof (length_pos xs Hne) as L.
  unfold truediv, is_mean, exact_mean, mean_in_range, float_limit in *.
  rewrite sum_total.
  set (b := Z.of_nat (List.length xs)) in *. set (a := total xs) in *.
  rewrite (proj2 (Z.eqb_neq b 0)) by lia. rewrite (Z.abs_eq b) by lia.
  pose proof (nearest_units_overflow (Z.abs a) b (Z.abs_nonneg a) L) as Ov.
  destruct (2 ^ 2098 <=? nearest_units (Z.abs a) b) eqn:E.
  { apply Z.leb_le in E. apply Ov in E. lia. }
  apply Z.leb_gt in E. eexists. split; [reflexivity|].
  eexists. split; [reflexivity|].
  rewrite (proj2 (Z.ltb_ge b 0)) by lia. rewrite xorb_false_r.
  split; [|split; [reflexivity|]].
  - apply nearest_units_double; [apply Z.abs_nonneg | exact L | exact E].
  - intros y Hy. unfold value. apply nearer_units; [exact L|].
    rewrite Pos2Z.inj_pow.
    pose proof (double_magnitude y Hy) as Ay.
    destruct Hy as (m & k & Hm & Hk & Ey). rewrite Ey in Ay.
    unfold signed at 1. cbn [negative magnitude].
    destruct (a <? 0) eqn:Sa.
    + apply Z.ltb_lt in Sa.
      pose proof (nearest_units_nearest (Z.abs a) b (Z.abs_nonneg a) L
                    (- signed y) m k Hm (proj1 Hk)) as Near.
      rewrite Z.abs_opp in Near. specialize (Near Ay).
      rewrite (Z.abs_neq a) in Near |- * by lia.
      replace (- nearest_units (- a) b * b - a * 2 ^ 1074)
        with (- (nearest_units (- a) b * b - - a * 2 ^ 1074)) by ring.
      replace (signed y * b - a * 2 ^ 1074)
        with (- (- signed y * b - - a * 2 ^ 1074)) by ring.
      rewrite !Z.abs_opp. exact Near.
    + apply Z.ltb_ge in Sa.
      pose proof (nearest_units_nearest (Z.abs a) b (Z.abs_nonneg a) L
                    (signed y) m k Hm (proj1 Hk) Ay) as Near.
      rewrite (Z.abs_eq a) in Near |- * by lia. exact Near.
Qed.

Lemma truediv_overflow xs :
  xs <> [] -> ~ mean_in_range xs ->
  truediv (Py.sum xs) (Z.of_nat (List.length xs)) = Raise OverflowError.
Proof.
  intros Hne Hr. pose proof (length_pos xs Hne) as L.
  unfold truediv, mean_in_range, float_limit in *. rewrite sum_total.
  set (b := Z.of_nat (List.length xs)) in *. set (a := total xs) in *.
  rewrite (proj2 (Z.eqb_neq b 0)) by lia. rewrite (Z.abs_eq b) by lia.
  pose proof (nearest_units_overflow (Z.abs a) b (Z.abs_nonneg a) L) as Ov.
  rewrite (proj2 (Z.leb_le _ _)); [reflexivity|]. apply Ov. lia.
Qed.

Lemma stats_of_describes xs :
  xs <> [] -> mean_in_range xs ->
  exists st, stats_of xs = Ok st /\ describes st xs.
Proof.
  intros Hne Hr. unfold stats_of.
  destruct (truediv_mean xs Hne Hr) as (q & -> & Hq).
  destruct (min_Ok xs Hne) as (lo & -> & Hlo).
  destruct (max_Ok xs Hne) as (hi & -> & Hhi).
  simpl. eexists. split; [reflexivity|].
  split; [exact Hq | split; [exact Hlo | exact Hhi]].
Qed.

Lemma stats_of_overflow xs :
  xs <> [] -> ~ mean_in_range xs -> stats_of xs = Raise OverflowError.
Proof.
  intros Hne Hr. unfold stats_of. rewrite truediv_overflow by assumption.
  reflexivity.
Qed.

Lemma map_not_nil {A B : Type} (f : A -> B) l : l <> [] -> map f l <> [].
Proof. destruct l; simpl; congruence. Qed.

(** **** The loop of [get_model_cars_most_expensive] *)

Lemma filter_snoc {A : Type} (f : A -> bool) l x :
  filter f (l ++ [x]) = (filter f l ++ if f x then [x] else [])%list.
Proof. rewrite filter_app. reflexivity. Qed.

Lemma most_expensive_of_other m p car :
  has_model m car = false -> most_expensive_of m p car = false.
Proof. unfold most_expensive_of. intros ->. reflexivity. Qed.

Lemma most_expensive_of_self p car :
  most_expensive_of (model car) p car = (price car =? p).
Proof.
  unfold most_expensive_of, has_model. rewrite String.eqb_refl. reflexivity.
Qed.

Lemma group_ok_other seen m car o :
  has_model m car = false ->
  group_ok seen m o -> group_ok (seen ++ [car]) m o.
Proof.
  intros Hm. destruct o as [cs|]; simpl.
  - intros (p & Hin & Hall & ->). exists p.
    rewrite !filter_snoc, (most_expensive_of_other m p car Hm), Hm.
    rewrite !app_nil_r. auto.
  - intros H c Hc. apply in_app_or in Hc. destruct Hc as [Hc|[<-|[]]]; auto.
Qed.

Lemma group_ok_first seen m first rest :
  group_ok seen m (Some (first :: rest)) ->
  group_ok seen m (Some (filter (most_expensive_of m (price first)) seen))
  /\ Forall (fun x => x <= price first)
            (map price (filter (has_model m) seen)).
Proof.
  simpl. intros (p & Hin & Hall & E).
  assert (Hf : In first (filter (most_expensive_of m p) seen))
    by (rewrite <- E; left; reflexivity).
  apply filter_In in Hf. destruct Hf as [_ Hf].
  unfold most_expensive_of in Hf. apply andb_true_iff in Hf.
  destruct Hf as [_ Hf]. apply Z.eqb_eq in Hf. rewrite Hf.
  split; [exists p; auto | exact Hall].
Qed.

Lemma group_ok_nonempty seen m cs : group_ok seen m (Some cs) -> cs <> [].
Proof.
  simpl. intros (p & Hin & _ & ->) E.
  apply in_map_iff in Hin. destruct Hin as (car & Hp & Hin).
  apply filter_In in Hin. destruct Hin as [Hin Hm].
  assert (In car (filter (most_expensive_of m p) seen)) as H.
  { apply filter_In. split; [exact Hin|]. unfold most_expensive_of.
    rewrite Hm, Hp, Z.eqb_refl. reflexivity. }
  rewrite E in H. exact H.
Qed.

Lemma filter_most_expensive_cheaper seen m q :
  Forall (fun x => x < q) (map price (filter (has_model m) seen)) ->
  filter (most_expensive_of m q) seen = [].
Proof.
  intros H. apply filter_none. intros car Hin. unfold most_expensive_of.
  destruct (has_model m car) eqn:Hm; [|reflexivity]. simpl.
  rewrite Forall_forall in H. apply Z.eqb_neq.
  assert (price car < q); [|lia].
  apply H. apply in_map. apply filter_In. auto.
Qed.

Lemma most_expensive_step_inv seen d car :
  loop_inv seen d -> loop_inv (seen ++ [car]) (most_expensive_step d car).
Proof.
  intros [Hnd Hg]. unfold most_expensive_step, defaultdict_get.
  assert (Hself : has_model (model car) car = true)
    by apply String.eqb_refl.
  assert (Hother : forall m, String.eqb m (model car) = false ->
                             has_model m car = false).
  { intros m E. unfold has_model. rewrite String.eqb_sym. exact E. }
  pose proof (Hg (model car)) as H0.
  destruct (lookup (model car) d) as [cur|] eqn:L.
  - (* the model is bound *)
    pose proof (group_ok_nonempty _ _ _ H0) as Hne.
    destruct cur as [|first rest]; [congruence|]. clear Hne.
    destruct (group_ok_first _ _ _ _ H0) as [_ Hle].
    assert (Hcur : first :: rest
                   = filter (most_expensive_of (model car) (price first)) seen).
    { destruct H0 as (p & _ & _ & E). rewrite E.
      assert (Hf : In first (filter (most_expensive_of (model car) p) seen))
        by (rewrite <- E; left; reflexivity).
      apply filter_In in Hf. destruct Hf as [_ Hf].
      unfold most_expensive_of in Hf. apply andb_true_iff in Hf.
      destruct Hf as [_ Hf]. apply Z.eqb_eq in Hf. rewrite Hf. reflexivity. }
    assert (Hin : In (price first)
                     (map price (filter (has_model (model car)) seen))).
    { destruct H0 as (p & Hin & _ & E).
      assert (Hf : In first (filter (most_expensive_of (model car) p) seen))
        by (rewrite <- E; left; reflexivity).
      apply filter_In in Hf. destruct Hf as [Hs Hf].
      unfold most_expensive_of in Hf. apply andb_true_iff in Hf.
      apply in_map. apply filter_In. tauto. }
    assert (Hrest : forall cs,
      group_ok (seen ++ [car]) (model car) (Some cs) ->
      loop_inv (seen ++ [car]) (dict_set (model car) cs d)).
    { intros cs Hcs. split.
      - rewrite keys_dict_set, L. exact Hnd.
      - intros m. rewrite lookup_dict_set.
        destruct (String.eqb m (model car)) eqn:E.
        + apply String.eqb_eq in E. subst m. exact Hcs.
        + apply group_ok_other; auto. }
    destruct (price first <? price car) eqn:Hlt; [|
      destruct (price car =? price first) eqn:Heq].
    + (* a new greatest price *)
      apply Z.ltb_lt in Hlt. apply Hrest. exists (price car).
      rewrite !filter_snoc, most_expensive_of_self, Hself, Z.eqb_refl.
      rewrite map_app. simpl.
      split; [apply in_or_app; right; left; reflexivity|]. split.
      * apply Forall_app. split; [|constructor; [lia | constructor]].
        eapply Forall_impl; [|exact Hle]. simpl. intros; lia.
      * rewrite filter_most_expensive_cheaper; [reflexivity|].
        eapply Forall_impl; [|exact Hle]. simpl. intros; lia.
    + (* a tie *)
      apply Z.eqb_eq in Heq. apply Hrest. exists (price first).
      rewrite !filter_snoc, most_expensive_of_self, Hself, Heq, Z.eqb_refl.
      rewrite map_app. simpl.
      split; [apply in_or_app; left; exact Hin|]. split.
      * apply Forall_app. split; [exact Hle|].
        constructor; [lia | constructor].
      * rewrite <- Hcur. reflexivity.
    + (* cheaper: the dict is left as it is *)
      apply Z.ltb_ge in Hlt. apply Z.eqb_neq in Heq. split; [exact Hnd|].
      intros m. destruct (String.eqb m (model car)) eqn:E.
      * apply String.eqb_eq in E. subst m. rewrite L.
        exists (price first).
        rewrite !filter_snoc, most_expensive_of_self, Hself.
        apply Z.eqb_neq in Heq. rewrite Heq, app_nil_r, map_app. simpl.
        apply Z.eqb_neq in Heq.
        split; [apply in_or_app; left; exact Hin|]. split; [|exact Hcur].
        apply Forall_app. split; [exact Hle|].
        constructor; [lia | constructor].
      * apply group_ok_other; auto.
  - (* the model is new *)
    simpl in H0. simpl. split.
    + rewrite keys_dict_set, lookup_dict_set, String.eqb_refl.
      rewrite keys_dict_set, L. apply NoDup_app_remove_l with (l := []).
      simpl. apply Permutation_NoDup with (l := model car :: keys d).
      * apply Permutation_cons_append.
      * constructor; [|exact Hnd]. apply lookup_None_keys. exact L.
    + intros m. rewrite !lookup_dict_set.
      destruct (String.eqb m (model car)) eqn:E.
      * apply String.eqb_eq in E. subst m. exists (price car).
        rewrite !filter_snoc, most_expensive_of_self, Hself, Z.eqb_refl.
        rewrite (filter_none (has_model (model car))) by exact H0.
        rewrite (filter_none (most_expensive_of (model car) (price car))).
        -- simpl. split; [left; reflexivity|].
           split; [constructor; [lia | constructor] | reflexivity].
        -- intros c Hc. unfold most_expensive_of. rewrite (H0 c Hc).
           reflexivity.
      * apply group_ok_other; auto.
Qed.

Lemma most_expensive_loop_inv cars : forall seen d,
  loop_inv seen d ->
  loop_inv (seen ++ cars) (fold_left most_expensive_step cars d).
Proof.
  induction cars as [|car cars IH]; intros seen d H; simpl.
  - rewrite app_nil_r. exact H.
  - replace (seen ++ car :: cars)%list with ((seen ++ [car]) ++ cars)%list
      by (rewrite <- app_assoc; reflexivity).
    apply IH. apply most_expensive_step_inv. exact H.
Qed.

Lemma most_expensive_loop cars :
  loop_inv cars (fold_left most_expensive_step cars []).
Proof.
  apply (most_expensive_loop_inv cars [] []).
  split; [constructor|]. intros m car [].
Qed.

End CarsServiceFacts.

(** C5.  [get_model_cars_most_expensive] returns a mapping whose keys are
    exactly the distinct models of the collection; each model is mapped to
    the cars of that model whose price is the greatest price of the model,
    all of them and in the order met; the entries are in strictly
    descending order of model name when the flag is true (its default) and
    in ascending order otherwise.  For model "X" at prices 100, 100, 50
    both cars at 100 are kept. *)
Theorem get_model_cars_most_expensive_spec (cars : list CarsService.Car)
  (descending : bool) :
  let result := CarsService.get_model_cars_most_expensive cars descending in
  NoDup (keys result)
  /\ (forall m, In m (keys result)
                <-> exists car, In car cars /\ CarsService.model car = m)
  /\ (forall m cs, In (m, cs) result ->
        exists p,
          is_max p
            (map CarsService.price
                 (filter (fun car => String.eqb (CarsService.model car) m)
                         cars))
          /\ cs = filter (fun car => String.eqb (CarsService.model car) m
                                     && (CarsService.price car =? p)) cars)
  /\ (if descending
      then StronglySorted (fun a b => String.ltb (fst b) (fst a) = true) result
      else StronglySorted (fun a b => String.ltb (fst a) (fst b) = true) result)
  /\ CarsService.get_model_cars_most_expensive Samples.three_x true
     = [("X", [Samples.car "X" 100 1; Samples.car "X" 100 2])].
Proof.
  intros result.
  pose proof (most_expensive_loop cars) as [Hnd Hg].
  set (d := fold_left CarsService.most_expensive_step cars []) in *.
  assert (P : Permutation result d)
    by apply (sorted_perm fst String.ltb).
  assert (N : NoDup (keys result)).
  { eapply Permutation_NoDup; [|exact Hnd].
    symmetry. apply Permutation_map. exact P. }
  split; [exact N|]. split; [|split; [|split]].
  - intros m. transitivity (In m (keys d)).
    { split; apply Permutation_in; [|symmetry]; apply Permutation_map;
        exact P. }
    specialize (Hg m). split.
    + intros Hin. destruct (lookup m d) as [cs|] eqn:L.
      * destruct Hg as (p & Hp & _). apply in_map_iff in Hp.
        destruct Hp as (car & _ & Hc). apply filter_In in Hc.
        exists car. split; [tauto|]. apply String.eqb_eq. tauto.
      * apply lookup_None_keys in L. contradiction.
    + intros (car & Hc & Hm). destruct (lookup m d) as [cs|] eqn:L.
      * destruct (in_dec string_dec m (keys d)) as [|Hn]; [assumption|].
        apply lookup_None_keys in Hn. congruence.
      * exfalso. simpl in Hg. specialize (Hg car Hc).
        unfold CarsService.has_model in Hg. apply String.eqb_neq in Hg. auto.
  - intros m cs Hin. apply (Permutation_in _ P) in Hin.
    apply (lookup_In _ _ _ Hnd) in Hin. specialize (Hg m).
    rewrite Hin in Hg. destruct Hg as (p & Hp & Hall & E).
    exists p. split; [split; assumption | exact E].
  - pose proof (sorted_ordered fst String.ltb string_ltb_order d descending)
      as O.
    destruct descending.
    + apply (descending_strict fst String.ltb string_ltb_order); assumption.
    + apply (ascending_strict fst String.ltb string_ltb_order); assumption.
  - reflexivity.
Qed.

Lemma get_model_cars_most_expensive_spec_witness :
  CarsService.get_model_cars_most_expensive Samples.fleet true
  = [("Y", [Samples.car "Y" 80 5000]);
     ("X", [Samples.car "X" 100 7000; Samples.car "X" 100 300])]
  /\ NoDup (keys (CarsService.get_model_cars_most_expensive
                    Samples.fleet true)).
Proof.
  split; [reflexivity|].
  exact (proj1 (get_model_cars_most_expensive_spec Samples.fleet true)).
Defined.

(** C8.  [get_cars_mileage_than] raises exactly when its argument is not
    a non-negative integer, and so for -1; for a non-negative integer it
    returns the cars whose mileage is greater than the argument, in the
    order of the collection: every returned car has such a mileage, and
    every such car of the collection is returned. *)
Theorem get_cars_mileage_than_spec (cars : list CarsService.Car)
  (threshold : pyval) :
  (raises (CarsService.get_cars_mileage_than cars threshold)
   <-> ~ (isinstance_int threshold = true /\ 0 <= int_value threshold))
  /\ CarsService.get_cars_mileage_than cars (PInt (-1)) = Raise ValueError
  /\ (isinstance_int threshold = true -> 0 <= int_value threshold ->
      exists found,
        CarsService.get_cars_mileage_than cars threshold = Ok found
        /\ found = filter (fun car => int_value threshold
                                      <? CarsService.mileage car) cars
        /\ Forall (fun car => int_value threshold < CarsService.mileage car)
                  found
        /\ (forall car, In car cars ->
                        int_value threshold < CarsService.mileage car ->
                        In car found)).
Proof.
  unfold CarsService.get_cars_mileage_than, raises.
  split; [|split].
  - destruct (isinstance_int threshold); simpl.
    + destruct (int_value threshold <? 0) eqn:E.
      * apply Z.ltb_lt in E. split; [lia | eauto].
      * apply Z.ltb_ge in E. split; [intros [e H]; discriminate | tauto].
    + split; [intros _ [H _]; discriminate | eauto].
  - reflexivity.
  - intros -> Hge. apply Z.ltb_ge in Hge. rewrite Hge. simpl.
    eexists. split; [reflexivity|]. split; [reflexivity|]. split.
    + apply Forall_forall. intros car Hin. apply filter_In in Hin.
      apply Z.ltb_lt. tauto.
    + intros car Hin Hlt. apply filter_In. split; [exact Hin|].
      apply Z.ltb_lt. exact Hlt.
Qed.

Lemma get_cars_mileage_than_spec_witness :
  CarsService.get_cars_mileage_than Samples.fleet (PInt 5000)
  = Ok [Samples.car "X" 100 7000; Samples.car "X" 50 9000]
  /\ exists found,
       CarsService.get_cars_mileage_than Samples.fleet (PInt 5000) = Ok found
       /\ Forall (fun car => 5000 < CarsService.mileage car) found.
Proof.
  split; [reflexivity|].
  destruct (get_cars_mileage_than_spec Samples.fleet (PInt 5000))
    as (_ & _ & H).
  destruct (H eq_refl ltac:(simpl; lia)) as (found & Hf & _ & Hall & _).
  exists found. split; [exact Hf | exact Hall].
Defined.

(** C9, as stated, fails: a mean beyond the range of a float makes the
    division raise. *)
Lemma get_statistic_price_mileage_overflow :
  CarsService.get_statistic_price_mileage Samples.priceless
  = Raise OverflowError.
Proof. vm_compute. reflexivity. Qed.

(** C9 (amended).  On the empty collection [get_statistic_price_mileage]
    returns zero six times and does not raise.  On a non-empty collection
    whose mean price and mean mileage are within the range of a float
    (below 2^1024 - 2^970 in absolute value) it returns the least and the
    greatest of the prices and of the mileages, and for the mean of each
    the float the division returns: a double with the sign of the sum,
    than which no double is nearer to the exact mean.  Outside that
    range it raises [OverflowError]. *)
Theorem get_statistic_price_mileage_spec :
  CarsService.get_statistic_price_mileage []
  = Ok {| CarsService.of_price := CarsService.zero_stats;
          CarsService.of_mileage := CarsService.zero_stats |}
  /\ CarsService.zero_stats
     = {| CarsService.avg := CarsService.Int 0;
          CarsService.min := 0; CarsService.max := 0 |}
  /\ forall cars,
       cars <> [] ->
       let prices := map CarsService.price cars in
       let mileages := map CarsService.mileage cars in
       (mean_in_range prices -> mean_in_range mileages ->
        exists st,
          CarsService.get_statistic_price_mileage cars = Ok st
          /\ CarsService.describes (CarsService.of_price st) prices
          /\ CarsService.describes (CarsService.of_mileage st) mileages)
       /\ (~ (mean_in_range prices /\ mean_in_range mileages) ->
           CarsService.get_statistic_price_mileage cars
           = Raise OverflowError).
Proof.
  split; [reflexivity|]. split; [reflexivity|].
  intros cars Hne prices mileages.
  assert (Hp : prices <> []) by (apply map_not_nil; exact Hne).
  assert (Hm : mileages <> []) by (apply map_not_nil; exact Hne).
  unfold CarsService.get_statistic_price_mileage.
  destruct cars as [|c cars]; [congruence|].
  fold prices mileages. split.
  - intros Rp Rm.
    destruct (stats_of_describes prices Hp Rp) as (p & -> & Dp).
    destruct (stats_of_describes mileages Hm Rm) as (m & -> & Dm).
    simpl. eexists. split; [reflexivity|]. split; assumption.
  - intros Hn.
    assert (Dp : mean_in_range prices \/ ~ mean_in_range prices)
      by (unfold mean_in_range; lia).
    destruct Dp as [Rp|Rp].
    + destruct (stats_of_describes prices Hp Rp) as (p & -> & _). simpl.
      rewrite stats_of_overflow; [reflexivity | exact Hm | tauto].
    + rewrite stats_of_overflow by assumption. reflexivity.
Qed.

Lemma get_statistic_price_mileage_spec_witness :
  exists st,
    CarsService.get_statistic_price_mileage Samples.fleet = Ok st
    /\ CarsService.describes (CarsService.of_price st)
                             (map CarsService.price Samples.fleet).
Proof.
  destruct get_statistic_price_mileage_spec as (_ & _ & H).
  destruct (H Samples.fleet ltac:(discriminate)) as [H' _].
  destruct H' as (st & E & Hp & _).
  - unfold mean_in_range. vm_compute. reflexivity.
  - unfold mean_in_range. vm_compute. reflexivity.
  - exists st. split; [exact E | exact Hp].
Defined.

(** The mean is rounded.  Of the prices 100, 100 and 50 it is the
    double 83.33333333333333, that is 5864062014805333 / 2^46, and not
    250/3; of the single price 2^53 + 1 it is 2^53, below the least
    price. *)
Example mean_is_rounded :
  (exists st x,
     CarsService.get_statistic_price_mileage Samples.three_x = Ok st
     /\ CarsService.avg (CarsService.of_price st) = CarsService.Float x
     /\ (value x == 5864062014805333 # (2 ^ 46))%Q
     /\ ~ (value x
            == CarsService.exact_mean
                 (map CarsService.price Samples.three_x))%Q)
  /\ exists st x,
       CarsService.get_statistic_price_mileage
         [Samples.car "X" (2 ^ 53 + 1) 1] = Ok st
       /\ CarsService.avg (CarsService.of_price st) = CarsService.Float x
       /\ CarsService.min (CarsService.of_price st) = 2 ^ 53 + 1
       /\ (value x == inject_Z (2 ^ 53))%Q.
Proof.
  split.
  - exists {| CarsService.of_price :=
               {| CarsService.avg :=
                    CarsService.Float
                      {| negative := false;
                         magnitude := 5864062014805333 * 2 ^ 1028 |};
                  CarsService.min := 50; CarsService.max := 100 |};
             CarsService.of_mileage :=
               {| CarsService.avg :=
                    CarsService.Float
                      {| negative := false; magnitude := 2 ^ 1075 |};
                  CarsService.min := 1; CarsService.max := 3 |} |}.
    eexists. split; [vm_compute; reflexivity|].
    split; [reflexivity|]. split; [vm_compute; reflexivity|].
    intros H. vm_compute in H. discriminate H.
  - exists {| CarsService.of_price :=
               {| CarsService.avg :=
                    CarsService.Float
                      {| negative := false;
                         magnitude := 2 ^ 53 * 2 ^ 1074 |};
                  CarsService.min := 2 ^ 53 + 1;
                  CarsService.max := 2 ^ 53 + 1 |};
             CarsService.of_mileage :=
               {| CarsService.avg :=
                    CarsService.Float
                      {| negative := false; magnitude := 2 ^ 1074 |};
                  CarsService.min := 1; CarsService.max := 1 |} |}.
    eexists. split; [vm_compute; reflexivity|].
    split; [reflexivity|]. split; vm_compute; reflexivity.
Qed.

(** C10.  On the empty collection [get_cars_most_expensive] raises
    ([max] of an empty sequence) where the statistics return zeros; on a
    non-empty collection it returns the cars whose price is the greatest
    price of the collection, in the order of the collection. *)
Theorem get_cars_most_expensive_spec :
  CarsService.get_cars_most_expensive [] = Raise ValueError
  /\ returns (CarsService.get_statistic_price_mileage [])
  /\ forall cars, cars <> [] ->
       exists max_price,
         is_max max_price (map CarsService.price cars)
         /\ CarsService.get_cars_most_expensive cars
            = Ok (filter (fun car => CarsService.price car =? max_price) cars).
Proof.
  split; [reflexivity|]. split; [eexists; reflexivity|].
  intros cars Hne. unfold CarsService.get_cars_most_expensive.
  destruct (max_Ok (map CarsService.price cars) (map_not_nil _ _ Hne))
    as (m & -> & Hm).
  exists m. split; [exact Hm | reflexivity].
Qed.

Lemma get_cars_most_expensive_spec_witness :
  exists max_price,
    is_max max_price (map CarsService.price Samples.fleet)
    /\ CarsService.get_cars_most_expensive Samples.fleet
       = Ok (filter (fun car => CarsService.price car =? max_price)
                    Samples.fleet).
Proof.
  destruct get_cars_most_expensive_spec as (_ & _ & H).
  exact (H Samples.fleet ltac:(discriminate)).
Defined.

(* ===================================================================== *)
(** ** Events                                                            *)
(* ===================================================================== *)

(** *** The order of dates *)

Lemma lex_ltb_irrefl a : Datetime.lex_ltb a a = false.
Proof.
  induction a as [|x a IH]; simpl; [reflexivity|].
  rewrite Z.ltb_irrefl, Z.eqb_refl, IH. reflexivity.
Qed.

Lemma lex_ltb_trans a : forall b c,
  Datetime.lex_ltb a b = true -> Datetime.lex_ltb b c = true ->
  Datetime.lex_ltb a c = true.
Proof.
  induction a as [|x a IH]; intros [|y b] [|z c]; simpl;
    try discriminate; try reflexivity.
  intros Hab Hbc.
  apply orb_true_iff in Hab. apply orb_true_iff in Hbc. apply orb_true_iff.
  destruct Hab as [Hab|Hab]; destruct Hbc as [Hbc|Hbc];
    rewrite ?andb_true_iff, ?Z.ltb_lt, ?Z.eqb_eq in *.
  - left. lia.
  - left. lia.
  - left. lia.
  - right. split; [lia|]. eapply IH; [apply Hab | apply Hbc].
Qed.

Lemma lex_ltb_total a : forall b,
  Datetime.lex_ltb a b = false -> Datetime.lex_ltb b a = false -> a = b.
Proof.
  induction a as [|x a IH]; intros [|y b]; simpl;
    try discriminate; try reflexivity.
  intros Hab Hba.
  apply orb_false_iff in Hab. apply orb_false_iff in Hba.
  destruct Hab as [Hxy Hab]. destruct Hba as [Hyx Hba].
  apply Z.ltb_ge in Hxy. apply Z.ltb_ge in Hyx.
  assert (x = y) by lia. subst y. rewrite Z.eqb_refl in *. simpl in *.
  f_equal. apply IH; assumption.
Qed.

Lemma fields_inj a b : Datetime.fields a = Datetime.fields b -> a = b.
Proof.
  destruct a, b. unfold Datetime.fields. simpl. intros H.
  injection H as -> -> -> -> -> -> ->. reflexivity.
Qed.

Lemma datetime_order : strict_total Datetime.ltb.
Proof.
  constructor; unfold Datetime.ltb.
  - intros a. apply lex_ltb_irrefl.
  - intros a b c. apply lex_ltb_trans.
  - intros a b Hab Hba. apply fields_inj. apply lex_ltb_total; assumption.
Qed.

Lemma datetime_eqb_eq a b : Datetime.eqb a b = true <-> a = b.
Proof.
  split.
  - destruct a, b. unfold Datetime.eqb, Datetime.fields. simpl.
    rewrite !andb_true_iff, !Z.eqb_eq.
    intros (-> & -> & -> & -> & -> & -> & -> & _). reflexivity.
  - intros <-. unfold Datetime.eqb.
    induction (Datetime.fields a) as [|x l IH]; simpl; [reflexivity|].
    rewrite Z.eqb_refl. exact IH.
Qed.

Section EventsFacts.
Import Events.
Variable strptime : string -> string -> option Datetime.datetime.
Variable strftime : Datetime.datetime -> string -> string.
Variable now : Datetime.datetime.

(** *** Loading *)

Lemma load_all_valid r : forall lines raw,
  Forall (accepted strptime now (event_validator r)) lines ->
  Forall2 (fun line e =>
             from_str strptime line (date_format (event_validator r)) ";"
             = Ok e) lines raw ->
  forall acc, load strptime now r lines acc = Ok (acc ++ raw)%list.
Proof.
  intros lines raw Hv Hc. induction Hc as [|line e lines raw He Hc IH];
    intros acc; simpl.
  - rewrite app_nil_r. reflexivity.
  - inversion Hv as [|? ? [errors Hl] Hv']; subst.
    rewrite Hl. simpl. rewrite He. simpl. rewrite IH by exact Hv'.
    rewrite <- app_assoc. reflexivity.
Qed.

Lemma load_all_valid_inv r : forall lines,
  Forall (accepted strptime now (event_validator r)) lines ->
  forall acc out,
    load strptime now r lines acc = Ok out ->
    exists raw,
      out = (acc ++ raw)%list
      /\ Forall2 (fun line e =>
                    from_str strptime line (date_format (event_validator r)) ";"
                    = Ok e) lines raw.
Proof.
  induction 1 as [|line lines [errors Hl] Hv IH]; intros acc out H;
    simpl in H.
  - injection H as <-. exists []. rewrite app_nil_r. split; constructor.
  - rewrite Hl in H. simpl in H.
    apply bind_Ok in H. destruct H as (e & He & H).
    apply IH in H. destruct H as (raw & -> & Hc).
    exists (e :: raw). rewrite <- app_assoc. split; [reflexivity|].
    constructor; assumption.
Qed.

(** Every loaded event is the conversion of an accepted line. *)
Lemma load_sources r : forall lines acc out,
  load strptime now r lines acc = Ok out ->
  exists raw,
    out = (acc ++ raw)%list
    /\ Forall (fun e => exists line,
                  accepted strptime now (event_validator r) line
                  /\ from_str strptime line
                       (date_format (event_validator r)) ";" = Ok e) raw.
Proof.
  induction lines as [|line lines IH]; intros acc out H; simpl in H.
  - injection H as <-. exists []. rewrite app_nil_r. split; constructor.
  - apply bind_Ok in H. destruct H as ([is_valid errors] & Hl & H).
    destruct is_valid.
    + apply bind_Ok in H. destruct H as (e & He & H).
      apply IH in H. destruct H as (raw & -> & Hc).
      exists (e :: raw). rewrite <- app_assoc. split; [reflexivity|].
      constructor; [|exact Hc]. exists line. split; [|exact He].
      exists errors. exact Hl.
    + destruct (stop_loading_if_error r); [discriminate|].
      apply IH in H. exact H.
Qed.

Lemma get_events_of_loaded r lines raw :
  load strptime now r lines [] = Ok raw ->
  exists events,
    get_events strptime now r lines = Ok events
    /\ Permutation raw events
    /\ ascending date Datetime.ltb events
    /\ forall d, filter (fun e => Datetime.eqb (date e) d) events
                 = filter (fun e => Datetime.eqb (date e) d) raw.
Proof.
  intros H. unfold get_events. rewrite H. simpl.
  eexists. split; [reflexivity|]. unfold sorted. split; [|split].
  - symmetry. apply sort_asc_perm.
  - apply sort_asc_ascending. exact datetime_order.
  - intros d. apply sort_asc_stable. intros a b Ha Hb.
    apply datetime_eqb_eq in Ha. apply datetime_eqb_eq in Hb.
    rewrite Ha, Hb. apply (st_irrefl _ datetime_order).
Qed.

End EventsFacts.

(** C4.  When every line passes validation, the sequence [get_events]
    returns is in ascending order of date, and the sort is stable: the
    events of any one date are in the order of their lines.  It returns
    whenever the lines convert, and only then.  The lines B;02-01-2030,
    A;01-01-2030, A;01-01-2030 under the format %d-%m-%Y give A (01-01),
    A (01-01), B (02-01). *)
Theorem get_events_sorted_stable :
  (forall strptime now r lines,
     Forall (Events.accepted strptime now (Events.event_validator r)) lines ->
     let converts line e :=
       Events.from_str strptime line
         (Events.date_format (Events.event_validator r)) ";" = Ok e in
     let sorted_stably raw events :=
       Permutation raw events
       /\ ascending Events.date Datetime.ltb events
       /\ forall d,
            filter (fun e => Datetime.eqb (Events.date e) d) events
            = filter (fun e => Datetime.eqb (Events.date e) d) raw in
     (forall events,
        Events.get_events strptime now r lines = Ok events ->
        exists raw, Forall2 converts lines raw /\ sorted_stably raw events)
     /\ (forall raw,
          Forall2 converts lines raw ->
          exists events,
            Events.get_events strptime now r lines = Ok events
            /\ sorted_stably raw events))
  /\ Events.get_events Datetime.strptime Samples.noon Samples.main_loader
       ["B;02-01-2030"; "A;01-01-2030"; "A;01-01-2030"]
     = Ok [Samples.event "A" 1 1 2030; Samples.event "A" 1 1 2030;
           Samples.event "B" 2 1 2030].
Proof.
  split; [|reflexivity].
  intros strptime now r lines Hv converts sorted_stably. split.
  - intros events Hg.
    assert (Hl : exists raw, Events.load strptime now r lines [] = Ok raw).
    { unfold Events.get_events in Hg. apply bind_Ok in Hg.
      destruct Hg as (raw & Hl & _). exists raw. exact Hl. }
    destruct Hl as (raw & Hl).
    destruct (load_all_valid_inv strptime now r lines Hv [] raw Hl)
      as (raw' & E & Hc).
    simpl in E. subst raw'. exists raw. split; [exact Hc|].
    destruct (get_events_of_loaded strptime now r lines raw Hl)
      as (events' & Hg' & Hpost).
    rewrite Hg in Hg'. injection Hg' as <-. exact Hpost.
  - intros raw Hc. apply get_events_of_loaded.
    exact (load_all_valid strptime now r lines raw Hv Hc []).
Qed.

Lemma get_events_sorted_stable_witness :
  exists events,
    Events.get_events Datetime.strptime Samples.noon Samples.main_loader
      ["B;02-01-2030"; "A;01-01-2030"] = Ok events
    /\ ascending Events.date Datetime.ltb events.
Proof.
  destruct get_events_sorted_stable as [H _].
  destruct (H Datetime.strptime Samples.noon Samples.main_loader
              ["B;02-01-2030"; "A;01-01-2030"]) as [_ H'].
  - repeat constructor; eexists; reflexivity.
  - destruct (H' [Samples.event "B" 2 1 2030; Samples.event "A" 1 1 2030])
      as (events & E & _ & S & _).
    + repeat constructor.
    + exists events. split; [exact E | exact S].
Defined.

(** *** The most common date *)

Section CounterFacts.
Import Events.

Lemma count_occ_snoc seen x y :
  count_occ string_dec (seen ++ [y]) x
  = (count_occ string_dec seen x + if String.eqb x y then 1 else 0)%nat.
Proof.
  rewrite count_occ_app. simpl.
  destruct (string_dec y x) as [->|N].
  - rewrite String.eqb_refl. reflexivity.
  - apply not_eq_sym in N. apply String.eqb_neq in N. rewrite N. reflexivity.
Qed.

Lemma Counter_step seen counts y :
  counted seen counts ->
  counted (seen ++ [y])
    (dict_set y (match lookup y counts with Some n => n | None => 0 end + 1)
              counts).
Proof.
  intros [Hnd Hl]. split.
  - rewrite keys_dict_set. destruct (lookup y counts) eqn:L; [exact Hnd|].
    apply Permutation_NoDup with (l := y :: keys counts).
    + apply Permutation_cons_append.
    + constructor; [|exact Hnd]. apply lookup_None_keys. exact L.
  - intros x. rewrite lookup_dict_set, count_occ_snoc.
    unfold occurrences. rewrite count_occ_snoc.
    destruct (String.eqb x y) eqn:E.
    + apply String.eqb_eq in E. subst y. rewrite Hl.
      unfold occurrences.
      destruct (count_occ string_dec seen x) as [|n]; simpl.
      * reflexivity.
      * rewrite Nat.add_1_r. f_equal. lia.
    + rewrite Hl, !Nat.add_0_r. reflexivity.
Qed.

Lemma Counter_counted xs : counted xs (Counter xs).
Proof.
  unfold Counter.
  assert (G : forall seen counts,
             counted seen counts ->
             counted (seen ++ xs)
               (fold_left
                  (fun counts x =>
                     dict_set x
                       (match lookup x counts with Some n => n | None => 0 end
                        + 1) counts) xs counts)).
  { induction xs as [|y xs IH]; intros seen counts H; simpl.
    - rewrite app_nil_r. exact H.
    - replace (seen ++ y :: xs)%list with ((seen ++ [y]) ++ xs)%list
        by (rewrite <- app_assoc; reflexivity).
      apply IH. apply Counter_step. exact H. }
  apply (G [] []). split; [constructor | reflexivity].
Qed.

Lemma lookup_Some_In {V : Type} k (v : V) d :
  lookup k d = Some v -> In (k, v) d.
Proof.
  induction d as [|[k' v'] d IH]; simpl; [discriminate|].
  destruct (String.eqb k k') eqn:E.
  - apply String.eqb_eq in E. subst k'. intros H. injection H as ->. auto.
  - auto.
Qed.

Lemma NoDup_keys_filter {V : Type} (f : string * V -> bool) d :
  NoDup (keys d) -> NoDup (map fst (filter f d)).
Proof.
  unfold keys. induction d as [|kv d IH]; simpl; intros N; [constructor|].
  inversion N as [|? ? Hnot Hnd]; subst.
  destruct (f kv); simpl; [|auto]. constructor; [|auto].
  intros Hin. apply Hnot. apply in_map_iff in Hin.
  destruct Hin as (kv' & E & Hin). apply filter_In in Hin.
  rewrite <- E. apply in_map. tauto.
Qed.

Lemma occurrences_pos x xs : In x xs -> 0 < occurrences x xs.
Proof.
  intros H. unfold occurrences.
  apply (count_occ_In string_dec) in H. lia.
Qed.

Lemma counted_lookup seen counts x n :
  counted seen counts ->
  (lookup x counts = Some n <-> occurrences x seen = n /\ 0 < n).
Proof.
  intros [_ Hl]. rewrite Hl. unfold occurrences.
  destruct (count_occ string_dec seen x) as [|k]; simpl.
  - split; [discriminate | intros [<- H]; lia].
  - split; [intros H; injection H as <-; lia | intros [<- _]; reflexivity].
Qed.

End CounterFacts.

(** C6.  [get_most_common_date] raises on an empty collection.  On a
    non-empty one it returns the greatest number of occurrences of a
    formatted date among the events, and with it the formatted dates that
    occur that often, each once and no other string. *)
Theorem get_most_common_date_spec :
  (forall strftime date_format,
     Events.get_most_common_date strftime [] date_format = Raise ValueError)
  /\ forall strftime events date_format,
       events <> [] ->
       let formatted :=
         map (fun e => strftime (Events.date e) date_format) events in
       exists dates max_count,
         Events.get_most_common_date strftime events date_format
         = Ok (dates, max_count)
         /\ (exists x, In x formatted
                       /\ Events.occurrences x formatted = max_count)
         /\ (forall x, Events.occurrences x formatted <= max_count)
         /\ NoDup dates
         /\ forall x, In x dates
                      <-> Events.occurrences x formatted = max_count.
Proof.
  split; [reflexivity|].
  intros strftime events date_format Hne formatted.
  unfold Events.get_most_common_date.
  destruct events as [|e0 events]; [congruence|].
  fold formatted.
  pose proof (Counter_counted formatted) as HC.
  set (counts := Events.Counter formatted) in *.
  assert (H0 : In (strftime (Events.date e0) date_format) formatted)
    by (left; reflexivity).
  assert (Hne' : map snd counts <> []).
  { pose proof (occurrences_pos _ _ H0) as Hp.
    assert (L : lookup (strftime (Events.date e0) date_format) counts
                = Some (Events.occurrences
                          (strftime (Events.date e0) date_format) formatted))
      by (apply (counted_lookup _ _ _ _ HC); auto).
    apply lookup_Some_In in L. intros E. destruct counts; [exact L|].
    discriminate. }
  destruct (max_Ok _ Hne') as (m & Em & [Hin Hall]).
  unfold Events.max_default. rewrite Em.
  apply in_map_iff in Hin. destruct Hin as ([x c] & Ec & Hin).
  simpl in Ec. subst c.
  assert (Lx : lookup x counts = Some m)
    by (apply lookup_In; [exact (proj1 HC) | exact Hin]).
  apply (counted_lookup _ _ _ _ HC) in Lx. destruct Lx as [Ex Hm].
  eexists _, m. split; [reflexivity|]. split; [|split; [|split]].
  - exists x. split; [|exact Ex].
    apply (count_occ_In string_dec). unfold Events.occurrences in Ex. lia.
  - intros y.
    destruct (lookup y counts) as [c|] eqn:L.
    + pose proof (lookup_Some_In _ _ _ L) as Hy.
      apply (counted_lookup _ _ _ _ HC) in L. destruct L as [<- _].
      rewrite Forall_forall in Hall. apply Hall.
      apply in_map_iff. exists (y, Events.occurrences y formatted). auto.
    + destruct HC as [_ Hl]. rewrite Hl in L. unfold Events.occurrences.
      destruct (count_occ string_dec formatted y); [lia | discriminate].
  - apply NoDup_keys_filter. exact (proj1 HC).
  - intros y. rewrite in_map_iff. split.
    + intros ([y' c] & E & Hf). simpl in E. subst y'.
      apply filter_In in Hf. destruct Hf as [Hy Hc]. simpl in Hc.
      apply Z.eqb_eq in Hc. subst c.
      apply (lookup_In _ _ _ (proj1 HC)) in Hy.
      apply (counted_lookup _ _ _ _ HC) in Hy. tauto.
    + intros Ey. exists (y, m). split; [reflexivity|].
      apply filter_In. split; [|simpl; apply Z.eqb_refl].
      apply lookup_Some_In. apply (counted_lookup _ _ _ _ HC). auto.
Qed.

Lemma get_most_common_date_spec_witness :
  Events.get_most_common_date Datetime.strftime
    [Samples.event "A" 1 1 2030; Samples.event "A" 1 1 2030;
     Samples.event "B" 2 1 2030] "%d-%m-%Y"
  = Ok (["01-01-2030"], 2)
  /\ exists dates max_count,
       Events.get_most_common_date Datetime.strftime
         [Samples.event "A" 1 1 2030; Samples.event "A" 1 1 2030;
          Samples.event "B" 2 1 2030] "%d-%m-%Y"
       = Ok (dates, max_count)
       /\ NoDup dates.
Proof.
  split; [reflexivity|].
  destruct get_most_common_date_spec as [_ H].
  destruct (H Datetime.strftime
              [Samples.event "A" 1 1 2030; Samples.event "A" 1 1 2030;
               Samples.event "B" 2 1 2030] "%d-%m-%Y" ltac:(discriminate))
    as (dates & n & E & _ & _ & N & _).
  exists dates, n. split; [exact E | exact N].
Defined.

(** *** Validation and conversion *)

Section ValidateFacts.
Import Events.
Variable strptime : string -> string -> option Datetime.datetime.
Variable now : Datetime.datetime.

(** What an accepted line is made of. *)
Lemma accepted_parts v line :
  accepted strptime now v line ->
  exists part0 part1 d,
    split line (separator v) = Ok [part0; part1]
    /\ is_empty (strip part0) = false
    /\ event_name_regex v (strip part0) = true
    /\ strptime (strip part1) (date_format v) = Some d
    /\ (allow_past_dates v = false -> Datetime.ltb d now = false).
Proof.
  intros [errors H]. unfold validate in H.
  apply bind_Ok in H. destruct H as (parts & Hs & H).
  injection H as Hlen _. apply length_zero_nil in Hlen.
  destruct parts as [|p0 [|p1 [|? ?]]]; try discriminate Hlen.
  exists p0, p1.
  destruct (is_empty (strip p0)) eqn:E0.
  { exfalso. destruct (is_empty (strip p1));
      [|destruct (strptime (strip p1) (date_format v)) as [d|];
        [destruct (negb (allow_past_dates v) && Datetime.ltb d now)|]];
      discriminate Hlen. }
  destruct (event_name_regex v (strip p0)) eqn:R; simpl in Hlen.
  2:{ exfalso. destruct (is_empty (strip p1));
      [|destruct (strptime (strip p1) (date_format v)) as [d|];
        [destruct (negb (allow_past_dates v) && Datetime.ltb d now)|]];
      discriminate Hlen. }
  destruct (is_empty (strip p1)); [discriminate|].
  destruct (strptime (strip p1) (date_format v)) as [d|]; [|discriminate].
  exists d. repeat split; auto.
  intros Hp. rewrite Hp in Hlen. simpl in Hlen.
  destruct (Datetime.ltb d now); [discriminate | reflexivity].
Qed.

(** A line whose date part carries no blanks around it converts once it
    is accepted. *)
Lemma accepted_converts v line part0 part1 :
  accepted strptime now v line ->
  split line (separator v) = Ok [part0; part1] ->
  strip part1 = part1 ->
  returns (from_str strptime line (date_format v) (separator v)).
Proof.
  intros Ha Hs Hstrip.
  destruct (accepted_parts v line Ha) as (q0 & q1 & d & Hs' & _ & _ & Hd & _).
  rewrite Hs in Hs'. injection Hs' as <- <-.
  unfold from_str. rewrite Hs. simpl. rewrite <- Hstrip, Hd.
  eexists. reflexivity.
Qed.

End ValidateFacts.

(** *** Writing and reading back *)

Section RoundTrip.
Import Events.
Variable strptime : string -> string -> option Datetime.datetime.
Variable strftime : Datetime.datetime -> string -> string.
Variable now : Datetime.datetime.

Lemma written_line_reads_back v line e :
  separator v = ";" ->
  accepted strptime now v line ->
  from_str strptime line (date_format v) ";" = Ok e ->
  reads_back strptime strftime now v e ->
  let written :=
    event_name e ++ ";" ++ strftime (date e) (date_format v) in
  accepted strptime now v written
  /\ from_str strptime written (date_format v) ";" = Ok e.
Proof.
  intros Hsep Ha Hc (Hsemi & Hstrip & Hne & Hparse & Hpast) written.
  destruct (accepted_parts strptime now v line Ha)
    as (p0 & p1 & d & Hs & E0 & R & _ & _).
  rewrite Hsep in Hs.
  unfold from_str in Hc. rewrite Hs in Hc. simpl in Hc.
  destruct (strptime p1 (date_format v)) as [d1|]; [|discriminate].
  injection Hc as <-. simpl in *.
  assert (Hw : split written ";"
               = Ok [p0; strftime d1 (date_format v)]).
  { apply split_join; [|exact Hsemi]. eapply split_head_plain. exact Hs. }
  split.
  - exists []. unfold validate. rewrite Hsep, Hw. simpl.
    rewrite E0, R, Hstrip, Hne, Hparse. simpl.
    destruct (allow_past_dates v); simpl; [reflexivity|].
    rewrite Hpast by reflexivity. reflexivity.
  - unfold from_str. rewrite Hw. simpl. rewrite Hparse. reflexivity.
Qed.

(** With the delimiter ";", a loaded collection whose written dates read
    back is loaded again, unchanged, from the lines written for it. *)
Lemma roundtrip_semicolon r lines events :
  separator (event_validator r) = ";" ->
  get_events strptime now r lines = Ok events ->
  Forall (reads_back strptime strftime now (event_validator r)) events ->
  get_events strptime now r
    (save_sorted_events strftime events (date_format (event_validator r)))
  = Ok events.
Proof.
  intros Hsep Hg Hrb. unfold get_events in Hg.
  apply bind_Ok in Hg. destruct Hg as (raw & Hl & Hg).
  injection Hg as Hg. unfold sorted in Hg.
  apply load_sources in Hl. destruct Hl as (raw' & E & Hsrc).
  simpl in E. subst raw'.
  assert (Hsrc' : Forall (fun e => exists line,
                    accepted strptime now (event_validator r) line
                    /\ from_str strptime line
                         (date_format (event_validator r)) ";" = Ok e)
                         events).
  { eapply Permutation_Forall; [|exact Hsrc]. rewrite <- Hg.
    symmetry. apply sort_asc_perm. }
  assert (Hboth :
    Forall (accepted strptime now (event_validator r))
      (save_sorted_events strftime events (date_format (event_validator r)))
    /\ Forall2 (fun line e =>
                  from_str strptime line (date_format (event_validator r)) ";"
                  = Ok e)
        (save_sorted_events strftime events (date_format (event_validator r)))
        events).
  { clear Hg. induction events as [|e events IH]; simpl.
    - split; constructor.
    - inversion Hrb as [|? ? Hre Hrb']; subst.
      inversion Hsrc' as [|? ? (line & Ha & Hc) Hsrc'']; subst.
      destruct (written_line_reads_back _ _ _ Hsep Ha Hc Hre) as [Hw1 Hw2].
      destruct (IH Hrb' Hsrc'') as [IH1 IH2].
      split; constructor; assumption. }
  destruct Hboth as [Hacc Hconv].
  unfold get_events.
  rewrite (load_all_valid strptime now r _ _ Hacc Hconv []). simpl.
  f_equal. unfold sorted. apply sort_asc_fixed. rewrite <- Hg.
  apply sort_asc_ascending. exact datetime_order.
Qed.

End RoundTrip.

(** The events of [main]'s example read back. *)
Example roundtrip_semicolon_main :
  let events := [Samples.event "A" 1 1 2030; Samples.event "B" 2 1 2030] in
  Events.get_events Datetime.strptime Samples.noon Samples.main_loader
    ["B;02-01-2030"; "A; 1-01-2030"] = Ok events
  /\ Events.get_events Datetime.strptime Samples.noon Samples.main_loader
       (Events.save_sorted_events Datetime.strftime events "%d-%m-%Y")
     = Ok events.
Proof.
  intros events. split; [reflexivity|].
  apply (roundtrip_semicolon Datetime.strptime Datetime.strftime Samples.noon
           Samples.main_loader ["B;02-01-2030"; "A; 1-01-2030"]).
  - reflexivity.
  - reflexivity.
  - repeat constructor.
Qed.

(** C2 (the code departs from the specification).  A line that passes
    validation is specified to convert.  [validate] strips both parts
    before it checks them, [from_str] parses the date part as it stands:
    the line
    "A; 01-01-2030" is valid under the configuration of [main], and
    [from_str], hence [get_events], raises [ValueError] on it. *)
Theorem accepted_line_fails_to_convert :
  Events.validate Datetime.strptime Samples.noon Samples.main_validator
    "A; 01-01-2030" = Ok (true, [])
  /\ Events.from_str Datetime.strptime "A; 01-01-2030" "%d-%m-%Y" ";"
     = Raise ValueError
  /\ Events.get_events Datetime.strptime Samples.noon Samples.main_loader
       ["A; 01-01-2030"] = Raise ValueError.
Proof. repeat split; reflexivity. Qed.

(** C7 (the code departs from the specification).  Writing a loaded
    collection and loading the written lines with the same format and
    delimiter is specified to give the same events.  The writer and the
    conversion use
    ";" whatever delimiter the validator is configured with: with the
    delimiter "; " the line "A; 1-01-2030" loads as A on 1 January 2030,
    is written as "A;01-01-2030", and that line no longer contains the
    delimiter: loading it raises, or skips the line. *)
Theorem roundtrip_fails_for_other_separator :
  (forall stop,
     Events.get_events Datetime.strptime Samples.noon
       (Samples.spaced_loader stop) ["A; 1-01-2030"]
     = Ok [Samples.event "A" 1 1 2030])
  /\ Events.save_sorted_events Datetime.strftime
       [Samples.event "A" 1 1 2030] "%d-%m-%Y" = ["A;01-01-2030"]
  /\ Events.get_events Datetime.strptime Samples.noon
       (Samples.spaced_loader true) ["A;01-01-2030"] = Raise ValueError
  /\ Events.get_events Datetime.strptime Samples.noon
       (Samples.spaced_loader false) ["A;01-01-2030"] = Ok [].
Proof. split; [intros []; reflexivity | repeat split; reflexivity]. Qed.

(* ===================================================================== *)
(** ** Further properties: validation and loading of cars                *)
(* ===================================================================== *)

Section CarsRecords.
Import Cars.

Ltac bind_inv H :=
  let a := fresh "a" in
  let Ha := fresh "Ha" in
  apply bind_Ok in H; destruct H as (a & Ha & H).

Lemma contains_Some {V : Type} k (d : list (string * V)) v :
  lookup k d = Some v -> contains k d = true.
Proof. unfold contains. intros ->. reflexivity. Qed.


Lemma getitem_Some d k v : lookup k d = Some v -> getitem d k = Ok v.
Proof. unfold getitem. intros ->. reflexivity. Qed.

Lemma in_color_names_In s :
  existsb (String.eqb s) color_names = true <-> In s color_names.
Proof.
  rewrite existsb_exists. split.
  - intros (x & Hx & E). apply String.eqb_eq in E. subst x. exact Hx.
  - intros H. exists s. split; [exact H | apply String.eqb_refl].
Qed.

Lemma check_color_accepted data e :
  check_color data e = Ok [] ->
  exists c, lookup "color" data = Some (PStr c) /\ In c color_names.
Proof.
  unfold check_color, contains. intros H.
  destruct (lookup "color" data) as [c|] eqn:L; simpl in H.
  - unfold getitem at 1 in H. rewrite L in H. simpl in H.
    bind_inv H. destruct a; simpl in H.
    + destruct c; try discriminate Ha. exists s. split; [reflexivity|].
      apply in_color_names_In. unfold in_color_names in Ha. congruence.
    + bind_inv H. bind_inv H. exfalso. injection H as H.
      exact (dict_set_not_nil _ _ _ H).
  - bind_inv H. exfalso. injection H as H.
    exact (dict_set_not_nil _ _ _ H).
Qed.

Lemma check_components_accepted v data e :
  check_components v data e = Ok [] ->
  e = []
  /\ exists cs comps, lookup "components" data = Some cs
                      /\ iter cs = Some comps
                      /\ forallb (component_ok v) comps = true.
Proof.
  unfold check_components, contains. intros H.
  destruct (lookup "components" data) as [x|] eqn:L; simpl in H.
  - unfold getitem at 1 in H. rewrite L in H. simpl in H.
    bind_inv H. unfold all_components_ok in Ha.
    destruct (iter x) as [comps|] eqn:I; [|discriminate].
    injection Ha as <-.
    destruct (forallb (component_ok v) comps) eqn:F; simpl in H.
    + injection H as ->. split; [reflexivity|]. exists x, comps. auto.
    + bind_inv H. bind_inv H. exfalso. injection H as H.
      exact (dict_set_not_nil _ _ _ H).
  - bind_inv H. exfalso. injection H as H.
    exact (dict_set_not_nil _ _ _ H).
Qed.

(** An accepted record is a valid record, and its errors are empty. *)
Lemma accepted_valid_record v data errors :
  validate v data = Ok (true, errors) ->
  errors = [] /\ valid_record v data.
Proof.
  unfold validate. intros H.
  bind_inv H. rename a into e1. rename Ha into H1.
  bind_inv H. rename a into e2. rename Ha into H2.
  bind_inv H. rename a into e3. rename Ha into H3.
  bind_inv H. rename a into e4. rename Ha into H4.
  bind_inv H. rename a into e5. rename Ha into H5.
  injection H as Hlen <-. apply length_zero_nil in Hlen. subst e5.
  split; [reflexivity|].
  apply check_components_accepted in H5. destruct H5 as (-> & H5).
  destruct (check_mileage_passed _ _ H4) as (-> & Hm).
  pose proof (check_color_accepted _ _ H3) as Hc.
  apply check_color_passed in H3. destruct H3 as (-> & _).
  destruct (check_price_passed _ _ H2) as (-> & Hp).
  destruct (check_model_passed _ _ _ H1) as (_ & Hs).
  repeat split; assumption.
Qed.

Lemma valid_record_accepted v data :
  valid_record v data -> validate v data = Ok (true, []).
Proof.
  intros ((s & Ls & Rs) & (p & Lp & Ip & Pp) & (c & Lc & Ic)
          & (x & Lx & Ix & Px) & (cs & comps & Lcs & It & F)).
  apply Z.leb_gt in Pp. apply Z.leb_gt in Px.
  apply in_color_names_In in Ic.
  unfold validate, check_model, check_price, check_color, check_mileage,
    check_components, all_components_ok.
  rewrite (contains_Some _ _ _ Ls), (contains_Some _ _ _ Lp),
    (contains_Some _ _ _ Lc), (contains_Some _ _ _ Lx),
    (contains_Some _ _ _ Lcs).
  rewrite (getitem_Some _ _ _ Ls), (getitem_Some _ _ _ Lp),
    (getitem_Some _ _ _ Lc), (getitem_Some _ _ _ Lx),
    (getitem_Some _ _ _ Lcs).
  cbn [negb bind re_match in_color_names]. rewrite Rs.
  cbn [negb bind]. rewrite Ip, Pp. cbn [negb bind]. rewrite Ic.
  cbn [negb bind]. rewrite Ix, Px. cbn [negb bind]. rewrite It, F.
  reflexivity.
Qed.

Lemma valid_record_from_dict v data :
  valid_record v data ->
  exists car,
    from_dict data = Ok car
    /\ lookup "model" data = Some (model car)
    /\ lookup "price" data = Some (price car)
    /\ lookup "color" data = Some (PStr (name (color car)))
    /\ lookup "mileage" data = Some (mileage car)
    /\ lookup "components" data = Some (components car).
Proof.
  intros ((s & Ls & _) & (p & Lp & _) & (c & Lc & Ic)
          & (x & Lx & _) & (cs & comps & Lcs & _)).
  unfold from_dict.
  rewrite (getitem_Some _ _ _ Ls), (getitem_Some _ _ _ Lp),
    (getitem_Some _ _ _ Lc), (getitem_Some _ _ _ Lx),
    (getitem_Some _ _ _ Lcs).
  cbn [bind CarColor_getitem].
  destruct (find (fun k => String.eqb (name k) c) members) as [k|] eqn:Fk.
  - apply find_some in Fk. destruct Fk as [_ Ek]. apply String.eqb_eq in Ek.
    eexists. split; [reflexivity|]. cbn [model price color mileage components].
    rewrite Ek. auto.
  - exfalso. unfold color_names in Ic. apply in_map_iff in Ic.
    destruct Ic as (k & Ek & Hk). apply (find_none _ _ Fk) in Hk.
    cbn beta in Hk. rewrite Ek, String.eqb_refl in Hk. discriminate.
Qed.

(** **** The records on which [validate] returns *)








End CarsRecords.

Lemma validate_reports_missing_witness :
  In "mileage"
     (keys [("mileage", [Cars.NotFoundForModel (PStr "BMW")])])
  /\ false = false.
Proof.
  apply (validate_reports_missing Cars.default_validator
           Samples.no_mileage_record false
           [("mileage", [Cars.NotFoundForModel (PStr "BMW")])] "mileage").
  - reflexivity.
  - unfold Cars.required. simpl. tauto.
  - reflexivity.
Defined.

(** X2.  [validate] accepts a record exactly when the record has the five
    fields with a model the model pattern matches, an integer price and
    mileage greater than 0, the name of a colour, and components that can
    be iterated, each a string the collection pattern matches; the errors
    of an accepted record are empty. *)
Theorem validate_accepts_iff (v : Cars.CarValidator) (data : dict) :
  (forall errors, Cars.validate v data = Ok (true, errors) -> errors = [])
  /\ (Cars.validate v data = Ok (true, []) <-> Cars.valid_record v data).
Proof.
  split; [|split].
  - intros errors H. apply (accepted_valid_record v data errors H).
  - intros H. apply (accepted_valid_record v data [] H).
  - apply valid_record_accepted.
Qed.

(** X3.  A record [validate] accepts converts: [from_dict] returns a car
    that holds the values of the record, the colour being the member of
    that name. *)
Theorem accepted_record_converts (v : Cars.CarValidator) (data : dict)
  (errors : Cars.errors_t) :
  Cars.validate v data = Ok (true, errors) ->
  exists car,
    Cars.from_dict data = Ok car
    /\ lookup "model" data = Some (Cars.model car)
    /\ lookup "price" data = Some (Cars.price car)
    /\ lookup "color" data = Some (PStr (Cars.name (Cars.color car)))
    /\ lookup "mileage" data = Some (Cars.mileage car)
    /\ lookup "components" data = Some (Cars.components car).
Proof.
  intros H. apply (valid_record_from_dict v).
  apply (accepted_valid_record v data errors H).
Qed.

Lemma accepted_record_converts_witness :
  exists car, Cars.from_dict Samples.audi_record = Ok car
              /\ lookup "model" Samples.audi_record = Some (Cars.model car).
Proof.
  destruct (accepted_record_converts Cars.default_validator
              Samples.audi_record [] eq_refl) as (car & H & Hm & _).
  exists car. split; [exact H | exact Hm].
Defined.



Section CarsLoader.
Import Cars.

Lemma cars_load_app r xs : forall ys acc,
  load r (xs ++ ys) acc = bind (load r xs acc) (fun acc' => load r ys acc').
Proof.
  induction xs as [|x xs IH]; intros ys acc; simpl; [reflexivity|].
  destruct (validate (car_validator r) x) as [[is_valid errors]|e];
    simpl; [|reflexivity].
  destruct is_valid; simpl.
  - destruct (from_dict x); simpl; [apply IH | reflexivity].
  - destruct (stop_loading_if_error r); [reflexivity | apply IH].
Qed.

Lemma cars_load_stop_skip v data : forall acc out,
  load {| car_validator := v; stop_loading_if_error := true |} data acc
  = Ok out ->
  load {| car_validator := v; stop_loading_if_error := false |} data acc
  = Ok out
  /\ exists new, out = (acc ++ new)%list
                 /\ Forall2 (fun d c => valid_record v d /\ from_dict d = Ok c)
                            data new.
Proof.
  induction data as [|d data IH]; intros acc out H; simpl in *.
  - injection H as <-. split; [reflexivity|]. exists [].
    rewrite app_nil_r. split; constructor.
  - destruct (validate v d) as [[is_valid errors]|e] eqn:Hv;
      simpl in *; [|discriminate].
    destruct is_valid; simpl in *; [|discriminate].
    destruct (from_dict d) as [c|e] eqn:Hc; simpl in *; [|discriminate].
    destruct (IH _ _ H) as (Hs & new & -> & Hf).
    split; [exact Hs|]. exists (c :: new). rewrite <- app_assoc.
    split; [reflexivity|]. constructor; [|exact Hf].
    split; [|exact Hc]. apply (accepted_valid_record v d errors Hv).
Qed.

End CarsLoader.

(** X5.  A record [validate] rejects is skipped by the loader in skip
    mode, as if it were not in the file; in abort mode it makes the
    loader raise [ValueError] once the records before it have loaded,
    whatever follows. *)
Theorem get_cars_rejected_record (v : Cars.CarValidator)
  (before after : list dict) (rejected : dict) (errors : Cars.errors_t) :
  Cars.validate v rejected = Ok (false, errors) ->
  Cars.get_cars {| Cars.car_validator := v;
                   Cars.stop_loading_if_error := false |}
                (before ++ rejected :: after)
  = Cars.get_cars {| Cars.car_validator := v;
                     Cars.stop_loading_if_error := false |}
                  (before ++ after)
  /\ (returns (Cars.get_cars {| Cars.car_validator := v;
                                Cars.stop_loading_if_error := true |} before)
      -> Cars.get_cars {| Cars.car_validator := v;
                          Cars.stop_loading_if_error := true |}
                       (before ++ rejected :: after)
         = Raise ValueError).
Proof.
  intros H. unfold Cars.get_cars. rewrite !cars_load_app. split.
  - destruct (Cars.load _ before []); simpl; [|reflexivity].
    rewrite H. reflexivity.
  - intros [cars ->]. simpl. rewrite H. reflexivity.
Qed.

Lemma get_cars_rejected_record_witness :
  Cars.get_cars (Samples.reader false)
    ([Samples.audi_record] ++ Samples.no_mileage_record
                           :: [Samples.bmw_record])
  = Cars.get_cars (Samples.reader false)
      ([Samples.audi_record] ++ [Samples.bmw_record])
  /\ Cars.get_cars (Samples.reader false)
       ([Samples.audi_record] ++ [Samples.bmw_record])
     = Ok [Samples.audi; Samples.bmw].
Proof.
  split; [|reflexivity].
  apply (get_cars_rejected_record Cars.default_validator
           [Samples.audi_record] [Samples.bmw_record]
           Samples.no_mileage_record
           [("mileage", [Cars.NotFoundForModel (PStr "BMW")])]).
  reflexivity.
Defined.

(** X6.  When the loader returns in abort mode, every record was valid,
    the cars are the conversions of the records, one for one and in
    order, and skip mode returns the same cars. *)
Theorem get_cars_abort_mode (v : Cars.CarValidator) (cars_data : list dict)
  (cars : list Cars.Car) :
  Cars.get_cars {| Cars.car_validator := v;
                   Cars.stop_loading_if_error := true |} cars_data = Ok cars ->
  Cars.get_cars {| Cars.car_validator := v;
                   Cars.stop_loading_if_error := false |} cars_data = Ok cars
  /\ Forall2 (fun d c => Cars.valid_record v d /\ Cars.from_dict d = Ok c)
             cars_data cars.
Proof.
  intros H. destruct (cars_load_stop_skip v cars_data [] cars H)
    as (Hs & new & E & Hf).
  simpl in E. subst new. split; assumption.
Qed.

Lemma get_cars_abort_mode_witness :
  Cars.get_cars (Samples.reader false)
    [Samples.audi_record; Samples.bmw_record]
  = Ok [Samples.audi; Samples.bmw].
Proof.
  apply (get_cars_abort_mode Cars.default_validator
           [Samples.audi_record; Samples.bmw_record]
           [Samples.audi; Samples.bmw]).
  reflexivity.
Defined.

(* ===================================================================== *)
(** ** Further properties: the other methods of the cars service         *)
(* ===================================================================== *)

Lemma Z_ltb_order : strict_total Z.ltb.
Proof.
  constructor.
  - apply Z.ltb_irrefl.
  - intros a b c Hab Hbc. apply Z.ltb_lt in Hab. apply Z.ltb_lt in Hbc.
    apply Z.ltb_lt. lia.
  - intros a b Hab Hba. apply Z.ltb_ge in Hab. apply Z.ltb_ge in Hba. lia.
Qed.

Section SortedFacts.
Context {A K : Type} (key : A -> K) (ltb : K -> K -> bool).
Hypothesis order : strict_total ltb.

(** In either direction the sort is stable. *)
Lemma sorted_stable (p : A -> bool) l reverse :
  (forall a b, p a = true -> p b = true -> ltb (key a) (key b) = false) ->
  filter p (sorted key ltb l reverse) = filter p l.
Proof.
  intros Hp. unfold sorted. destruct reverse.
  - rewrite filter_rev, (sort_asc_stable key ltb p (rev l) Hp).
    rewrite filter_rev. apply rev_involutive.
  - apply sort_asc_stable. exact Hp.
Qed.

Lemma has_key_same k a b :
  CarsQueries.has_key key ltb k a = true ->
  CarsQueries.has_key key ltb k b = true ->
  ltb (key a) (key b) = false.
Proof.
  unfold CarsQueries.has_key. rewrite !andb_true_iff, !negb_true_iff.
  intros [Ha1 Ha2] [Hb1 Hb2].
  rewrite (st_total ltb order _ _ Ha1 Ha2).
  rewrite (st_total ltb order _ _ Hb1 Hb2).
  apply (st_irrefl ltb order).
Qed.

(** Sorting what is sorted in the direction asked for changes nothing. *)
Lemma sorted_fixed l reverse :
  sorted key ltb (sorted key ltb l reverse) reverse = sorted key ltb l reverse.
Proof.
  unfold sorted. destruct reverse.
  - rewrite rev_involutive. f_equal. apply sort_asc_fixed.
    apply sort_asc_ascending. exact order.
  - apply sort_asc_fixed. apply sort_asc_ascending. exact order.
Qed.

End SortedFacts.

(** X7.  [get_sorted_cars] returns a rearrangement of the collection, in
    ascending order of the key, or descending when asked; cars with the
    same key keep the order they had in the collection, in either
    direction. *)
Theorem get_sorted_cars_spec {K : Type} (fn_sorted : CarsService.Car -> K)
  (ltb : K -> K -> bool) (cars : list CarsService.Car) (descending : bool) :
  strict_total ltb ->
  let found := CarsQueries.get_sorted_cars cars fn_sorted ltb descending in
  Permutation cars found
  /\ (if descending then Py.descending fn_sorted ltb found
      else ascending fn_sorted ltb found)
  /\ forall k,
       filter (CarsQueries.has_key fn_sorted ltb k) found
       = filter (CarsQueries.has_key fn_sorted ltb k) cars.
Proof.
  intros order found. unfold found, CarsQueries.get_sorted_cars.
  split; [|split].
  - symmetry. apply sorted_perm.
  - pose proof (sorted_ordered fn_sorted ltb order cars descending) as O.
    destruct descending; exact O.
  - intros k. apply sorted_stable. apply has_key_same. exact order.
Qed.

Lemma get_sorted_cars_spec_witness :
  CarsQueries.get_sorted_cars Samples.fleet CarsService.price Z.ltb true
  = [Samples.car "X" 100 7000; Samples.car "X" 100 300;
     Samples.car "Y" 80 5000; Samples.car "X" 50 9000]
  /\ Permutation Samples.fleet
       (CarsQueries.get_sorted_cars Samples.fleet CarsService.price
                                    Z.ltb true).
Proof.
  split; [reflexivity|].
  exact (proj1 (get_sorted_cars_spec CarsService.price Z.ltb Samples.fleet
                  true Z_ltb_order)).
Defined.

Section CountFacts.
Import Events.

Lemma total_dict_set k v (d : list (string * Z)) :
  total (map snd (dict_set k v d))
  = total (map snd d) + v
    - match lookup k d with Some n => n | None => 0 end.
Proof.
  induction d as [|[k' n] d IH]; simpl; [lia|].
  destruct (String.eqb k k'); simpl; [lia|]. rewrite IH. lia.
Qed.

Lemma Counter_total xs :
  total (map snd (Counter xs)) = Z.of_nat (List.length xs).
Proof.
  unfold Counter.
  assert (G : forall counts,
             total (map snd
                      (fold_left
                         (fun counts x =>
                            dict_set x
                              (match lookup x counts with
                               | Some n => n
                               | None => 0
                               end + 1) counts) xs counts))
             = total (map snd counts) + Z.of_nat (List.length xs)).
  { induction xs as [|x xs IH]; intros counts; simpl List.length;
      simpl fold_left; [lia|].
    rewrite IH, total_dict_set. destruct (lookup x counts); lia. }
  rewrite G. simpl. lia.
Qed.

Lemma total_perm l l' : Permutation l l' -> total l = total l'.
Proof.
  induction 1; simpl; lia.
Qed.

Lemma occurrences_map {A : Type} (f : A -> string) l c :
  occurrences c (map f l)
  = Z.of_nat (List.length (filter (fun a => String.eqb (f a) c) l)).
Proof.
  unfold occurrences. f_equal.
  induction l as [|a l IH]; simpl; [reflexivity|].
  destruct (string_dec (f a) c) as [E|N].
  - rewrite E, String.eqb_refl. simpl. rewrite <- IH. reflexivity.
  - apply String.eqb_neq in N. rewrite N. exact IH.
Qed.

End CountFacts.

(** X8.  [get_count_cars_by_color] maps every colour that occurs in the
    collection, and no other, to the number of cars of that colour; the
    counts add up to the size of the collection; the entries are in
    descending order of count when the flag is true and in ascending order
    otherwise. *)
Theorem get_count_cars_by_color_spec (cars : list CarsService.Car)
  (descending : bool) :
  let counts := CarsQueries.get_count_cars_by_color cars descending in
  let cars_of c :=
    filter (fun car => String.eqb (Cars.name (CarsService.color car)) c)
           cars in
  NoDup (keys counts)
  /\ (forall c n, In (c, n) counts
                  <-> n = Z.of_nat (List.length (cars_of c)) /\ 0 < n)
  /\ total (map snd counts) = Z.of_nat (List.length cars)
  /\ (if descending then Py.descending snd Z.ltb counts
      else ascending snd Z.ltb counts).
Proof.
  intros counts cars_of. unfold counts, CarsQueries.get_count_cars_by_color.
  set (names := map (fun car => Cars.name (CarsService.color car)) cars).
  pose proof (Counter_counted names) as HC.
  set (d := Events.Counter names) in *.
  assert (P : Permutation (sorted snd Z.ltb d descending) d)
    by apply sorted_perm.
  split; [|split; [|split]].
  - eapply Permutation_NoDup; [|exact (proj1 HC)].
    symmetry. apply Permutation_map. exact P.
  - intros c n. unfold cars_of.
    rewrite <- (occurrences_map (fun car => Cars.name (CarsService.color car))).
    fold names.
    pose proof (counted_lookup names d c n HC) as L. split.
    + intros H. apply (Permutation_in _ P) in H.
      apply (lookup_In _ _ _ (proj1 HC)) in H. apply L in H.
      destruct H as [H1 H2]. split; [symmetry; exact H1 | exact H2].
    + intros [H1 H2]. apply (Permutation_in _ (Permutation_sym P)).
      apply lookup_Some_In. apply L. split; [symmetry; exact H1 | exact H2].
  - rewrite (total_perm _ _ (Permutation_map snd P)).
    unfold d. rewrite Counter_total. unfold names. rewrite length_map.
    reflexivity.
  - pose proof (sorted_ordered snd Z.ltb Z_ltb_order d descending) as O.
    destruct descending; exact O.
Qed.

Lemma filter_both {A : Type} (f g : A -> bool) l :
  filter f (filter g l) = filter (fun x => g x && f x) l.
Proof.
  induction l as [|x l IH]; simpl; [reflexivity|].
  destruct (g x); simpl; [destruct (f x)|]; rewrite ?IH; reflexivity.
Qed.

(** X9.  [get_cars_price_between] raises exactly when the lower price is
    above the upper one.  Otherwise it returns the cars whose price lies
    between the two, both included, and only those, in ascending order of
    model; cars of one model keep the order of the collection. *)
Theorem get_cars_price_between_spec (cars : list CarsService.Car)
  (price_from price_to : Z) :
  let in_range car :=
    (price_from <=? CarsService.price car)
    && (CarsService.price car <=? price_to) in
  (raises (CarsQueries.get_cars_price_between cars price_from price_to)
   <-> price_to < price_from)
  /\ (price_from <= price_to ->
      exists found,
        CarsQueries.get_cars_price_between cars price_from price_to = Ok found
        /\ Permutation (filter in_range cars) found
        /\ (forall car, In car found
                        <-> In car cars
                            /\ price_from <= CarsService.price car <= price_to)
        /\ ascending CarsService.model String.ltb found
        /\ forall m,
             filter (fun car => String.eqb (CarsService.model car) m) found
             = filter (fun car => in_range car
                                  && String.eqb (CarsService.model car) m)
                      cars).
Proof.
  intros in_range. unfold CarsQueries.get_cars_price_between, raises.
  fold in_range. split.
  - destruct (price_to <? price_from) eqn:E.
    + apply Z.ltb_lt in E. split; [intros _; exact E | eauto].
    + apply Z.ltb_ge in E. split; [intros [e H]; discriminate | lia].
  - intros Hle. apply Z.ltb_ge in Hle. rewrite Hle.
    eexists. split; [reflexivity|].
    assert (P : Permutation (filter in_range cars)
                  (sorted CarsService.model String.ltb
                          (filter in_range cars) false))
      by (symmetry; apply sorted_perm).
    split; [exact P|]. split; [|split].
    + intros car. split.
      * intros H. apply (Permutation_in _ (Permutation_sym P)) in H.
        apply filter_In in H. destruct H as [Hin Hr]. split; [exact Hin|].
        unfold in_range in Hr. apply andb_true_iff in Hr.
        rewrite !Z.leb_le in Hr. exact Hr.
      * intros [Hin Hr]. apply (Permutation_in _ P). apply filter_In.
        split; [exact Hin|]. unfold in_range. apply andb_true_iff.
        rewrite !Z.leb_le. exact Hr.
    + apply (sorted_ordered CarsService.model String.ltb string_ltb_order
               (filter in_range cars) false).
    + intros m. rewrite <- filter_both.
      apply (sorted_stable CarsService.model String.ltb).
      intros a b Ha Hb. apply String.eqb_eq in Ha. apply String.eqb_eq in Hb.
      rewrite Ha, Hb. apply (st_irrefl _ string_ltb_order).
Qed.

Lemma get_cars_price_between_spec_witness :
  CarsQueries.get_cars_price_between Samples.fleet 80 100
  = Ok [Samples.car "X" 100 7000; Samples.car "X" 100 300;
        Samples.car "Y" 80 5000]
  /\ exists found,
       CarsQueries.get_cars_price_between Samples.fleet 80 100 = Ok found
       /\ ascending CarsService.model String.ltb found.
Proof.
  split; [reflexivity|].
  destruct (get_cars_price_between_spec Samples.fleet 80 100) as [_ H].
  destruct (H ltac:(lia)) as (found & E & _ & _ & S & _).
  exists found. split; [exact E | exact S].
Defined.

Lemma sort_components_twice descending car :
  CarsQueries.sort_components descending
    (CarsQueries.sort_components descending car)
  = CarsQueries.sort_components descending car.
Proof.
  unfold CarsQueries.sort_components. simpl. f_equal.
  apply sorted_fixed. exact string_ltb_order.
Qed.

(** X10.  [get_sorted_collection] leaves every car in its place with its
    model, price, colour and mileage; the components of each car are
    rearranged into alphabetical order, reversed when asked; and applying
    it again with the same flag changes nothing. *)
Theorem get_sorted_collection_spec (cars : list CarsService.Car)
  (descending : bool) :
  let sorted_cars := CarsQueries.get_sorted_collection cars descending in
  Forall2
    (fun car car' =>
       CarsService.model car' = CarsService.model car
       /\ CarsService.price car' = CarsService.price car
       /\ CarsService.color car' = CarsService.color car
       /\ CarsService.mileage car' = CarsService.mileage car
       /\ Permutation (CarsService.components car)
                      (CarsService.components car')
       /\ (if descending
           then Py.descending (fun c => c) String.ltb
                              (CarsService.components car')
           else ascending (fun c => c) String.ltb
                          (CarsService.components car')))
    cars sorted_cars
  /\ CarsQueries.get_sorted_collection sorted_cars descending = sorted_cars.
Proof.
  intros sorted_cars. unfold sorted_cars, CarsQueries.get_sorted_collection.
  split.
  - induction cars as [|car cars IH]; simpl; constructor; [|exact IH].
    repeat split; try reflexivity.
    + symmetry. apply sorted_perm.
    + pose proof (sorted_ordered (fun c : string => c) String.ltb
                    string_ltb_order (CarsService.components car)
                    descending) as O.
      destruct descending; exact O.
  - rewrite map_map. apply map_ext. intros car.
    apply sort_components_twice.
Qed.

Section ComponentFacts.
Import CarsService CarsQueries.

Lemma loops_as_listings cars : forall d,
  fold_left (fun d car => fold_left (append_car car) (components car) d) cars d
  = fold_left listing_step (listings cars) d.
Proof.
  induction cars as [|car cars IH]; intros d; [reflexivity|].
  cbn [fold_left listings flat_map]. rewrite fold_left_app, IH. f_equal.
  generalize d. induction (components car) as [|c cs IHc]; intros d';
    [reflexivity|].
  cbn [fold_left map]. apply IHc.
Qed.

Lemma listing_step_listed seen d p :
  listed seen d -> listed (seen ++ [p]) (listing_step d p).
Proof.
  destruct p as [c car]. intros [Hnd Hl].
  unfold listing_step, append_car, defaultdict_get. cbn [fst snd].
  pose proof (Hl c) as Hc.
  assert (Hmet : forall component,
            met_with component (seen ++ [(c, car)])
            = (met_with component seen
               ++ if String.eqb c component then [car] else [])%list).
  { intros component. unfold met_with. rewrite filter_app, map_app.
    cbn [filter fst]. destruct (String.eqb c component); reflexivity. }
  destruct (lookup c d) as [cur|] eqn:L.
  - split.
    + rewrite keys_dict_set, L. exact Hnd.
    + intros component. rewrite lookup_dict_set, Hmet, String.eqb_sym.
      destruct (String.eqb c component) eqn:E.
      * apply String.eqb_eq in E. subst component.
        destruct (met_with c seen) as [|x l]; [discriminate|].
        injection Hc as ->. reflexivity.
      * rewrite app_nil_r. apply Hl.
  - split.
    + rewrite keys_dict_set, lookup_dict_set, String.eqb_refl.
      rewrite keys_dict_set, L.
      apply Permutation_NoDup with (l := c :: keys d).
      * apply Permutation_cons_append.
      * constructor; [|exact Hnd]. apply lookup_None_keys. exact L.
    + intros component. rewrite !lookup_dict_set, Hmet, String.eqb_sym.
      destruct (String.eqb c component) eqn:E.
      * apply String.eqb_eq in E. subst component.
        destruct (met_with c seen) as [|x l]; [reflexivity | discriminate].
      * rewrite app_nil_r. apply Hl.
Qed.

Lemma listings_listed ps : forall seen d,
  listed seen d -> listed (seen ++ ps) (fold_left listing_step ps d).
Proof.
  induction ps as [|p ps IH]; intros seen d H; simpl.
  - rewrite app_nil_r. exact H.
  - replace (seen ++ p :: ps)%list with ((seen ++ [p]) ++ ps)%list
      by (rewrite <- app_assoc; reflexivity).
    apply IH. apply listing_step_listed. exact H.
Qed.

Lemma components_loop_listed cars :
  listed (listings cars)
    (fold_left (fun d car => fold_left (append_car car) (components car) d)
               cars []).
Proof.
  rewrite loops_as_listings. apply (listings_listed (listings cars) [] []).
  split; [constructor | reflexivity].
Qed.

(** A car that lists each of its components once is met once with each
    of them. *)
Lemma met_with_own component car cs :
  NoDup cs ->
  met_with component (map (fun c => (c, car)) cs)
  = if existsb (String.eqb component) cs then [car] else [].
Proof.
  unfold met_with. induction 1 as [|c cs Hnot Hnd IH]; [reflexivity|].
  cbn [map filter fst existsb]. rewrite String.eqb_sym.
  destruct (String.eqb component c) eqn:E; cbn [orb map snd].
  - apply String.eqb_eq in E. subst c. rewrite IH.
    destruct (existsb (String.eqb component) cs) eqn:X; [|reflexivity].
    exfalso. apply Hnot. apply existsb_exists in X.
    destruct X as (x & Hx & Ex). apply String.eqb_eq in Ex. subst x.
    exact Hx.
  - exact IH.
Qed.

Lemma listed_with_filter component cars :
  Forall (fun car => NoDup (components car)) cars ->
  listed_with component cars
  = filter (fun car => existsb (String.eqb component) (components car)) cars.
Proof.
  unfold listed_with. induction 1 as [|car cars Hc _ IH]; [reflexivity|].
  cbn [listings flat_map filter].
  assert (A : forall xs ys,
            met_with component (xs ++ ys)
            = (met_with component xs ++ met_with component ys)%list).
  { intros xs ys. unfold met_with. rewrite filter_app, map_app. reflexivity. }
  rewrite A. fold (listings cars). rewrite IH.
  rewrite (met_with_own component car _ Hc).
  destruct (existsb (String.eqb component) (components car)); reflexivity.
Qed.

End ComponentFacts.

(** X11.  [get_componets_with_car] maps every component some car lists,
    and no other, to the cars that list it, in the order of the
    collection, a car appearing once for each time it lists the
    component; when no car lists a component twice these are the cars of
    the collection that have the component.  The entries are in ascending
    order of the number of cars, descending when the flag is true. *)
Theorem get_componets_with_car_spec (cars : list CarsService.Car)
  (descending : bool) :
  let by_component := CarsQueries.get_componets_with_car cars descending in
  let size (item : string * list CarsService.Car) :=
    Z.of_nat (List.length (snd item)) in
  NoDup (keys by_component)
  /\ (forall component l,
        In (component, l) by_component
        <-> l = CarsQueries.listed_with component cars /\ l <> [])
  /\ (Forall (fun car => NoDup (CarsService.components car)) cars ->
      forall component,
        CarsQueries.listed_with component cars
        = filter (fun car => existsb (String.eqb component)
                                     (CarsService.components car)) cars)
  /\ (if descending then Py.descending size Z.ltb by_component
      else ascending size Z.ltb by_component).
Proof.
  intros by_component size.
  unfold by_component, CarsQueries.get_componets_with_car.
  pose proof (components_loop_listed cars) as [Hnd Hl].
  set (d := fold_left _ cars []) in *.
  assert (P : Permutation (sorted size Z.ltb d descending) d)
    by apply sorted_perm.
  split; [|split; [|split]].
  - eapply Permutation_NoDup; [|exact Hnd].
    symmetry. apply Permutation_map. exact P.
  - intros component l. specialize (Hl component).
    fold (CarsQueries.listed_with component cars) in Hl.
    split.
    + intros H. apply (Permutation_in _ P) in H.
      apply (lookup_In _ _ _ Hnd) in H. rewrite H in Hl.
      destruct (CarsQueries.listed_with component cars); [discriminate|].
      injection Hl as ->. split; [reflexivity | discriminate].
    + intros [-> Hne]. apply (Permutation_in _ (Permutation_sym P)).
      apply lookup_Some_In. rewrite Hl.
      destruct (CarsQueries.listed_with component cars);
        [congruence | reflexivity].
  - intros Hc component. apply listed_with_filter. exact Hc.
  - pose proof (sorted_ordered size Z.ltb Z_ltb_order d descending) as O.
    destruct descending; exact O.
Qed.

Lemma get_componets_with_car_spec_witness :
  CarsQueries.get_componets_with_car
    [CarsQueries.sort_components false
       {| CarsService.model := "A"; CarsService.price := 1;
          CarsService.color := Cars.RED; CarsService.mileage := 1;
          CarsService.components := ["RADIO"; "ABS"] |};
     {| CarsService.model := "B"; CarsService.price := 2;
        CarsService.color := Cars.RED; CarsService.mileage := 2;
        CarsService.components := ["ABS"] |}] false
  = [("RADIO", [{| CarsService.model := "A"; CarsService.price := 1;
                   CarsService.color := Cars.RED; CarsService.mileage := 1;
                   CarsService.components := ["ABS"; "RADIO"] |}]);
     ("ABS", [{| CarsService.model := "A"; CarsService.price := 1;
                 CarsService.color := Cars.RED; CarsService.mileage := 1;
                 CarsService.components := ["ABS"; "RADIO"] |};
              {| CarsService.model := "B"; CarsService.price := 2;
                 CarsService.color := Cars.RED; CarsService.mileage := 2;
                 CarsService.components := ["ABS"] |}])]
  /\ NoDup (keys (CarsQueries.get_componets_with_car Samples.fleet false)).
Proof.
  split; [reflexivity|].
  exact (proj1 (get_componets_with_car_spec Samples.fleet false)).
Defined.

Section DearestFacts.
Import CarsService.

Lemma most_expensive_in_group cars car m :
  In car cars ->
  is_max m (map price cars) ->
  price car = m ->
  exists l,
    lookup (model car) (fold_left most_expensive_step cars []) = Some l
    /\ In car l.
Proof.
  intros Hin [_ Hall] Hp.
  destruct (most_expensive_loop cars) as [_ Hg].
  specialize (Hg (model car)).
  assert (Hm : has_model (model car) car = true) by apply String.eqb_refl.
  destruct (lookup (model car) (fold_left most_expensive_step cars []))
    as [l|].
  - exists l. split; [reflexivity|].
    destruct Hg as (p & Hpin & Hpall & ->).
    apply filter_In. split; [exact Hin|].
    unfold most_expensive_of. rewrite Hm. simpl. apply Z.eqb_eq.
    assert (price car <= p).
    { rewrite Forall_forall in Hpall. apply Hpall. apply in_map.
      apply filter_In. auto. }
    assert (p <= m).
    { rewrite Forall_forall in Hall. apply Hall.
      apply in_map_iff in Hpin. destruct Hpin as (c & <- & Hc).
      apply in_map. apply filter_In in Hc. tauto. }
    lia.
  - simpl in Hg. rewrite (Hg car Hin) in Hm. discriminate.
Qed.

End DearestFacts.

(** X12.  The cars [get_cars_most_expensive] returns are cars of the
    collection; each of them is among the cars
    [get_model_cars_most_expensive] keeps for its model; and their price
    is the greatest price the statistics report. *)
Theorem most_expensive_cars_agree (cars dearest : list CarsService.Car)
  (descending : bool) :
  CarsService.get_cars_most_expensive cars = Ok dearest ->
  dearest <> []
  /\ (forall car, In car dearest ->
        In car cars
        /\ exists l,
             In (CarsService.model car, l)
                (CarsService.get_model_cars_most_expensive cars descending)
             /\ In car l)
  /\ (forall st car,
        CarsService.get_statistic_price_mileage cars = Ok st ->
        In car dearest ->
        CarsService.price car = CarsService.max (CarsService.of_price st)).
Proof.
  unfold CarsService.get_cars_most_expensive. intros H.
  apply bind_Ok in H. destruct H as (m & Hm & H). injection H as <-.
  assert (Hne : map CarsService.price cars <> [])
    by (intros E; rewrite E in Hm; discriminate).
  destruct (max_Ok _ Hne) as (m' & Hm' & Hmax).
  rewrite Hm in Hm'. injection Hm' as <-.
  split; [|split].
  - destruct Hmax as [Hin _]. apply in_map_iff in Hin.
    destruct Hin as (car & Hp & Hin). intros E.
    assert (In car (filter (fun car => CarsService.price car =? m) cars)).
    { apply filter_In. split; [exact Hin | apply Z.eqb_eq; exact Hp]. }
    rewrite E in H. exact H.
  - intros car Hc. apply filter_In in Hc. destruct Hc as [Hin Hp].
    apply Z.eqb_eq in Hp. split; [exact Hin|].
    destruct (most_expensive_in_group cars car m Hin Hmax Hp) as (l & L & Hl).
    exists l. split; [|exact Hl].
    unfold CarsService.get_model_cars_most_expensive.
    eapply Permutation_in; [symmetry; apply sorted_perm|].
    apply lookup_Some_In. exact L.
  - intros st car Hst Hc. apply filter_In in Hc. destruct Hc as [_ Hp].
    apply Z.eqb_eq in Hp. rewrite Hp.
    unfold CarsService.get_statistic_price_mileage in Hst.
    destruct cars as [|c0 cars]; [exfalso; apply Hne; reflexivity|].
    apply bind_Ok in Hst. destruct Hst as (ps & Hps & Hst).
    apply bind_Ok in Hst. destruct Hst as (ms & _ & Hst).
    injection Hst as <-. cbn [CarsService.of_price].
    unfold CarsService.stats_of in Hps.
    apply bind_Ok in Hps. destruct Hps as (q & _ & Hps).
    apply bind_Ok in Hps. destruct Hps as (lo & _ & Hps).
    apply bind_Ok in Hps. destruct Hps as (hi & Hhi & Hps).
    injection Hps as <-. cbn [CarsService.max].
    rewrite Hm in Hhi. congruence.
Qed.

Lemma most_expensive_cars_agree_witness :
  CarsService.get_cars_most_expensive Samples.fleet
  = Ok [Samples.car "X" 100 7000; Samples.car "X" 100 300]
  /\ In (Samples.car "X" 100 300) Samples.fleet.
Proof.
  split; [reflexivity|].
  destruct (most_expensive_cars_agree Samples.fleet
              [Samples.car "X" 100 7000; Samples.car "X" 100 300] true
              eq_refl) as (_ & A & _).
  exact (proj1 (A (Samples.car "X" 100 300) (or_intror (or_introl eq_refl)))).
Defined.

(** X13.  With the threshold 0, [get_cars_mileage_than] returns every car
    of a collection whose mileages are greater than 0, as the loaded ones
    are; and asking again with a higher threshold among the cars found
    gives what the higher threshold gives on the whole collection. *)
Theorem get_cars_mileage_than_nested (cars : list CarsService.Car)
  (low high : Z) :
  0 <= low <= high ->
  (Forall (fun car => 0 < CarsService.mileage car) cars ->
   CarsService.get_cars_mileage_than cars (PInt 0) = Ok cars)
  /\ exists found,
       CarsService.get_cars_mileage_than cars (PInt low) = Ok found
       /\ CarsService.get_cars_mileage_than found (PInt high)
          = CarsService.get_cars_mileage_than cars (PInt high).
Proof.
  intros [Hl Hh]. unfold CarsService.get_cars_mileage_than.
  cbn [isinstance_int int_value negb orb].
  assert (E0 : (0 <? 0) = false) by reflexivity.
  assert (El : (low <? 0) = false) by (apply Z.ltb_ge; lia).
  assert (Eh : (high <? 0) = false) by (apply Z.ltb_ge; lia).
  rewrite E0, El, Eh. split.
  - intros Hpos. f_equal. induction Hpos as [|car cars Hc _ IH];
      [reflexivity|].
    cbn [filter]. apply Z.ltb_lt in Hc. rewrite Hc, IH. reflexivity.
  - eexists. split; [reflexivity|]. f_equal. rewrite filter_both.
    apply filter_ext. intros car.
    destruct (high <? CarsService.mileage car) eqn:E;
      [|apply andb_false_r].
    apply Z.ltb_lt in E. rewrite andb_true_r. apply Z.ltb_lt. lia.
Qed.

Lemma get_cars_mileage_than_nested_witness :
  exists found,
    CarsService.get_cars_mileage_than Samples.fleet (PInt 400) = Ok found
    /\ CarsService.get_cars_mileage_than found (PInt 6000)
       = CarsService.get_cars_mileage_than Samples.fleet (PInt 6000).
Proof.
  exact (proj2 (get_cars_mileage_than_nested Samples.fleet 400 6000
                  ltac:(lia))).
Defined.

(* ===================================================================== *)
(** ** Further properties: events                                        *)
(* ===================================================================== *)

Section EventValidation.
Import Events.
Variable strptime : string -> string -> option Datetime.datetime.
Variable now : Datetime.datetime.

(** [split] raises on an empty separator, before anything is checked. *)
Lemma validate_empty_separator v line :
  separator v = EmptyString ->
  validate strptime now v line = Raise ValueError.
Proof. unfold validate, split. intros ->. reflexivity. Qed.

(** The key lists the errors of a line can have. *)
Lemma validate_keys v line is_valid errors :
  validate strptime now v line = Ok (is_valid, errors) ->
  (is_valid = true <-> errors = [])
  /\ In (keys errors)
        [[]; ["format"]; ["event_name"]; ["date"]; ["event_name"; "date"]].
Proof.
  unfold validate. intros H. apply bind_Ok in H.
  destruct H as (parts & _ & H). injection H as <- <-.
  split.
  - match goal with |- context [Nat.eqb (List.length ?e) 0] =>
      destruct e; simpl; split; congruence end.
  - destruct parts as [|p0 [|p1 [|? ?]]]; try (simpl; tauto).
    destruct (is_empty (strip p0));
      [|destruct (event_name_regex v (strip p0))];
      (destruct (is_empty (strip p1));
       [|destruct (strptime (strip p1) (date_format v)) as [d|];
         [destruct (negb (allow_past_dates v) && Datetime.ltb d now)|]]);
      simpl; tauto.
Qed.

Lemma accepted_iff v line :
  accepted strptime now v line
  <-> exists part0 part1 d,
        split line (separator v) = Ok [part0; part1]
        /\ is_empty (strip part0) = false
        /\ event_name_regex v (strip part0) = true
        /\ is_empty (strip part1) = false
        /\ strptime (strip part1) (date_format v) = Some d
        /\ (allow_past_dates v = false -> Datetime.ltb d now = false).
Proof.
  unfold accepted, validate. split.
  - intros [errors H]. apply bind_Ok in H. destruct H as (parts & Hs & H).
    injection H as Hlen _. apply length_zero_nil in Hlen.
    destruct parts as [|p0 [|p1 [|? ?]]]; try discriminate Hlen.
    exists p0, p1.
    destruct (is_empty (strip p0)) eqn:E0.
    { exfalso. destruct (is_empty (strip p1));
        [|destruct (strptime (strip p1) (date_format v)) as [d|];
          [destruct (negb (allow_past_dates v) && Datetime.ltb d now)|]];
        discriminate Hlen. }
    destruct (event_name_regex v (strip p0)) eqn:R; simpl in Hlen.
    2:{ exfalso. destruct (is_empty (strip p1));
        [|destruct (strptime (strip p1) (date_format v)) as [d|];
          [destruct (negb (allow_past_dates v) && Datetime.ltb d now)|]];
        discriminate Hlen. }
    destruct (is_empty (strip p1)) eqn:E1; [discriminate|].
    destruct (strptime (strip p1) (date_format v)) as [d|]; [|discriminate].
    exists d. repeat split; auto.
    intros Hp. rewrite Hp in Hlen. simpl in Hlen.
    destruct (Datetime.ltb d now); [discriminate | reflexivity].
  - intros (p0 & p1 & d & -> & E0 & R & E1 & Hd & Hp). exists [].
    simpl. rewrite E0, R, E1, Hd. simpl.
    destruct (allow_past_dates v); simpl; [reflexivity|].
    rewrite Hp by reflexivity. reflexivity.
Qed.

End EventValidation.

(** X14.  With an empty separator [EventValidator.validate] raises
    [ValueError], whatever the line.  It accepts a line exactly when the
    line splits into two parts on the separator, the first part,
    stripped, is not empty and matches the name pattern, and the second
    part, stripped, is not empty, parses under the date format and,
    unless past dates are allowed, is not before the clock reading.
    Whenever it returns, the errors have the key format alone, or the
    keys event_name and date, either or both, and the line is valid
    exactly when they have none. *)
Theorem events_validate_spec
  (strptime : string -> string -> option Datetime.datetime)
  (now : Datetime.datetime) (v : Events.EventValidator) (line : string) :
  (Events.separator v = EmptyString ->
   Events.validate strptime now v line = Raise ValueError)
  /\ (Events.accepted strptime now v line
      <-> exists part0 part1 d,
            split line (Events.separator v) = Ok [part0; part1]
            /\ Events.is_empty (strip part0) = false
            /\ Events.event_name_regex v (strip part0) = true
            /\ Events.is_empty (strip part1) = false
            /\ strptime (strip part1) (Events.date_format v) = Some d
            /\ (Events.allow_past_dates v = false ->
                Datetime.ltb d now = false))
  /\ (forall is_valid errors,
        Events.validate strptime now v line = Ok (is_valid, errors) ->
        (is_valid = true <-> errors = [])
        /\ In (keys errors)
              [[]; ["format"]; ["event_name"]; ["date"];
               ["event_name"; "date"]]).
Proof.
  split; [apply validate_empty_separator|]. split; [apply accepted_iff|].
  intros is_valid errors. apply validate_keys.
Qed.

Lemma events_validate_spec_witness :
  Events.validate Datetime.strptime Samples.noon Samples.main_validator
    " ;01-01-2020"
  = Ok (false, [("event_name", [Events.EmptyEventName]);
                ("date", [Events.InThePast "01-01-2020"])])
  /\ In ["event_name"; "date"]
        [[]; ["format"]; ["event_name"]; ["date"]; ["event_name"; "date"]].
Proof.
  split; [reflexivity|].
  destruct (events_validate_spec Datetime.strptime Samples.noon
              Samples.main_validator " ;01-01-2020") as (_ & _ & H).
  exact (proj2 (H false _ eq_refl)).
Defined.

(** X15.  An accepted line whose date part has no blank at either end
    converts: the event has the first part of the line as its name, as it
    stands, and the date that was validated. *)
Theorem accepted_line_converts
  (strptime : string -> string -> option Datetime.datetime)
  (now : Datetime.datetime) (v : Events.EventValidator)
  (line part0 part1 : string) :
  Events.accepted strptime now v line ->
  split line (Events.separator v) = Ok [part0; part1] ->
  strip part1 = part1 ->
  exists d,
    Events.from_str strptime line (Events.date_format v) (Events.separator v)
    = Ok {| Events.event_name := part0; Events.date := d |}
    /\ strptime part1 (Events.date_format v) = Some d
    /\ (Events.allow_past_dates v = false -> Datetime.ltb d now = false).
Proof.
  intros Ha Hs Hstrip.
  destruct (accepted_parts strptime now v line Ha)
    as (q0 & q1 & d & Hs' & _ & _ & Hd & Hp).
  rewrite Hs in Hs'. injection Hs' as <- <-. rewrite Hstrip in Hd.
  exists d. unfold Events.from_str. rewrite Hs. simpl. rewrite Hd. auto.
Qed.

Lemma accepted_line_converts_witness :
  exists d,
    Events.from_str Datetime.strptime " A ;01-01-2030" "%d-%m-%Y" ";"
    = Ok {| Events.event_name := " A "; Events.date := d |}.
Proof.
  destruct (accepted_line_converts Datetime.strptime Samples.noon
              Samples.main_validator " A ;01-01-2030" " A " "01-01-2030")
    as (d & H & _).
  - exists []. reflexivity.
  - reflexivity.
  - reflexivity.
  - exists d. exact H.
Defined.

Section EventsLoader.
Import Events.
Variable strptime : string -> string -> option Datetime.datetime.
Variable now : Datetime.datetime.

Lemma events_load_app r xs : forall ys acc,
  load strptime now r (xs ++ ys) acc
  = bind (load strptime now r xs acc)
         (fun acc' => load strptime now r ys acc').
Proof.
  induction xs as [|x xs IH]; intros ys acc; simpl; [reflexivity|].
  destruct (validate strptime now (event_validator r) x)
    as [[is_valid errors]|e]; simpl; [|reflexivity].
  destruct is_valid; simpl.
  - destruct (from_str strptime x (date_format (event_validator r)) ";");
      simpl; [apply IH | reflexivity].
  - destruct (stop_loading_if_error r); [reflexivity | apply IH].
Qed.

Lemma get_events_returns r lines :
  returns (get_events strptime now r lines)
  <-> returns (load strptime now r lines []).
Proof.
  unfold get_events, returns.
  destruct (load strptime now r lines []); simpl; split; intros [x H];
    try discriminate; eauto.
Qed.

Lemma events_load_stop_skip v lines : forall acc out,
  load strptime now
       {| event_validator := v; stop_loading_if_error := true |} lines acc
  = Ok out ->
  load strptime now
       {| event_validator := v; stop_loading_if_error := false |} lines acc
  = Ok out
  /\ Forall (accepted strptime now v) lines
  /\ List.length out = (List.length acc + List.length lines)%nat.
Proof.
  induction lines as [|line lines IH]; intros acc out H; simpl in *.
  - injection H as <-. split; [reflexivity|]. split; [constructor | lia].
  - destruct (validate strptime now v line) as [[is_valid errors]|e] eqn:Hv;
      simpl in *; [|discriminate].
    destruct is_valid; simpl in *; [|discriminate].
    destruct (from_str strptime line (date_format v) ";") as [ev|e];
      simpl in *; [|discriminate].
    destruct (IH _ _ H) as (Hs & Hf & Hlen).
    split; [exact Hs|]. split.
    + constructor; [exists errors; exact Hv | exact Hf].
    + rewrite Hlen, length_app. simpl. lia.
Qed.

End EventsLoader.

(** X16.  A line [validate] rejects is skipped by the events loader in
    skip mode, as if it were not in the file; in abort mode it makes the
    loader raise [ValueError] once the lines before it have loaded,
    whatever follows. *)
Theorem get_events_rejected_line
  (strptime : string -> string -> option Datetime.datetime)
  (now : Datetime.datetime) (v : Events.EventValidator)
  (before after : list string) (rejected : string)
  (errors : Events.errors_t) :
  Events.validate strptime now v rejected = Ok (false, errors) ->
  Events.get_events strptime now
    {| Events.event_validator := v; Events.stop_loading_if_error := false |}
    (before ++ rejected :: after)
  = Events.get_events strptime now
      {| Events.event_validator := v; Events.stop_loading_if_error := false |}
      (before ++ after)
  /\ (returns (Events.get_events strptime now
                 {| Events.event_validator := v;
                    Events.stop_loading_if_error := true |} before)
      -> Events.get_events strptime now
           {| Events.event_validator := v;
              Events.stop_loading_if_error := true |}
           (before ++ rejected :: after)
         = Raise ValueError).
Proof.
  intros H. split.
  - unfold Events.get_events. rewrite !events_load_app.
    destruct (Events.load _ _ _ before []); simpl; [|reflexivity].
    rewrite H. reflexivity.
  - intros Hr. apply get_events_returns in Hr. destruct Hr as [evs Hr].
    unfold Events.get_events. rewrite events_load_app, Hr. simpl.
    rewrite H. reflexivity.
Qed.

Lemma get_events_rejected_line_witness :
  Events.get_events Datetime.strptime Samples.noon
    {| Events.event_validator := Samples.main_validator;
       Events.stop_loading_if_error := false |}
    (["B;02-01-2030"] ++ "no date" :: ["A;01-01-2030"])
  = Ok [Samples.event "A" 1 1 2030; Samples.event "B" 2 1 2030].
Proof.
  rewrite (proj1 (get_events_rejected_line Datetime.strptime Samples.noon
                    Samples.main_validator ["B;02-01-2030"] ["A;01-01-2030"]
                    "no date" [("format", [Events.InvalidFormat])] eq_refl)).
  reflexivity.
Defined.

(** X17.  When the events loader returns in abort mode, every line was
    accepted, there is one event for each line, and skip mode returns the
    same events. *)
Theorem get_events_abort_mode
  (strptime : string -> string -> option Datetime.datetime)
  (now : Datetime.datetime) (v : Events.EventValidator)
  (lines : list string) (events : list Events.Event) :
  Events.get_events strptime now
    {| Events.event_validator := v; Events.stop_loading_if_error := true |}
    lines = Ok events ->
  Events.get_events strptime now
    {| Events.event_validator := v; Events.stop_loading_if_error := false |}
    lines = Ok events
  /\ Forall (Events.accepted strptime now v) lines
  /\ List.length events = List.length lines.
Proof.
  unfold Events.get_events. intros H.
  apply bind_Ok in H. destruct H as (raw & Hl & H). injection H as <-.
  destruct (events_load_stop_skip strptime now v lines [] raw Hl)
    as (Hs & Hf & Hlen).
  rewrite Hs. simpl. split; [reflexivity|]. split; [exact Hf|].
  simpl in Hlen. rewrite <- Hlen. apply Permutation_length.
  apply (sorted_perm Events.date Datetime.ltb raw false).
Qed.

Lemma get_events_abort_mode_witness :
  Events.get_events Datetime.strptime Samples.noon
    {| Events.event_validator := Samples.main_validator;
       Events.stop_loading_if_error := false |}
    ["B;02-01-2030"; "A;01-01-2030"]
  = Ok [Samples.event "A" 1 1 2030; Samples.event "B" 2 1 2030].
Proof.
  apply (get_events_abort_mode Datetime.strptime Samples.noon
           Samples.main_validator ["B;02-01-2030"; "A;01-01-2030"]).
  reflexivity.
Defined.

Section CommonDateFacts.
Import Events.

Lemma total_filter_le (f : string * Z -> bool) d :
  Forall (fun p => 0 <= snd p) d ->
  total (map snd (filter f d)) <= total (map snd d).
Proof.
  induction 1 as [|p d Hp _ IH]; simpl; [lia|].
  destruct (f p); simpl; lia.
Qed.

Lemma total_same m (d : list (string * Z)) :
  Forall (fun p => snd p = m) d ->
  total (map snd d) = m * Z.of_nat (List.length d).
Proof.
  induction 1 as [|p d Hp _ IH]; [simpl; lia|].
  cbn [map total fold_right List.length]. fold (total (map snd d)).
  rewrite IH, Hp. lia.
Qed.

Lemma counted_positive seen counts :
  counted seen counts -> Forall (fun p => 0 < snd p) counts.
Proof.
  intros HC. apply Forall_forall. intros [x n] Hin. simpl.
  apply (lookup_In _ _ _ (proj1 HC)) in Hin.
  apply (counted_lookup _ _ _ _ HC) in Hin. tauto.
Qed.

End CommonDateFacts.

(** X18.  On a non-empty collection the count [get_most_common_date]
    returns is at least 1, the list of dates is not empty, each date in
    it is the written date of some event, and the dates times the count
    do not exceed the number of events. *)
Theorem get_most_common_date_bounds
  (strftime : Datetime.datetime -> string -> string)
  (events : list Events.Event) (date_format : string)
  (dates : list string) (max_count : Z) :
  Events.get_most_common_date strftime events date_format
  = Ok (dates, max_count) ->
  1 <= max_count
  /\ dates <> []
  /\ (forall x, In x dates ->
        exists e, In e events /\ strftime (Events.date e) date_format = x)
  /\ max_count * Z.of_nat (List.length dates)
     <= Z.of_nat (List.length events).
Proof.
  unfold Events.get_most_common_date.
  destruct events as [|e0 events]; [discriminate|].
  set (written := map (fun e => strftime (Events.date e) date_format)
                      (e0 :: events)).
  intros H. injection H as <- <-.
  pose proof (Counter_counted written) as HC.
  pose proof (counted_positive _ _ HC) as Hpos.
  pose proof (Counter_total written) as Htot.
  set (counts := Events.Counter written) in *.
  assert (Hne : map snd counts <> []).
  { assert (L : lookup (strftime (Events.date e0) date_format) counts
                = Some (Events.occurrences
                          (strftime (Events.date e0) date_format) written)).
    { apply (counted_lookup _ _ _ _ HC). split; [reflexivity|].
      apply occurrences_pos. left. reflexivity. }
    apply lookup_Some_In in L. intros E. destruct counts; [exact L|].
    discriminate. }
  destruct (max_Ok _ Hne) as (m & Em & [Hin Hall]).
  unfold Events.max_default. rewrite Em.
  apply in_map_iff in Hin. destruct Hin as ([x c] & Ec & Hin).
  simpl in Ec. subst c.
  rewrite Forall_forall in Hpos. pose proof (Hpos _ Hin) as Hm. simpl in Hm.
  split; [lia|]. split; [|split].
  - intros E.
    assert (F : In (x, m) (filter (fun item => snd item =? m) counts)).
    { apply filter_In. split; [exact Hin | apply Z.eqb_refl]. }
    apply (in_map fst) in F. rewrite E in F. exact F.
  - intros y Hy. apply in_map_iff in Hy. destruct Hy as ([y' c] & E & Hf).
    simpl in E. subst y'. apply filter_In in Hf. destruct Hf as [Hy _].
    apply (lookup_In _ _ _ (proj1 HC)) in Hy.
    apply (counted_lookup _ _ _ _ HC) in Hy. destruct Hy as [Ho Hc].
    assert (Hw : In y written).
    { apply (count_occ_In string_dec). unfold Events.occurrences in Ho. lia. }
    unfold written in Hw. apply in_map_iff in Hw.
    destruct Hw as (e & He & Hin'). exists e. auto.
  - rewrite length_map.
    rewrite <- (total_same m (filter (fun item => snd item =? m) counts)).
    + unfold written in Htot. rewrite length_map in Htot. rewrite <- Htot.
      apply total_filter_le. apply Forall_forall. intros p Hp.
      specialize (Hpos p Hp). lia.
    + apply Forall_forall. intros p Hp. apply filter_In in Hp.
      apply Z.eqb_eq. tauto.
Qed.

Lemma get_most_common_date_bounds_witness :
  1 <= 2 /\ ["01-01-2030"] <> [].
Proof.
  destruct (get_most_common_date_bounds Datetime.strftime
              [Samples.event "A" 1 1 2030; Samples.event "A" 1 1 2030;
               Samples.event "B" 2 1 2030] "%d-%m-%Y"
              ["01-01-2030"] 2 eq_refl) as (H1 & H2 & _).
  split; [exact H1 | exact H2].
Defined.

(* ===================================================================== *)
(** ** Further properties: the text file reader and writer               *)
(* ===================================================================== *)

Section FileFacts.
Import Files.

Lemma append_snoc l c X :
  (l ++ String c EmptyString) ++ X = l ++ String c X.
Proof.
  induction l as [|a l IH]; simpl; [reflexivity|]. rewrite IH. reflexivity.
Qed.

Lemma concat_cons x xs :
  String.concat EmptyString (x :: xs) = x ++ String.concat EmptyString xs.
Proof.
  destruct xs as [|y ys]; simpl; [|reflexivity].
  induction x as [|a x IH]; simpl; [reflexivity|]. rewrite <- IH. reflexivity.
Qed.

Lemma has_char_false_cons c d s :
  has_char c (String d s) = false ->
  Ascii.eqb d c = false /\ has_char c s = false.
Proof.
  rewrite has_char_cons. intros H. apply orb_false_iff in H.
  rewrite Ascii.eqb_sym. exact H.
Qed.

Lemma to_linesep_line linesep l X :
  has_char LF l = false ->
  to_linesep linesep (l ++ String LF X)
  = l ++ linesep ++ to_linesep linesep X.
Proof.
  induction l as [|a l IH]; intros H.
  - cbn [append to_linesep]. rewrite Ascii.eqb_refl. reflexivity.
  - apply has_char_false_cons in H. destruct H as [Ha Hl].
    cbn [append to_linesep]. rewrite Ha, IH by exact Hl. reflexivity.
Qed.

(** What is written: every line followed by the line separator. *)
Lemma write_lines linesep lines :
  Forall one_line lines ->
  write linesep lines
  = fold_right (fun l text => l ++ linesep ++ text) EmptyString lines.
Proof.
  unfold write. induction 1 as [|l lines [Hl _] _ IH]; [reflexivity|].
  cbn [map fold_right]. rewrite concat_cons, append_snoc.
  rewrite to_linesep_line by exact Hl. rewrite IH. reflexivity.
Qed.

Lemma universal_newlines_line linesep l X :
  is_linesep linesep ->
  has_char CR l = false ->
  universal_newlines (l ++ linesep ++ X)
  = l ++ String LF (universal_newlines X).
Proof.
  intros Hsep. induction l as [|a l IH]; intros H.
  - destruct Hsep as [->| ->]; reflexivity.
  - apply has_char_false_cons in H. destruct H as [Ha Hl].
    cbn [append universal_newlines]. rewrite Ha, IH by exact Hl.
    reflexivity.
Qed.

Lemma readlines_from_line l : forall cur X,
  has_char LF l = false ->
  readlines_from (l ++ String LF X) cur
  = string_of_list_ascii (rev cur ++ chars l ++ [LF])
    :: readlines_from X [].
Proof.
  induction l as [|a l IH]; intros cur X H.
  - cbn [append readlines_from]. rewrite Ascii.eqb_refl. reflexivity.
  - apply has_char_false_cons in H. destruct H as [Ha Hl].
    cbn [append readlines_from]. rewrite Ha, IH by exact Hl.
    cbn [rev chars list_ascii_of_string]. rewrite <- app_assoc. reflexivity.
Qed.

Lemma string_of_chars_snoc l c :
  string_of_list_ascii (chars l ++ [c]) = l ++ String c EmptyString.
Proof.
  unfold chars. induction l as [|a l IH]; simpl; [reflexivity|].
  rewrite IH. reflexivity.
Qed.

(** The lines read back, before they are stripped. *)
Lemma readlines_written linesep lines :
  is_linesep linesep ->
  Forall one_line lines ->
  readlines_from
    (universal_newlines
       (fold_right (fun l text => l ++ linesep ++ text) EmptyString lines))
    []
  = map (fun l => l ++ String LF EmptyString) lines.
Proof.
  intros Hsep. induction 1 as [|l lines [Hl Hc] _ IH]; [reflexivity|].
  cbn [fold_right map].
  rewrite (universal_newlines_line linesep l _ Hsep Hc).
  rewrite readlines_from_line by exact Hl. rewrite IH.
  cbn [rev app]. rewrite string_of_chars_snoc. reflexivity.
Qed.

(** **** Stripping *)

Lemma rstrip_snoc x c :
  is_space c = true -> rstrip (x ++ String c EmptyString) = rstrip x.
Proof.
  intros Hc. induction x as [|a x IH]; cbn [append rstrip].
  - rewrite Hc. reflexivity.
  - rewrite IH. reflexivity.
Qed.

Lemma strip_snoc l c :
  is_space c = true -> strip (l ++ String c EmptyString) = strip l.
Proof.
  intros Hc. unfold strip. induction l as [|a l IH]; cbn [append lstrip].
  - rewrite Hc. reflexivity.
  - destruct (is_space a); [exact IH|].
    apply (rstrip_snoc (String a l) c Hc).
Qed.

Lemma rstrip_twice s : rstrip (rstrip s) = rstrip s.
Proof.
  induction s as [|a s IH]; [reflexivity|]. cbn [rstrip].
  destruct (rstrip s) as [|b r] eqn:E.
  - destruct (is_space a) eqn:Ha; [reflexivity|].
    cbn [rstrip]. rewrite Ha. reflexivity.
  - cbn [rstrip]. cbn [rstrip] in IH. rewrite IH. reflexivity.
Qed.

Lemma lstrip_head s : unblank_head (lstrip s).
Proof.
  induction s as [|a s IH]; cbn [lstrip]; [exact I|].
  destruct (is_space a) eqn:Ha; [exact IH | exact Ha].
Qed.

Lemma lstrip_unblank s : unblank_head s -> lstrip s = s.
Proof.
  destruct s as [|a s]; simpl; [reflexivity|]. intros ->. reflexivity.
Qed.

Lemma rstrip_head s : unblank_head s -> unblank_head (rstrip s).
Proof.
  destruct s as [|a s]; [intros; exact I|]. cbn [unblank_head rstrip].
  intros Ha. destruct (rstrip s); [rewrite Ha|]; exact Ha.
Qed.

Lemma strip_twice s : strip (strip s) = strip s.
Proof.
  unfold strip.
  rewrite (lstrip_unblank (rstrip (lstrip s)))
    by (apply rstrip_head, lstrip_head).
  apply rstrip_twice.
Qed.

Lemma read_written linesep lines :
  is_linesep linesep ->
  Forall one_line lines ->
  read (write linesep lines) = map strip lines.
Proof.
  intros Hsep Hl. unfold read. rewrite (write_lines linesep lines Hl).
  rewrite (readlines_written linesep lines Hsep Hl), map_map.
  apply map_ext. intros l. apply strip_snoc. reflexivity.
Qed.

Lemma map_strip_stripped lines :
  Forall (fun l => strip l = l) lines -> map strip lines = lines.
Proof.
  induction 1 as [|l lines E _ IH]; [reflexivity|].
  cbn [map]. rewrite E, IH. reflexivity.
Qed.

End FileFacts.

(** X19.  Lines that hold no newline character, written by
    [TextFileWriter.write] under either line separator, are read back by
    [TextFileReader.read] one for one, each stripped of the blanks at its
    ends; lines without such blanks are read back as they were.  Whatever
    the content of a file, the lines [read] returns have no blank at
    either end. *)
Theorem read_write_lines (linesep : string) (lines : list string) :
  Files.is_linesep linesep ->
  Forall Files.one_line lines ->
  Files.read (Files.write linesep lines) = map strip lines
  /\ (Forall (fun l => strip l = l) lines ->
      Files.read (Files.write linesep lines) = lines)
  /\ forall content,
       Forall (fun l => strip l = l) (Files.read content).
Proof.
  intros Hsep Hl.
  pose proof (read_written linesep lines Hsep Hl) as R.
  split; [exact R|]. split.
  - intros Hs. rewrite R. apply map_strip_stripped. exact Hs.
  - intros content. unfold Files.read. apply Forall_forall.
    intros l Hin. apply in_map_iff in Hin. destruct Hin as (x & <- & _).
    apply strip_twice.
Qed.

Lemma read_write_lines_witness :
  Files.read
    (Files.write (String Files.CR (String Files.LF EmptyString))
                 ["B;02-01-2030"; " A ;01-01-2030 "])
  = ["B;02-01-2030"; "A ;01-01-2030"].
Proof.
  rewrite (proj1 (read_write_lines
                    (String Files.CR (String Files.LF EmptyString))
                    ["B;02-01-2030"; " A ;01-01-2030 "]
                    (or_intror eq_refl)
                    ltac:(repeat constructor))).
  reflexivity.
Defined.

(* ===================================================================== *)
(** ** Further properties: conversion, and the way through the files     *)
(* ===================================================================== *)

(** **** What a split on ";" tells about the line *)

Lemma split_from_something s : forall cur, split_from ";" s 0 cur <> [].
Proof.
  induction s as [|c s IH]; intros cur; [discriminate|].
  rewrite split_from_semicolon.
  destruct (Ascii.eqb c ";"); [discriminate | apply IH].
Qed.

Lemma split_from_single s : forall cur y,
  split_from ";" s 0 cur = [y] ->
  has_char ";" s = false /\ y = string_of_list_ascii (rev cur ++ chars s).
Proof.
  induction s as [|c s IH]; intros cur y H.
  - simpl in H. injection H as <-. rewrite app_nil_r. auto.
  - rewrite split_from_semicolon in H. destruct (Ascii.eqb c ";") eqn:E.
    + injection H as _ H. exfalso. exact (split_from_something _ _ H).
    + apply IH in H. destruct H as [Hs ->].
      rewrite has_char_cons, Ascii.eqb_sym, E. split; [exact Hs|].
      simpl. rewrite <- app_assoc. reflexivity.
Qed.

Lemma split_from_pair s : forall cur x y,
  split_from ";" s 0 cur = [x; y] ->
  exists a, s = a ++ String ";" y
            /\ x = string_of_list_ascii (rev cur ++ chars a)
            /\ has_char ";" a = false /\ has_char ";" y = false.
Proof.
  induction s as [|c s IH]; intros cur x y H.
  - discriminate H.
  - rewrite split_from_semicolon in H. destruct (Ascii.eqb c ";") eqn:E.
    + injection H as <- H. apply split_from_single in H.
      destruct H as [Hs Hy]. simpl in Hy. rewrite string_of_chars in Hy.
      subst y. apply Ascii.eqb_eq in E. subst c. exists EmptyString.
      rewrite app_nil_r. auto.
    + apply IH in H. destruct H as (a & -> & -> & Ha & Hy).
      exists (String c a). rewrite has_char_cons, Ascii.eqb_sym, E.
      simpl. rewrite <- app_assoc. auto.
Qed.

(** A line splits into [x] and [y] exactly when it is [x], a semicolon
    and [y], and neither part holds a semicolon. *)
Lemma split_pair line x y :
  split line ";" = Ok [x; y]
  <-> line = x ++ String ";" y
      /\ has_char ";" x = false /\ has_char ";" y = false.
Proof.
  split.
  - unfold split. intros H. injection H as H. apply split_from_pair in H.
    destruct H as (a & -> & -> & Ha & Hy). simpl. rewrite string_of_chars.
    auto.
  - intros (-> & Hx & Hy). apply split_join; assumption.
Qed.

(** X20.  [Event.from_str], with its default separator, returns an event
    exactly when the text is the name of the event, one semicolon, and
    a text that [strptime] takes to the date of the event, with no other
    semicolon in it: the name is the text before the semicolon as it
    stands, blanks included.  On a text that does not split into two
    parts on the semicolon, as one without a semicolon, it raises
    [ValueError]. *)
Theorem from_str_semicolon
  (strptime : string -> string -> option Datetime.datetime)
  (data date_format : string) :
  (forall e,
     Events.from_str strptime data date_format ";" = Ok e
     <-> exists date_str,
           data = Events.event_name e ++ String ";" date_str
           /\ has_char ";" (Events.event_name e) = false
           /\ has_char ";" date_str = false
           /\ strptime date_str date_format = Some (Events.date e))
  /\ (forall parts,
        split data ";" = Ok parts -> List.length parts <> 2%nat ->
        Events.from_str strptime data date_format ";" = Raise ValueError)
  /\ (has_char ";" data = false ->
      Events.from_str strptime data date_format ";" = Raise ValueError).
Proof.
  split.
  - intros e. unfold Events.from_str. split.
    + intros H. apply bind_Ok in H. destruct H as (parts & Hs & H).
      destruct parts as [|p0 [|p1 [|? ?]]]; try discriminate H.
      destruct (strptime p1 date_format) as [d|] eqn:Hd; [|discriminate].
      injection H as <-. apply split_pair in Hs.
      destruct Hs as (-> & H0 & H1). exists p1. simpl. auto.
    + intros (date_str & -> & H0 & H1 & Hd).
      rewrite split_join by assumption. simpl. rewrite Hd.
      destruct e; reflexivity.
  - split.
    + intros parts Hs Hl. unfold Events.from_str. rewrite Hs. simpl.
      destruct parts as [|p0 [|p1 [|? ?]]]; try reflexivity.
      exfalso. apply Hl. reflexivity.
    + intros H. unfold Events.from_str, split.
      rewrite split_from_plain by exact H. reflexivity.
Qed.

Section ThroughFiles.
Import Events Files.
Variable strptime : string -> string -> option Datetime.datetime.
Variable strftime : Datetime.datetime -> string -> string.
Variable now : Datetime.datetime.

(** **** The lines [read] returns hold no newline character *)

Lemma has_char_append c a b :
  has_char c (a ++ b) = has_char c a || has_char c b.
Proof. unfold has_char. rewrite chars_append, existsb_app. reflexivity. Qed.

Lemma has_char_lstrip c s :
  has_char c s = false -> has_char c (lstrip s) = false.
Proof.
  induction s as [|a s IH]; cbn [lstrip]; intros H; [exact H|].
  destruct (is_space a); [|exact H].
  apply IH. apply has_char_false_cons in H. apply H.
Qed.

Lemma has_char_rstrip c s :
  has_char c s = false -> has_char c (rstrip s) = false.
Proof.
  induction s as [|a s IH]; intros H; [exact H|].
  rewrite has_char_cons in H. apply orb_false_iff in H.
  destruct H as [Ha Hs]. cbn [rstrip]. specialize (IH Hs).
  destruct (rstrip s) as [|b r].
  - destruct (is_space a); [reflexivity|].
    rewrite has_char_cons, Ha. reflexivity.
  - rewrite has_char_cons, Ha. exact IH.
Qed.

Lemma one_line_strip s : one_line s -> one_line (strip s).
Proof.
  intros [H1 H2]. unfold strip.
  split; apply has_char_rstrip, has_char_lstrip; assumption.
Qed.

Lemma universal_newlines_no_CR t :
  has_char CR (universal_newlines t) = false.
Proof.
  induction t as [|c rest IH]; [reflexivity|].
  cbn [universal_newlines]. destruct (Ascii.eqb c CR) eqn:E.
  - destruct rest as [|d rest']; [reflexivity|].
    destruct (Ascii.eqb d LF) eqn:E2.
    + apply Ascii.eqb_eq in E2. subst d. exact IH.
    + rewrite has_char_cons, IH. reflexivity.
  - rewrite has_char_cons, IH, Ascii.eqb_sym, E. reflexivity.
Qed.

Lemma string_of_app l l' :
  string_of_list_ascii (l ++ l')
  = string_of_list_ascii l ++ string_of_list_ascii l'.
Proof.
  induction l as [|a l IH]; simpl; [reflexivity|]. rewrite IH. reflexivity.
Qed.

(** A line of [readlines] is free of newline characters, but for the
    one that may end it. *)
Lemma readlines_from_lines t : forall cur x,
  has_char CR t = false ->
  one_line (string_of_list_ascii (rev cur)) ->
  In x (readlines_from t cur) ->
  exists body,
    one_line body /\ (x = body \/ x = body ++ String LF EmptyString).
Proof.
  induction t as [|c t IH]; intros cur x Hcr Hcur Hin.
  - cbn [readlines_from] in Hin. destruct cur as [|a cur]; [contradiction|].
    destruct Hin as [<-|[]]. eauto.
  - apply has_char_false_cons in Hcr. destruct Hcr as [Hc Ht].
    cbn [readlines_from] in Hin. destruct (Ascii.eqb c LF) eqn:E.
    + destruct Hin as [<-|Hin].
      * exists (string_of_list_ascii (rev cur)). split; [exact Hcur|].
        right. apply Ascii.eqb_eq in E. subst c. cbn [rev].
        rewrite string_of_app. reflexivity.
      * apply (IH [] x Ht); [split; reflexivity | exact Hin].
    + apply (IH (c :: cur) x Ht); [|exact Hin]. cbn [rev].
      rewrite string_of_app. destruct Hcur as [H1 H2].
      cbn [string_of_list_ascii].
      split; rewrite has_char_append, has_char_cons.
      * rewrite H1, Ascii.eqb_sym, E. reflexivity.
      * rewrite H2, Ascii.eqb_sym, Hc. reflexivity.
Qed.

Lemma read_one_line content : Forall one_line (read content).
Proof.
  unfold read. apply Forall_forall. intros l Hin.
  apply in_map_iff in Hin. destruct Hin as (x & <- & Hin).
  apply readlines_from_lines in Hin;
    [|apply universal_newlines_no_CR | split; reflexivity].
  destruct Hin as (body & Hb & [->| ->]).
  - apply one_line_strip. exact Hb.
  - rewrite strip_snoc by reflexivity. apply one_line_strip. exact Hb.
Qed.

Lemma read_stripped content : Forall (fun l => strip l = l) (read content).
Proof.
  unfold read. apply Forall_forall. intros l Hin.
  apply in_map_iff in Hin. destruct Hin as (x & <- & _). apply strip_twice.
Qed.

(** **** The lines written for events loaded from a file *)

Lemma stripped_unblank s : strip s = s -> unblank_head s.
Proof. intros <-. unfold strip. apply rstrip_head, lstrip_head. Qed.

Lemma stripped_rstrip s : strip s = s -> rstrip s = s.
Proof.
  intros H. pose proof (stripped_unblank s H) as Hu.
  unfold strip in H. rewrite (lstrip_unblank s Hu) in H. exact H.
Qed.

Lemma rstrip_append x b :
  rstrip b = b -> is_empty b = false -> rstrip (x ++ b) = x ++ b.
Proof.
  intros Hb Hne. induction x as [|c x IH]; [exact Hb|].
  cbn [append rstrip]. rewrite IH.
  destruct (x ++ b) as [|d r] eqn:E; [|reflexivity].
  destruct x; [|discriminate E]. simpl in E. subst b. discriminate Hne.
Qed.

(** A name without a blank in front, a semicolon and a date without
    blanks around it make a line [strip] leaves as it is. *)
Lemma strip_written a b :
  unblank_head a -> is_empty a = false ->
  strip b = b -> is_empty b = false ->
  strip (a ++ String ";" b) = a ++ String ";" b.
Proof.
  intros Ha Hne Hb Hbne. destruct a as [|c a]; [discriminate Hne|].
  unfold strip. rewrite lstrip_unblank by exact Ha.
  rewrite <- append_snoc. apply rstrip_append; [|exact Hbne].
  apply stripped_rstrip. exact Hb.
Qed.

(** Every loaded event is the conversion of an accepted line of the
    data. *)
Lemma load_sources_from r : forall lines acc out,
  load strptime now r lines acc = Ok out ->
  exists raw,
    out = (acc ++ raw)%list
    /\ Forall (fun e => exists line,
                  In line lines
                  /\ accepted strptime now (event_validator r) line
                  /\ from_str strptime line
                       (date_format (event_validator r)) ";" = Ok e) raw.
Proof.
  induction lines as [|line lines IH]; intros acc out H; simpl in H.
  - injection H as <-. exists []. rewrite app_nil_r. split; constructor.
  - assert (W : forall raw,
      Forall (fun e => exists l,
                In l lines
                /\ accepted strptime now (event_validator r) l
                /\ from_str strptime l
                     (date_format (event_validator r)) ";" = Ok e) raw ->
      Forall (fun e => exists l,
                In l (line :: lines)
                /\ accepted strptime now (event_validator r) l
                /\ from_str strptime l
                     (date_format (event_validator r)) ";" = Ok e) raw).
    { intros raw. apply Forall_impl. intros e (l & Hin & Hl).
      exists l. split; [right; exact Hin | exact Hl]. }
    apply bind_Ok in H. destruct H as ([is_valid errors] & Hl & H).
    destruct is_valid.
    + apply bind_Ok in H. destruct H as (e & He & H).
      apply IH in H. destruct H as (raw & -> & Hc).
      exists (e :: raw). rewrite <- app_assoc. split; [reflexivity|].
      constructor; [|apply W; exact Hc]. exists line.
      split; [left; reflexivity|]. split; [|exact He].
      exists errors. exact Hl.
    + destruct (stop_loading_if_error r); [discriminate|].
      apply IH in H. destruct H as (raw & -> & Hc).
      exists raw. split; [reflexivity | apply W; exact Hc].
Qed.

(** The name of an event converted from an accepted line [read] returned
    is not empty, starts with no blank and holds no newline character. *)
Lemma source_name v line e :
  separator v = ";" ->
  accepted strptime now v line ->
  from_str strptime line (date_format v) ";" = Ok e ->
  strip line = line -> one_line line ->
  unblank_head (event_name e)
  /\ is_empty (event_name e) = false
  /\ one_line (event_name e).
Proof.
  intros Hsep Ha Hc Hs [H1 H2].
  destruct (accepted_parts strptime now v line Ha)
    as (p0 & p1 & d & Hp & E0 & _).
  rewrite Hsep in Hp. unfold from_str in Hc. rewrite Hp in Hc. simpl in Hc.
  destruct (strptime p1 (date_format v)) as [d1|]; [|discriminate].
  injection Hc as <-. cbn [event_name].
  apply split_pair in Hp. destruct Hp as (-> & _ & _).
  rewrite has_char_append in H1, H2.
  apply orb_false_iff in H1, H2.
  apply stripped_unblank in Hs.
  destruct p0 as [|c p0]; [discriminate E0|].
  split; [exact Hs|]. split; [reflexivity|].
  split; [apply H1 | apply H2].
Qed.

(** Events loaded from the lines of a file, written to a file and read
    from it, are loaded as they were. *)
Lemma roundtrip_files r content events linesep :
  separator (event_validator r) = ";" ->
  is_linesep linesep ->
  get_events strptime now r (read content) = Ok events ->
  Forall (reads_back strptime strftime now (event_validator r)) events ->
  Forall (fun e =>
            one_line (strftime (date e) (date_format (event_validator r))))
         events ->
  get_events strptime now r
    (read (write linesep
             (save_sorted_events strftime events
                (date_format (event_validator r)))))
  = Ok events.
Proof.
  intros Hsep Hls Hg Hrb Hol.
  assert (Hn : Forall (fun e => unblank_head (event_name e)
                                /\ is_empty (event_name e) = false
                                /\ one_line (event_name e)) events).
  { unfold get_events in Hg. apply bind_Ok in Hg.
    destruct Hg as (raw & Hl & Hg). injection Hg as Hg.
    apply load_sources_from in Hl. destruct Hl as (raw' & E & Hsrc).
    simpl in E. subst raw'.
    eapply Permutation_Forall;
      [rewrite <- Hg; symmetry; apply sort_asc_perm|].
    eapply Forall_impl; [|exact Hsrc].
    intros e (line & Hin & Ha & Hc).
    apply (source_name (event_validator r) line e Hsep Ha Hc).
    - pose proof (read_stripped content) as S.
      rewrite Forall_forall in S. apply S. exact Hin.
    - pose proof (read_one_line content) as S.
      rewrite Forall_forall in S. apply S. exact Hin. }
  assert (Hw : read (write linesep
                       (save_sorted_events strftime events
                          (date_format (event_validator r))))
               = save_sorted_events strftime events
                   (date_format (event_validator r))).
  { rewrite read_written; [apply map_strip_stripped| exact Hls |].
    - clear Hg. unfold save_sorted_events.
      induction events as [|e events IH]; [constructor|].
      inversion Hn as [|? ? (Hu & Hne & _) Hn']; subst.
      inversion Hrb as [|? ? (_ & Hst & Hdne & _) Hrb']; subst.
      inversion Hol as [|? ? _ Hol']; subst.
      cbn [map]. constructor; [|apply IH; assumption].
      apply strip_written; assumption.
    - clear Hg. unfold save_sorted_events.
      induction events as [|e events IH]; [constructor|].
      inversion Hn as [|? ? (_ & _ & Hn1 & Hn2) Hn']; subst.
      inversion Hrb as [|? ? _ Hrb']; subst.
      inversion Hol as [|? ? [Ho1 Ho2] Hol']; subst.
      cbn [map]. constructor; [|apply IH; assumption].
      cbn [append].
      split; rewrite has_char_append, has_char_cons.
      + rewrite Hn1, Ho1. reflexivity.
      + rewrite Hn2, Ho2. reflexivity. }
  rewrite Hw.
  apply (roundtrip_semicolon strptime strftime now r (read content));
    assumption.
Qed.

End ThroughFiles.

(** X21.  With the delimiter ";", a loaded collection whose written
    dates read back is loaded again, unchanged, from the lines
    [save_sorted_events] writes for it.  When the lines came from
    [TextFileReader.read] and the written dates hold no newline
    character, the same holds through the files: the lines, written by
    [TextFileWriter.write] under either line separator and read by
    [TextFileReader.read], load as the same events in the same order. *)
Theorem events_roundtrip
  (strptime : string -> string -> option Datetime.datetime)
  (strftime : Datetime.datetime -> string -> string)
  (now : Datetime.datetime) (r : Events.EventsFileReader)
  (lines : list string) (events : list Events.Event) :
  Events.separator (Events.event_validator r) = ";" ->
  Events.get_events strptime now r lines = Ok events ->
  Forall (Events.reads_back strptime strftime now (Events.event_validator r))
         events ->
  Events.get_events strptime now r
    (Events.save_sorted_events strftime events
       (Events.date_format (Events.event_validator r)))
  = Ok events
  /\ forall linesep content,
       Files.is_linesep linesep ->
       lines = Files.read content ->
       Forall (fun e =>
                 Files.one_line
                   (strftime (Events.date e)
                      (Events.date_format (Events.event_validator r))))
              events ->
       Events.get_events strptime now r
         (Files.read
            (Files.write linesep
               (Events.save_sorted_events strftime events
                  (Events.date_format (Events.event_validator r)))))
       = Ok events.
Proof.
  intros Hsep Hg Hrb. split.
  - apply (roundtrip_semicolon strptime strftime now r lines); assumption.
  - intros linesep content Hls -> Hol.
    apply (roundtrip_files strptime strftime now r content); assumption.
Qed.

Lemma events_roundtrip_witness :
  Events.get_events Datetime.strptime Samples.noon Samples.main_loader
    (Files.read Samples.events_file) = Ok Samples.two_events
  /\ Files.write (String Files.LF EmptyString)
       (Events.save_sorted_events Datetime.strftime Samples.two_events
          "%d-%m-%Y")
     = "A;01-01-2030" ++ String Files.LF
         ("B;02-01-2030" ++ String Files.LF EmptyString)
  /\ Events.get_events Datetime.strptime Samples.noon Samples.main_loader
       (Files.read
          (Files.write (String Files.LF EmptyString)
             (Events.save_sorted_events Datetime.strftime
                Samples.two_events "%d-%m-%Y")))
     = Ok Samples.two_events.
Proof.
  split; [reflexivity|]. split; [reflexivity|].
  apply (proj2 (events_roundtrip Datetime.strptime Datetime.strftime
                  Samples.noon Samples.main_loader
                  (Files.read Samples.events_file) Samples.two_events
                  eq_refl eq_refl ltac:(repeat constructor))
           (String Files.LF EmptyString) Samples.events_file).
  - left. reflexivity.
  - reflexivity.
  - repeat constructor.
Defined.
